(** * PoeWikiTelegramBot: the resolver and presentation pipeline

    A shallow embedding of [poewikibot/models.py], [poewikibot/api.py] and the
    formatting part of [poewikibot/bot.py], with the properties the
    specification states about them.

    Conventions.
    - A Python [str] is a list of Unicode code points ([str := list N]); [len]
      is [length], slicing is [take], [+] is [++].  String literals of the
      source are written [lit "..."].
    - [None] and a missing dict key are both [None]; Python truthiness of an
      [Optional[str]] is [truthy].
    - Dicts read only through [.get] are [gmap]s; dicts whose iteration order
      is observable ([stats], [stat_texts], ...) are association lists
      updated by [dict_set].
    - The remote wiki is a state-passing oracle: every [client.get] takes the
      current world and returns the HTTP result together with the next
      world.  A raised exception is a constructor of the result type. *)

From stdpp Require Import base decidable option list gmap strings.
From Stdlib Require Import NArith ZArith Lia.

(** ** Python strings *)

Definition char := N.
Definition str := list N.

Definition lit (s : string) : str :=
  map Ascii.N_of_ascii (String.list_ascii_of_string s).

(** [ord(c)] of a one-character literal. *)
Definition ord (s : string) : char :=
  match s with
  | String a _ => Ascii.N_of_ascii a
  | EmptyString => 0%N
  end.

Definition SPACE : char := Eval cbv in ord " ".
Definition UNDERSCORE : char := Eval cbv in ord "_".
Definition QUOTE : char := Eval cbv in ord "'".
Definition HASH : char := Eval cbv in ord "#".
Definition LPAREN : char := Eval cbv in ord "(".
Definition RPAREN : char := Eval cbv in ord ")".
Definition DASH : char := Eval cbv in ord "-".
Definition BACKSLASH : char := Eval cbv in ord "\".
Definition LBRACKET : char := Eval cbv in ord "[".
Definition RBRACKET : char := Eval cbv in ord "]".
Definition PIPE : char := Eval cbv in ord "|".
Definition AMP : char := Eval cbv in ord "&".
Definition LT : char := Eval cbv in ord "<".
Definition GT : char := Eval cbv in ord ">".
Definition DQUOTE : char := 34%N.
Definition NEWLINE : char := 10%N.

(** [bool(s)] for a string. *)
Definition nonempty (s : str) : bool :=
  match s with
  | [] => false
  | _ :: _ => true
  end.

(** [bool(s)] for [s : Optional[str]]. *)
Definition truthy (o : option str) : bool :=
  match o with
  | Some s => nonempty s
  | None => false
  end.

(** [a or b] on optional strings. *)
Definition py_or (a b : option str) : option str :=
  if truthy a then a else b.

(** [a or "literal"]. *)
Definition or_default (a : option str) (d : str) : str :=
  match a with
  | Some s => if nonempty s then s else d
  | None => d
  end.

(** [s.startswith(p)]. *)
Fixpoint startswith (p s : str) : bool :=
  match p, s with
  | [], _ => true
  | _ :: _, [] => false
  | a :: p', b :: s' => (a =? b)%N && startswith p' s'
  end.

(** [p in s] for strings. *)
Fixpoint contains (p s : str) : bool :=
  startswith p s ||
  match s with
  | [] => false
  | _ :: s' => contains p s'
  end.

(** [s.replace(c, r)] for a one-character [c]. *)
Definition replace_char (c : char) (r : str) (s : str) : str :=
  flat_map (fun x => if (x =? c)%N then r else [x]) s.

(** [s.replace(old, new)] for a non-empty [old]: leftmost, non-overlapping
    occurrences. *)
Fixpoint replace_fuel (fuel : nat) (old new s : str) : str :=
  match fuel with
  | O => s
  | S n =>
      match s with
      | [] => []
      | c :: s' =>
          if startswith old s
          then new ++ replace_fuel n old new (drop (length old) s)
          else c :: replace_fuel n old new s'
      end
  end.

Definition replace (old new s : str) : str :=
  replace_fuel (length s) old new s.

(** [sep.join(l)]. *)
Fixpoint join (sep : str) (l : list str) : str :=
  match l with
  | [] => []
  | [x] => x
  | x :: rest => x ++ sep ++ join sep rest
  end.

(** The longest prefix whose characters satisfy [p], and what follows. *)
Fixpoint span (p : char -> bool) (s : str) : str * str :=
  match s with
  | [] => ([], [])
  | c :: s' =>
      if p c then let '(a, b) := span p s' in (c :: a, b) else ([], s)
  end.

(** ** Insertion-ordered dicts *)

Section Dict.
Context {K V : Type} `{EqDecision K}.

Fixpoint dict_get (k : K) (d : list (K * V)) : option V :=
  match d with
  | [] => None
  | (k', v) :: d' => if decide (k' = k) then Some v else dict_get k d'
  end.

(** [d[k] = v]: an existing key keeps its position. *)
Fixpoint dict_set (k : K) (v : V) (d : list (K * V)) : list (K * V) :=
  match d with
  | [] => [(k, v)]
  | (k', v') :: d' =>
      if decide (k' = k) then (k, v) :: d' else (k', v') :: dict_set k v d'
  end.

(** The dict left by [d.pop(k, None)]. *)
Fixpoint dict_del (k : K) (d : list (K * V)) : list (K * V) :=
  match d with
  | [] => []
  | (k', v) :: d' =>
      if decide (k' = k) then dict_del k d' else (k', v) :: dict_del k d'
  end.

Definition dict_has (k : K) (d : list (K * V)) : bool :=
  match dict_get k d with
  | Some _ => true
  | None => false
  end.

Definition dict_keys (d : list (K * V)) : list K := map fst d.

End Dict.

(** ** Regular expressions of api.py *)

Section Regex.

(** Membership in Unicode category Nd for code points above ASCII: [\d] of
    a [str] pattern matches [0-9] and those. *)
Variable unicode_Nd : char -> bool.

Definition is_decimal (c : char) : bool :=
  if (c <? 128)%N then (48 <=? c)%N && (c <=? 57)%N else unicode_Nd c.

(** A match of [\(\d+-\d+\)] at the start of [s]: the matched text and the
    rest.  Each [\d+] is greedy and is followed by a non-digit, so the
    longest run is the only one that can succeed. *)
Definition match_range (s : str) : option (str * str) :=
  match s with
  | c :: s1 =>
      if (c =? LPAREN)%N then
        let '(d1, s2) := span is_decimal s1 in
        match d1, s2 with
        | _ :: _, c2 :: s3 =>
            if (c2 =? DASH)%N then
              let '(d2, s4) := span is_decimal s3 in
              match d2, s4 with
              | _ :: _, c3 :: s5 =>
                  if (c3 =? RPAREN)%N
                  then Some (LPAREN :: d1 ++ DASH :: d2 ++ [RPAREN], s5)
                  else None
              | _, _ => None
              end
            else None
        | _, _ => None
        end
      else None
  | [] => None
  end.

(** [re.sub(r'\(\d+-\d+\)', repl, s)] where [expand] maps a matched text to
    its replacement. *)
Fixpoint sub_range_fuel (fuel : nat) (expand : str -> str) (s : str) : str :=
  match fuel with
  | O => s
  | S n =>
      match s with
      | [] => []
      | c :: s' =>
          match match_range s with
          | Some (m, rest) => expand m ++ sub_range_fuel n expand rest
          | None => c :: sub_range_fuel n expand s'
          end
      end
  end.

Definition sub_range (expand : str -> str) (s : str) : str :=
  sub_range_fuel (length s) expand s.

(** How [re] expands a replacement string that contains a backslash:
    [None] when the template is rejected ([re.error]), otherwise the
    replacement as a function of the matched text (the pattern has no
    groups, so only [\g<0>] can refer to the match). *)
Variable expand_template : str -> option (str -> str).

(** [re.sub(r'\(\d+-\d+\)', repl, s)] for a replacement string [repl]; a
    replacement without backslash is literal.  [None]: [re.error]. *)
Definition re_sub_range (repl : str) (s : str) : option str :=
  if bool_decide (BACKSLASH ∈ repl) then
    match expand_template repl with
    | Some expand => Some (sub_range expand s)
    | None => None
    end
  else Some (sub_range (fun _ => repl) s).

(** [([^\]]+)\]\]] at the start of [s]: group 1 and the rest. *)
Definition match_link_body (s : str) : option (str * str) :=
  let '(g, r) := span (fun c => negb (c =? RBRACKET)%N) s in
  match g, r with
  | _ :: _, x :: y :: rest =>
      if (x =? RBRACKET)%N && (y =? RBRACKET)%N then Some (g, rest) else None
  | _, _ => None
  end.

(** [\[\[(?:[^|\]]*\|)?([^\]]+)\]\]] at the start of [s]: group 1 and the
    rest.  The optional prefix is tried first; when what follows it does not
    match, the engine backtracks to the empty prefix. *)
Definition match_link (s : str) : option (str * str) :=
  match s with
  | a :: b :: s1 =>
      if (a =? LBRACKET)%N && (b =? LBRACKET)%N then
        let '(_, s2) :=
          span (fun c => negb (c =? PIPE)%N && negb (c =? RBRACKET)%N) s1 in
        match s2 with
        | p :: s3 =>
            if (p =? PIPE)%N then
              match match_link_body s3 with
              | Some r => Some r
              | None => match_link_body s1
              end
            else match_link_body s1
        | [] => match_link_body s1
        end
      else None
  | _ => None
  end.

(** [re.sub(r'\[\[(?:[^|\]]*\|)?([^\]]+)\]\]', r'\1', s)]. *)
Fixpoint clean_links_fuel (fuel : nat) (s : str) : str :=
  match fuel with
  | O => s
  | S n =>
      match s with
      | [] => []
      | c :: s' =>
          match match_link s with
          | Some (g, rest) => g ++ clean_links_fuel n rest
          | None => c :: clean_links_fuel n s'
          end
      end
  end.

Definition clean_links (s : str) : str := clean_links_fuel (length s) s.

End Regex.

(** ** models.py: the field catalog *)

Module Models.

(** What [load_cargo_mapping] finds on disk. *)
Inductive mapping_file :=
| FileMissing
| FileUnreadable
| FileLoaded (m : gmap str (list str)).

Definition load_cargo_mapping (f : mapping_file) : gmap str (list str) :=
  match f with
  | FileLoaded m => m
  | FileUnreadable => ∅
  | FileMissing => ∅
  end.

Definition CLASS_TO_TABLE : gmap str str :=
  list_to_map
    [ (lit "One-Handed Axe", lit "weapons");
      (lit "Two-Handed Axe", lit "weapons");
      (lit "One-Handed Mace", lit "weapons");
      (lit "Two-Handed Mace", lit "weapons");
      (lit "One-Handed Sword", lit "weapons");
      (lit "Two-Handed Sword", lit "weapons");
      (lit "Bow", lit "weapons");
      (lit "Claw", lit "weapons");
      (lit "Dagger", lit "weapons");
      (lit "Rune Dagger", lit "weapons");
      (lit "Staff", lit "weapons");
      (lit "Warstaff", lit "weapons");
      (lit "Wand", lit "weapons");
      (lit "Sceptre", lit "weapons");
      (lit "Body Armour", lit "armours");
      (lit "Helmet", lit "armours");
      (lit "Boots", lit "armours");
      (lit "Gloves", lit "armours");
      (lit "Shield", lit "armours");
      (lit "Skill Gem", lit "skill_gems");
      (lit "Support Gem", lit "skill_gems");
      (lit "Map", lit "maps");
      (lit "Jewel", lit "jewels");
      (lit "Abyss Jewel", lit "jewels");
      (lit "Flask", lit "flasks");
      (lit "Amulet", lit "amulets");
      (lit "Ring", lit "items");
      (lit "Belt", lit "items");
      (lit "Divination Card", lit "divination_cards");
      (lit "Skill", lit "skill");
      (lit "Monster", lit "monsters");
      (lit "Pantheon", lit "pantheon");
      (lit "Passive Skill", lit "passive_skills") ].

Definition get_table_for_class (item_class : str) : option str :=
  CLASS_TO_TABLE !! item_class.

Section Catalog.

(** The module-level global [CARGO_MAPPING]. *)
Variable CARGO_MAPPING : gmap str (list str).

Definition get_fields_for_table (table : str) : list str :=
  default [] (CARGO_MAPPING !! table).

Definition validate_field (table field : str) : bool :=
  if bool_decide (CARGO_MAPPING = ∅) then true
  else
    let table_fields := default [] (CARGO_MAPPING !! table) in
    let field_normalized := replace_char SPACE (lit "_") field in
    bool_decide (field_normalized ∈ table_fields)
    || bool_decide (field ∈ table_fields).

End Catalog.

End Models.

(** ** api.py: the resolver *)

Module Api.
Import Models.

Record Item := {
  name : str;
  rarity : str;
  item_class : str;
  required_level : option str;
  flavour_text : option str;
  description : option str;
  implicit_mods : option str;
  explicit_mods : option str;
  image_url : option str;
  stats : list (str * str)
}.

(** [item.implicit_mods = i; item.explicit_mods = e]. *)
Definition set_mods (it : Item) (i e : option str) : Item :=
  {| name := name it; rarity := rarity it; item_class := item_class it;
     required_level := required_level it; flavour_text := flavour_text it;
     description := description it;
     implicit_mods := i; explicit_mods := e;
     image_url := image_url it; stats := stats it |}.

Definition set_metadata (it : Item) (lvl fl de : option str) : Item :=
  {| name := name it; rarity := rarity it; item_class := item_class it;
     required_level := lvl; flavour_text := fl; description := de;
     implicit_mods := implicit_mods it; explicit_mods := explicit_mods it;
     image_url := image_url it; stats := stats it |}.

Definition set_stats (it : Item) (st : list (str * str)) : Item :=
  {| name := name it; rarity := rarity it; item_class := item_class it;
     required_level := required_level it; flavour_text := flavour_text it;
     description := description it;
     implicit_mods := implicit_mods it; explicit_mods := explicit_mods it;
     image_url := image_url it; stats := st |}.

(** *** The remote query API *)

(** The parameters of a cargo query that vary between calls ([action] and
    [format] are constant). *)
Record params := {
  tables : str;
  fields : str;
  where_clause : str;
  order_by : option str;
  limit : option Z
}.

(** The ["title"] object of one result row: field name to value.  A JSON
    [null] is read as a missing key, which is what [.get] returns for both. *)
Abbreviation title := (gmap str str).

(** The JSON envelope: [{"cargoquery": [{"title": {...}}, ...]}] or
    [{"error": {...}}].  [error] is the payload when the key is present. *)
Record envelope := {
  error : option str;
  cargoquery : option (list title)
}.

(** [data.get("cargoquery", [])]. *)
Definition get_cargoquery (data : envelope) : list title :=
  default [] (cargoquery data).

(** [await client.get(...)] followed by [response.json()]: the call raises,
    or answers with a status (2xx or not) and a body that parses or not. *)
Inductive http_result :=
| GetRaises
| Response (status_ok : bool) (json : option envelope).

(** What a coroutine that may raise hands back. *)
Inductive outcome (A : Type) :=
| Returns (a : A)
| Raises.
Arguments Returns {A} a.
Arguments Raises {A}.

Definition cargo (tbl flds whr : str) : params :=
  {| tables := tbl; fields := flds; where_clause := whr;
     order_by := None; limit := None |}.

(** [name.replace("'", "''")]. *)
Definition escape_quotes (s : str) : str :=
  replace_char QUOTE (lit "''") s.

Section Resolver.

Context {World : Type}.

(** [client.get(settings.poe_wiki_api_url, params=...)] and [.json()]. *)
Variable client_get : params -> World -> http_result * World.

(** [get_image_urls]: every batch is guarded, so it never raises; it is
    given the set of icon file names and returns file name to URL. *)
Variable get_image_urls : gset str -> World -> gmap str str * World.

Variable CARGO_MAPPING : gmap str (list str).

(** [str.lower]. *)
Variable lower : str -> str.

Variable unicode_Nd : char -> bool.
Variable expand_template : str -> option (str -> str).

(** *** get_mods_fallback *)

(** Step 1: [mod_info_map], mod id to (is_implicit, is_explicit). *)
Fixpoint collect_mod_info (raw_mods : list title)
    (mod_info_map : list (str * (bool * bool))) : list (str * (bool * bool)) :=
  match raw_mods with
  | [] => mod_info_map
  | mod_title :: rest =>
      let mod_id := mod_title !! lit "id" in
      collect_mod_info rest
        (match mod_id with
         | Some id =>
             if nonempty id then
               dict_set id
                 (bool_decide (mod_title !! lit "is implicit" = Some (lit "1")),
                  bool_decide (mod_title !! lit "is explicit" = Some (lit "1")))
                 mod_info_map
             else mod_info_map
         | None => mod_info_map
         end)
  end.

(** Step 2: [stat_texts], mod id to template, hidden templates skipped. *)
Fixpoint collect_stat_texts (rows : list title)
    (stat_texts : list (str * str)) : list (str * str) :=
  match rows with
  | [] => stat_texts
  | m_title :: rest =>
      collect_stat_texts rest
        (match m_title !! lit "id", m_title !! lit "stat text" with
         | Some m_id, Some m_text =>
             if nonempty m_id && nonempty m_text then
               if contains (lit "(Hidden)") m_text then stat_texts
               else dict_set m_id m_text stat_texts
             else stat_texts
         | _, _ => stat_texts
         end)
  end.

(** Step 3: [item_stats_map], mod id (possibly [None]) to its rows. *)
Fixpoint collect_item_stats (rows : list title)
    (item_stats_map : list (option str * list title))
    : list (option str * list title) :=
  match rows with
  | [] => item_stats_map
  | s_title :: rest =>
      let s_mod_id := s_title !! lit "mod id" in
      let m1 :=
        if dict_has s_mod_id item_stats_map then item_stats_map
        else dict_set s_mod_id [] item_stats_map in
      collect_item_stats rest
        (dict_set s_mod_id (default [] (dict_get s_mod_id m1) ++ [s_title]) m1)
  end.

(** The body of [for stat in item_stats_map[mod_id]]: one observation
    applied to the template.  [None]: [re.sub] raises. *)
Definition apply_stat (stat : title) (stat_text : str) : option str :=
  let s_min := stat !! lit "min" in
  let s_max := stat !! lit "max" in
  match s_min, s_max with
  | Some mn, Some mx =>
      if nonempty mn && nonempty mx then
        if bool_decide (mn = mx) then
          match re_sub_range unicode_Nd expand_template mn stat_text with
          | Some t => Some (replace_char HASH mn t)
          | None => None
          end
        else
          re_sub_range unicode_Nd expand_template
            (lit "(" ++ mn ++ lit "-" ++ mx ++ lit ")") stat_text
      else Some stat_text
  | _, _ => Some stat_text
  end.

Fixpoint apply_stats (observations : list title) (stat_text : str)
    : option str :=
  match observations with
  | [] => Some stat_text
  | stat :: rest =>
      match apply_stat stat stat_text with
      | Some t => apply_stats rest t
      | None => None
      end
  end.

(** The text of one mod: placeholders substituted, wiki links cleaned. *)
Definition render_mod (item_stats_map : list (option str * list title))
    (mod_id stat_text : str) : option str :=
  match
    (if dict_has (Some mod_id) item_stats_map
     then apply_stats (default [] (dict_get (Some mod_id) item_stats_map))
            stat_text
     else Some stat_text)
  with
  | Some t => Some (clean_links t)
  | None => None
  end.

(** The loop [for mod_id, stat_text in stat_texts.items()].  An exception
    ([re.error], or [KeyError] at [mod_info_map[mod_id]]) leaves the loop
    for the outer handler, which keeps what was appended so far. *)
Fixpoint assemble (mod_info_map : list (str * (bool * bool)))
    (item_stats_map : list (option str * list title))
    (stat_texts : list (str * str)) (implicits explicits : list str)
    : list str * list str :=
  match stat_texts with
  | [] => (implicits, explicits)
  | (mod_id, stat_text) :: rest =>
      match render_mod item_stats_map mod_id stat_text with
      | None => (implicits, explicits)
      | Some t =>
          match dict_get mod_id mod_info_map with
          | None => (implicits, explicits)
          | Some (is_implicit, is_explicit) =>
              if is_implicit then
                assemble mod_info_map item_stats_map rest
                  (implicits ++ [t]) explicits
              else if is_explicit then
                assemble mod_info_map item_stats_map rest
                  implicits (explicits ++ [t])
              else
                assemble mod_info_map item_stats_map rest implicits explicits
          end
      end
  end.

(** [get_mods_fallback(item_name, client)]: the pair
    ([result["implicit"]], [result["explicit"]]). *)
Definition get_mods_fallback (item_name : str) (w : World)
    : (list str * list str) * World :=
  let safe_name := escape_quotes item_name in
  let p :=
    cargo (lit "item_mods") (lit "id,is_implicit,is_explicit")
      (lit "_pageName='" ++ safe_name ++ lit "'") in
  match client_get p w with
  | (Response _ (Some data), w1) =>
      let mod_info_map := collect_mod_info (get_cargoquery data) [] in
      match mod_info_map with
      | [] => (([], []), w1)
      | _ :: _ =>
          let mod_ids := dict_keys mod_info_map in
          let m_where :=
            lit "id IN ('" ++ join (lit "','") mod_ids ++ lit "')" in
          let m_params := cargo (lit "mods") (lit "id,stat_text") m_where in
          match client_get m_params w1 with
          | (Response _ (Some m_data), w2) =>
              let stat_texts := collect_stat_texts (get_cargoquery m_data) [] in
              let s_where :=
                lit "_pageName='" ++ safe_name ++ lit "' AND mod_id IN ('"
                  ++ join (lit "','") mod_ids ++ lit "')" in
              let s_params :=
                cargo (lit "item_stats") (lit "mod_id,min,max,avg") s_where in
              let '(item_stats_map, w3) :=
                match client_get s_params w2 with
                | (Response _ (Some s_data), w3) =>
                    (collect_item_stats (get_cargoquery s_data) [], w3)
                | (_, w3) => ([], w3)
                end in
              (assemble mod_info_map item_stats_map stat_texts [] [], w3)
          | (_, w2) => (([], []), w2)
          end
      end
  | (_, w1) => (([], []), w1)
  end.

(** *** populate_item_details *)

(** The inner loop [for field_name in [field_to_check,
    field_to_check.replace("_", " ")]] on the pair (implicit, explicit). *)
Fixpoint try_spellings (safe_name field_to_check : str)
    (field_names : list str) (mods : option str * option str) (w : World)
    : (option str * option str) * World :=
  match field_names with
  | [] => (mods, w)
  | field_name :: rest =>
      let s_params :=
        cargo (lit "items") field_name (lit "name='" ++ safe_name ++ lit "'") in
      match client_get s_params w with
      | (Response _ (Some s_data), w1) =>
          if bool_decide (is_Some (error s_data)) then
            try_spellings safe_name field_to_check rest mods w1
          else
            match get_cargoquery s_data with
            | [] => try_spellings safe_name field_to_check rest mods w1
            | row :: _ =>
                let val := row !! field_name in
                let implicit :=
                  if bool_decide (field_to_check = lit "implicit_mods")
                  then py_or val mods.1 else mods.1 in
                let explicit :=
                  if bool_decide (field_to_check = lit "explicit_mods")
                  then py_or val mods.2 else mods.2 in
                if truthy val then ((implicit, explicit), w1)
                else try_spellings safe_name field_to_check rest
                       (implicit, explicit) w1
            end
      | (_, w1) => try_spellings safe_name field_to_check rest mods w1
      end
  end.

(** The outer loop [for field_to_check in ["implicit_mods",
    "explicit_mods"]]: the primary path. *)
Fixpoint primary_mods (safe_name : str) (fields_to_check : list str)
    (mods : option str * option str) (w : World)
    : (option str * option str) * World :=
  match fields_to_check with
  | [] => (mods, w)
  | field_to_check :: rest =>
      if validate_field CARGO_MAPPING (lit "items") field_to_check then
        let '(mods1, w1) :=
          try_spellings safe_name field_to_check
            [field_to_check; replace_char UNDERSCORE (lit " ") field_to_check]
            mods w in
        primary_mods safe_name rest mods1 w1
      else primary_mods safe_name rest mods w
  end.

(** The merge of the primary values with the fallback lists. *)
Definition merge_mods (mods : option str * option str)
    (fallback_mods : list str * list str) : option str * option str :=
  let implicit :=
    if negb (bool_decide (fallback_mods.1 = [])) && negb (truthy mods.1)
    then Some (join (lit "<br>") fallback_mods.1) else mods.1 in
  let explicit :=
    if negb (bool_decide (fallback_mods.2 = [])) && negb (truthy mods.2)
    then Some (join (lit "<br>") fallback_mods.2) else mods.2 in
  (implicit, explicit).

(** Block 1 of [populate_item_details] ([if include_mods:]): the values
    assigned to [item.implicit_mods] and [item.explicit_mods]. *)
Definition resolve_mods (item_name : str) (w : World)
    : (option str * option str) * World :=
  let safe_name := escape_quotes item_name in
  let '(mods, w1) :=
    primary_mods safe_name [lit "implicit_mods"; lit "explicit_mods"]
      (None, None) w in
  if negb (truthy mods.1) || negb (truthy mods.2) then
    let '(fallback_mods, w2) := get_mods_fallback item_name w1 in
    (merge_mods mods fallback_mods, w2)
  else (mods, w1).

(** Block 2: required level, flavour text, description. *)
Definition fetch_metadata (it : Item) (w : World) : Item * World :=
  let safe_name := escape_quotes (name it) in
  let s_params :=
    cargo (lit "items") (lit "required_level,flavour_text,description")
      (lit "name='" ++ safe_name ++ lit "'") in
  match client_get s_params w with
  | (Response _ (Some data), w1) =>
      match get_cargoquery data with
      | s_item :: _ =>
          (set_metadata it
             (py_or (s_item !! lit "required level") (required_level it))
             (py_or (s_item !! lit "flavour text") (flavour_text it))
             (py_or (s_item !! lit "description") (description it)), w1)
      | [] => (it, w1)
      end
  | (_, w1) => (it, w1)
  end.

Definition identity_fields : list str :=
  [lit "name"; lit "item_class"; lit "rarity"; lit "implicit_mods";
   lit "explicit_mods"; lit "flavour_text"].

Definition excluded_patterns : list str :=
  [lit "_min"; lit "_max"; lit "average"; lit "color"; lit "colour"].

(** The loop [for f in all_fields] that builds [valid_fields]. *)
Fixpoint select_valid_fields (supplementary_table : str)
    (all_fields : list str) : list str :=
  match all_fields with
  | [] => []
  | f :: rest =>
      if bool_decide (f ∈ identity_fields) then
        select_valid_fields supplementary_table rest
      else if existsb (fun sub => contains sub (lower f)) excluded_patterns then
        select_valid_fields supplementary_table rest
      else if validate_field CARGO_MAPPING supplementary_table f then
        f :: select_valid_fields supplementary_table rest
      else select_valid_fields supplementary_table rest
  end.

(** The parameters of the batched supplementary query. *)
Definition sup_params (supplementary_table safe_name : str)
    (valid_fields : list str) : params :=
  cargo supplementary_table (join (lit ",") valid_fields)
    (lit "_pageName='" ++ safe_name ++ lit "'").

(** [for f in valid_fields] over the batched row. *)
Fixpoint store_fields (sup_item : title) (valid_fields : list str)
    (st : list (str * str)) : list (str * str) :=
  match valid_fields with
  | [] => st
  | f :: rest =>
      store_fields sup_item rest
        (match sup_item !! replace_char UNDERSCORE (lit " ") f with
         | Some val =>
             if nonempty val
             then dict_set (replace_char SPACE (lit "_") f) val st
             else st
         | None => st
         end)
  end.

(** The per-field queries made after the batched call raised. *)
Fixpoint query_individually (supplementary_table safe_name : str)
    (valid_fields : list str) (st : list (str * str)) (w : World)
    : list (str * str) * World :=
  match valid_fields with
  | [] => (st, w)
  | field_to_query :: rest =>
      let ind_params :=
        cargo supplementary_table field_to_query
          (lit "_pageName='" ++ safe_name ++ lit "'") in
      match client_get ind_params w with
      | (Response _ (Some ind_data), w1) =>
          let st1 :=
            match get_cargoquery ind_data with
            | row :: _ =>
                match
                  row !! replace_char UNDERSCORE (lit " ") field_to_query
                with
                | Some val =>
                    if nonempty val
                    then dict_set (replace_char SPACE (lit "_") field_to_query)
                           val st
                    else st
                | None => st
                end
            | [] => st
            end in
          query_individually supplementary_table safe_name rest st1 w1
      | (_, w1) => query_individually supplementary_table safe_name rest st w1
      end
  end.

(** Block 3: supplementary stats. *)
Definition fetch_supplementary (it : Item) (w : World) : Item * World :=
  let safe_name := escape_quotes (name it) in
  match get_table_for_class (item_class it) with
  | Some supplementary_table =>
      if nonempty supplementary_table then
        let all_fields :=
          get_fields_for_table CARGO_MAPPING supplementary_table in
        let valid_fields :=
          select_valid_fields supplementary_table all_fields in
        match valid_fields with
        | [] => (it, w)
        | _ :: _ =>
            match
              client_get
                (sup_params supplementary_table safe_name valid_fields) w
            with
            | (Response _ (Some sup_data), w1) =>
                match get_cargoquery sup_data with
                | sup_item :: _ =>
                    (set_stats it
                       (store_fields sup_item valid_fields (stats it)), w1)
                | [] => (it, w1)
                end
            | (_, w1) =>
                let '(st, w2) :=
                  query_individually supplementary_table safe_name valid_fields
                    (stats it) w1 in
                (set_stats it st, w2)
            end
        end
      else (it, w)
  | None => (it, w)
  end.

Definition populate_item_details (it : Item) (include_mods : bool) (w : World)
    : Item * World :=
  let '(it1, w1) :=
    if include_mods then
      let '(mods, w1) := resolve_mods (name it) w in
      (set_mods it mods.1 mods.2, w1)
    else (it, w) in
  let '(it2, w2) := fetch_metadata it1 w1 in
  fetch_supplementary it2 w2.

(** *** query_items *)

(** [item.get("inventory icon")] when truthy. *)
Definition icon_of (item_data : title) : option str :=
  match item_data !! lit "inventory icon" with
  | Some s => if nonempty s then Some s else None
  | None => None
  end.

(** The loop [for item_data in raw_results]. *)
Fixpoint build_items (raw_results : list title) (image_urls : gmap str str)
    (detailed include_mods : bool) (w : World) : list Item * World :=
  match raw_results with
  | [] => ([], w)
  | item_data :: rest =>
      let it :=
        {| name := or_default (item_data !! lit "name") (lit "Unknown");
           rarity := or_default (item_data !! lit "rarity") (lit "Unknown");
           item_class := or_default (item_data !! lit "class") (lit "Unknown");
           required_level := None; flavour_text := None; description := None;
           implicit_mods := None; explicit_mods := None;
           image_url :=
             match item_data !! lit "inventory icon" with
             | Some icon => image_urls !! icon
             | None => None
             end;
           stats := [] |} in
      let '(it1, w1) :=
        if detailed then populate_item_details it include_mods w else (it, w) in
      let '(items, w2) :=
        build_items rest image_urls detailed include_mods w1 in
      (it1 :: items, w2)
  end.

(** [f'name LIKE "%{name_query}%"']. *)
Definition search_where (name_query : str) : str :=
  lit "name LIKE " ++ [DQUOTE] ++ lit "%" ++ name_query ++ lit "%" ++ [DQUOTE].

(** The [params] dict of [query_items]. *)
Definition search_params (name_query : str) (lim : Z) : params :=
  {| tables := lit "items"; fields := lit "name,rarity,class,inventory_icon";
     where_clause := search_where name_query;
     order_by := Some (lit "drop_enabled DESC, name");
     limit := Some lim |}.

(** The first statements of [query_items], none of them guarded:
    [response = await client.get(...)], [response.raise_for_status()],
    [data = response.json()].  The value bound to [data], unless one of
    them raises. *)
Definition search_envelope (name_query : str) (lim : Z) (w : World)
    : outcome envelope * World :=
  match client_get (search_params name_query lim) w with
  | (GetRaises, w1) => (Raises, w1)
  | (Response false _, w1) => (Raises, w1)
  | (Response true None, w1) => (Raises, w1)
  | (Response true (Some data), w1) => (Returns data, w1)
  end.

Definition query_items (name_query : str) (lim : Z)
    (detailed include_mods : bool) (w : World) : outcome (list Item) * World :=
  match search_envelope name_query lim w with
  | (Raises, w1) => (Raises, w1)
  | (Returns data, w1) =>
      if bool_decide (is_Some (error data)) then (Returns [], w1)
      else
        let raw_results := get_cargoquery data in
        let icon_files : gset str := list_to_set (omap icon_of raw_results) in
        let '(image_urls, w2) :=
          if bool_decide (icon_files = ∅) then (∅, w1)
          else get_image_urls icon_files w1 in
        let '(items, w3) :=
          build_items raw_results image_urls detailed include_mods w2 in
        (Returns items, w3)
  end.

(** *** get_item_details *)

(** [for item in results: if test(item): target_item = item; break]. *)
Fixpoint first_match (test : Item -> bool) (results : list Item)
    : option Item :=
  match results with
  | [] => None
  | it :: rest => if test it then Some it else first_match test rest
  end.

Definition exact_match (query : str) (it : Item) : bool :=
  bool_decide (lower (name it) = lower query).

Definition substring_match (query : str) (it : Item) : bool :=
  contains (lower query) (lower (name it)).

Definition best_match (query : str) (results : list Item) : option Item :=
  match first_match (exact_match query) results with
  | Some it => Some it
  | None => first_match (substring_match query) results
  end.

Definition get_item_details (query : str) (include_mods : bool) (w : World)
    : outcome (option Item) * World :=
  match query_items query 10 false true w with
  | (Raises, w1) => (Raises, w1)
  | (Returns results, w1) =>
      match results with
      | [] => (Returns None, w1)
      | _ :: _ =>
          match best_match query results with
          | Some target_item =>
              let '(it, w2) :=
                populate_item_details target_item include_mods w1 in
              (Returns (Some it), w2)
          | None => (Returns None, w1)
          end
      end
  end.

End Resolver.

End Api.

(** ** bot.py: presentation *)

Module Bot.
Import Api.

(** [html.escape(s)] with [quote=True]. *)
Definition html_escape (s : str) : str :=
  flat_map
    (fun c =>
       if (c =? AMP)%N then lit "&amp;"
       else if (c =? LT)%N then lit "&lt;"
       else if (c =? GT)%N then lit "&gt;"
       else if (c =? DQUOTE)%N then lit "&quot;"
       else if (c =? QUOTE)%N then lit "&#x27;"
       else [c]) s.

(** [s.endswith(p)]. *)
Definition endswith (p s : str) : bool := startswith (rev p) (rev s).

(** [format_map]: key to the text before and after the [{}] of its format
    string, in the order of the dict literal. *)
Definition format_map : list (str * (str * str)) :=
  [ (lit "critical_strike_chance_range_text",
     (lit "Critical Strike Chance: ", []));
    (lit "critical_strike_chance", (lit "Critical Strike Chance: ", lit "%"));
    (lit "attack_speed_range_text", (lit "Attacks per Second: ", []));
    (lit "attack_speed", (lit "Attacks per Second: ", []));
    (lit "weapon_range_range_text", (lit "Weapon Range: ", []));
    (lit "weapon_range", (lit "Weapon Range: ", []));
    (lit "armour_range_text", (lit "Armour: ", []));
    (lit "armour", (lit "Armour: ", []));
    (lit "evasion_range_text", (lit "Evasion Rating: ", []));
    (lit "evasion", (lit "Evasion Rating: ", []));
    (lit "energy_shield_range_text", (lit "Energy Shield: ", []));
    (lit "energy_shield", (lit "Energy Shield: ", []));
    (lit "ward_range_text", (lit "Ward: ", []));
    (lit "ward", (lit "Ward: ", []));
    (lit "map_tier", (lit "Map Tier: ", []));
    (lit "gem_tags", (lit "Tags: ", []));
    (lit "primary_attribute", (lit "Primary Attribute: ", [])) ].

Section Presentation.

(** [str.title]. *)
Variable title_case : str -> str.

(** [f"{float(val):.2f}"]; [None] when [float(val)] raises. *)
Variable float_2f : str -> option str.

(** The closure variable [wiki_url] of [format_content]. *)
Variable wiki_url : str.

(** The [if / elif / elif] on physical damage: the line appended to [stats]
    (if any) and [display_stats] after the pops. *)
Definition physical_damage (display_stats : list (str * str))
    : list str * list (str * str) :=
  match dict_get (lit "physical_damage_range_text") display_stats with
  | Some rt =>
      ([lit "Physical Damage: " ++ rt],
       dict_del (lit "physical_damage_max")
         (dict_del (lit "physical_damage_min")
            (dict_del (lit "physical_damage_range_text") display_stats)))
  | None =>
      match dict_get (lit "physical_damage_min") display_stats,
            dict_get (lit "physical_damage_max") display_stats with
      | Some mn, Some mx =>
          ([lit "Physical Damage: " ++ mn ++ lit "-" ++ mx],
           dict_del (lit "physical_damage_max")
             (dict_del (lit "physical_damage_min") display_stats))
      | _, _ =>
          match dict_get (lit "physical_damage") display_stats with
          | Some pd =>
              ([lit "Physical Damage: " ++ pd],
               dict_del (lit "physical_damage") display_stats)
          | None => ([], display_stats)
          end
      end
  end.

(** The loop [for key, fmt in format_map.items()]. *)
Fixpoint formatted_stats (fm : list (str * (str * str)))
    (lines : list str) (display_stats : list (str * str))
    : list str * list (str * str) :=
  match fm with
  | [] => (lines, display_stats)
  | (key, (before, after)) :: rest =>
      match dict_get key display_stats with
      | Some val =>
          let ds1 := dict_del key display_stats in
          let base_key := replace (lit "_range_text") [] key in
          let ds2 :=
            if contains (lit "_range_text") key then
              dict_del (base_key ++ lit "_max")
                (dict_del (base_key ++ lit "_min") (dict_del base_key ds1))
            else ds1 in
          let val1 :=
            if bool_decide (key = lit "critical_strike_chance")
               && negb (endswith (lit "_range_text") key)
            then default val (float_2f val)
            else val in
          formatted_stats rest
            (lines ++ [before ++ html_escape val1 ++ after]) ds2
      | None => formatted_stats rest lines display_stats
      end
  end.

(** The loop [for key, val in display_stats.items()] over what is left. *)
Fixpoint remaining_stats (display_stats : list (str * str)) : list str :=
  match display_stats with
  | [] => []
  | (key, val) :: rest =>
      if nonempty val && negb (bool_decide (val = lit "0"))
         && negb (startswith (lit "_") key) && negb (contains (lit "html") key)
      then
        let label :=
          title_case
            (replace_char UNDERSCORE (lit " ")
               (replace (lit "_range_text") [] key)) in
        (html_escape label ++ lit ": " ++ html_escape val)
          :: remaining_stats rest
      else remaining_stats rest
  end.

(** The list [stats] of [format_content]: one line per rendered stat. *)
Definition stat_lines (item_obj : Item) : list str :=
  let '(l1, ds1) := physical_damage (stats item_obj) in
  let '(l2, ds2) := formatted_stats format_map l1 ds1 in
  let l3 :=
    if truthy (required_level item_obj)
    then l2 ++ [lit "Requires Level "
                  ++ html_escape (default [] (required_level item_obj))]
    else l2 in
  l3 ++ remaining_stats ds2.

(** A mod block: escaped, with the line-break markers turned into
    newlines. *)
Definition mods_block (mods : str) : str :=
  replace (lit "&lt;br/&gt;") [NEWLINE]
    (replace (lit "&lt;br&gt;") [NEWLINE] (html_escape mods)).

Definition optional_part (o : option str) (render : str -> str) : list str :=
  match o with
  | Some s => if nonempty s then [render s] else []
  | None => []
  end.

Definition format_content (item_obj : Item) (loading_mods : bool) : str :=
  let parts :=
    [ lit "<b><a href=" ++ [DQUOTE] ++ html_escape wiki_url ++ [DQUOTE]
        ++ lit ">" ++ html_escape (name item_obj) ++ lit "</a></b>";
      lit "<i>" ++ html_escape (item_class item_obj) ++ lit "</i>" ]
    ++ (let lines := stat_lines item_obj in
        match lines with
        | [] => []
        | _ :: _ => [join [NEWLINE] lines]
        end)
    ++ optional_part (implicit_mods item_obj) mods_block
    ++ optional_part (explicit_mods item_obj) mods_block
    ++ (if loading_mods then [lit "<b><i>Loading mods...</i></b>"] else [])
    ++ optional_part (description item_obj) html_escape
    ++ optional_part (flavour_text item_obj)
         (fun s => lit "<i>" ++ html_escape s ++ lit "</i>") in
  let image_part :=
    match image_url item_obj with
    | Some u =>
        if nonempty u
        then lit "<a href=" ++ [DQUOTE] ++ html_escape u ++ [DQUOTE]
               ++ lit ">&#8205;</a>"
        else []
    | None => []
    end in
  image_part ++ join [NEWLINE; NEWLINE] parts.

(** [if len(content) > 4000: content = content[:4000] + "..."], as both
    phases of [resolve_item_details] do before the message is edited. *)
Definition truncate (content : str) : str :=
  if (4000 <? length content)%nat then take 4000 content ++ lit "..."
  else content.

(** The text handed to [edit_message_text] in either phase. *)
Definition delivered_content (item_obj : Item) (loading_mods : bool) : str :=
  truncate (format_content item_obj loading_mods).

End Presentation.

End Bot.

(** ** Vocabulary of the properties *)

(** [s] contains a match of [\(\d+-\d+\)], a bracketed numeric range. *)
Fixpoint has_range (unicode_Nd : char -> bool) (s : str) : bool :=
  match s with
  | [] => false
  | _ :: s' =>
      bool_decide (is_Some (match_range unicode_Nd s))
      || has_range unicode_Nd s'
  end.

(** Every opening parenthesis of [s] starts a bracketed numeric range. *)
Fixpoint parens_open_ranges (unicode_Nd : char -> bool) (s : str) : bool :=
  match s with
  | [] => true
  | c :: s' =>
      (if (c =? LPAREN)%N
       then bool_decide (is_Some (match_range unicode_Nd s)) else true)
      && parens_open_ranges unicode_Nd s'
  end.

(** A value that re.sub takes literally and that brings no placeholder
    syntax of its own: non-empty, without backslash, [#] or [(]. *)
Definition plain_value (v : str) : bool :=
  nonempty v
  && forallb
       (fun c => negb (c =? BACKSLASH)%N && negb (c =? HASH)%N
                 && negb (c =? LPAREN)%N) v.

(** The stat keys that [format_content] formats by name: the physical
    damage keys and the keys of [format_map]. *)
Definition dedicated_keys : list str :=
  [lit "physical_damage_range_text"; lit "physical_damage_min";
   lit "physical_damage_max"; lit "physical_damage"]
  ++ map fst Bot.format_map.

(** A primary value is either absent or a non-empty string. *)
Definition settled (o : option str) : Prop := o = None \/ truthy o = true.

(** The merge rule for one side: the primary value when there is one,
    else the fallback list joined by ["<br>"] when it is not empty. *)
Definition merged_side (primary : option str) (fallback : list str)
    : option str :=
  match primary with
  | Some v => Some v
  | None =>
      match fallback with
      | [] => None
      | _ :: _ => Some (join (lit "<br>") fallback)
      end
  end.

(** *** A scripted remote, to run the resolver on examples *)

(** [str.lower] on ASCII letters. *)
Definition ascii_lower (s : str) : str :=
  map (fun c => if (65 <=? c)%N && (c <=? 90)%N then (c + 32)%N else c) s.

(** A world that answers the successive requests from a script, and raises
    once the script is exhausted. *)
Definition scripted_get (p : Api.params) (w : list Api.http_result)
    : Api.http_result * list Api.http_result :=
  match w with
  | [] => (Api.GetRaises, [])
  | r :: w' => (r, w')
  end.

Definition no_images (icons : gset str) (w : list Api.http_result)
    : gmap str str * list Api.http_result := (∅, w).

Definition ascii_only : char -> bool := fun _ => false.

Definition reject_escapes : str -> option (str -> str) := fun _ => None.

(** A 2xx answer carrying the given rows. *)
Definition rows_response (rows : list (gmap str str)) : Api.http_result :=
  Api.Response true
    (Some {| Api.error := None; Api.cargoquery := Some rows |}).

(** A result row from literal field names and values. *)
Definition row (l : list (string * string)) : gmap str str :=
  list_to_map (map (fun kv => (lit kv.1, lit kv.2)) l).

(** A small catalog for the examples. *)
Definition weapons_catalog : gmap str (list str) :=
  {[ lit "weapons" :=
       [lit "name"; lit "attack_speed"; lit "physical_damage_min";
        lit "Damage_Colour"; lit "weapon range"] ]}.

(** A search hit as [query_items] builds it, before any enrichment. *)
Definition search_hit (item_name item_rarity item_cls : string) : Api.Item :=
  {| Api.name := lit item_name; Api.rarity := lit item_rarity;
     Api.item_class := lit item_cls;
     Api.required_level := None; Api.flavour_text := None;
     Api.description := None; Api.implicit_mods := None;
     Api.explicit_mods := None; Api.image_url := None; Api.stats := [] |}.

(** A 2xx answer whose envelope carries an ["error"] key. *)
Definition error_response : Api.http_result :=
  Api.Response true
    (Some {| Api.error := Some (lit "MWException"); Api.cargoquery := None |}).

(** The three places a fallback mod can end up in. *)
Inductive bucket :=
| Implicit
| Explicit
| Neither.

Definition bucket_eqb (a b : bucket) : bool :=
  match a, b with
  | Implicit, Implicit => true
  | Explicit, Explicit => true
  | Neither, Neither => true
  | _, _ => false
  end.

(** The bucket of a mod, from its (is_implicit, is_explicit) flags: implicit
    wins when both are set. *)
Definition bucket_of (flags : bool * bool) : bucket :=
  if flags.1 then Implicit else if flags.2 then Explicit else Neither.

Section Buckets.

Variable unicode_Nd : char -> bool.
Variable expand_template : str -> option (str -> str).

(** The rendered texts of the mods of [mods] whose bucket is [b], in
    order. *)
Definition texts_in (b : bucket) (mod_info_map : list (str * (bool * bool)))
    (item_stats_map : list (option str * list (gmap str str)))
    (mods : list (str * str)) : list str :=
  omap
    (fun m : str * str =>
       match dict_get m.1 mod_info_map with
       | Some flags =>
           if bucket_eqb (bucket_of flags) b
           then Api.render_mod unicode_Nd expand_template item_stats_map m.1 m.2
           else None
       | None => None
       end) mods.

(** A mod whose processing raises: its template cannot be rendered, or its
    id has no entry in [mod_info_map]. *)
Definition mod_raises (mod_info_map : list (str * (bool * bool)))
    (item_stats_map : list (option str * list (gmap str str)))
    (m : str * str) : bool :=
  match Api.render_mod unicode_Nd expand_template item_stats_map m.1 m.2,
        dict_get m.1 mod_info_map with
  | Some _, Some _ => false
  | _, _ => true
  end.

End Buckets.

(** [str.title] and the two-decimal float format are parameters of the
    presentation; the examples below instantiate them with stand-ins. *)
Definition title_stub : str -> str := fun s => s.

Definition float_stub : str -> option str := fun _ => None.

(** A catalog with the armour table. *)
Definition armours_catalog : gmap str (list str) :=
  {[ lit "armours" := [lit "armour"; lit "evasion"; lit "energy_shield"] ]}.

(** The remote answers for an evasion body armour: the search hit, no
    metadata row, and a supplementary row whose armour is ["0"]. *)
Definition evasion_armour_script : list Api.http_result :=
  [ rows_response [row [("name", "Assassin's Garb"); ("rarity", "Normal");
                        ("class", "Body Armour")]];
    rows_response [];
    rows_response [row [("armour", "0"); ("evasion", "737")]] ].

Definition evasion_armour : Api.Item :=
  Api.set_stats (search_hit "Assassin's Garb" "Normal" "Body Armour")
    [(lit "armour", lit "0"); (lit "evasion", lit "737")].

(** A stat value that the spec asks to be omitted. *)
Definition blank_or_zero (v : str) : Prop := v = [] \/ v = lit "0".

(** An observation whose bounds re.sub takes literally. *)
Definition literal_bounds (stat : gmap str str) : Prop :=
  (BACKSLASH ∉ default [] (stat !! lit "min")) /\
  (BACKSLASH ∉ default [] (stat !! lit "max")).

(** The remote answers of the fallback path for one implicit mod whose
    template has a [#] inside parentheses, observed with min = max = 5. *)
Definition hash_in_parens_script : list Api.http_result :=
  [ rows_response [row [("id", "m1"); ("is implicit", "1");
                        ("is explicit", "0")]];
    rows_response [row [("id", "m1");
                        ("stat text", "(#-3)% increased Damage")]];
    rows_response [row [("mod id", "m1"); ("min", "5"); ("max", "5")]] ].

(** The remote answers for an item whose items table gives the implicit
    text only: two primary queries for the implicit side (the first
    answers), two for the explicit side (both empty), then the three
    fallback queries with one mod flagged implicit and explicit, two flagged
    explicit only and one flagged neither. *)
Definition mixed_mods_script : list Api.http_result :=
  [ rows_response [row [("implicit_mods", "+25% to Fire Resistance")]];
    rows_response [];
    rows_response [];
    rows_response
      [row [("id", "m1"); ("is implicit", "1"); ("is explicit", "1")];
       row [("id", "m2"); ("is implicit", "0"); ("is explicit", "1")];
       row [("id", "m3"); ("is implicit", "0"); ("is explicit", "1")];
       row [("id", "m4"); ("is implicit", "0"); ("is explicit", "0")]];
    rows_response
      [row [("id", "m1"); ("stat text", "Both flags")];
       row [("id", "m2"); ("stat text", "(10-20)% increased Damage")];
       row [("id", "m3"); ("stat text", "Adds # to [[Fire|fire]]")];
       row [("id", "m4"); ("stat text", "No flag")]];
    rows_response [row [("mod id", "m2"); ("min", "12"); ("max", "18")];
                   row [("mod id", "m3"); ("min", "7"); ("max", "7")]] ].

(** ** api.py: image lookup *)

Module Images.

(** One value of [data["query"]["pages"]]: [page.get("title")] and, for
    each element of [page.get("imageinfo", [])], its [.get("url")]. *)
Record page := {
  page_title : option str;
  imageinfo : list (option str)
}.

(** [await client.get(...)], [response.raise_for_status()] and
    [response.json()] of one batch; the body is the list of pages, in the
    order of the JSON object (empty when ["query"] or ["pages"] is
    missing). *)
Inductive image_result :=
| ImageRaises
| ImageResponse (status_ok : bool) (json : option (list page)).

(** [range(0, n, 50)]. *)
Definition batch_starts (n : nat) : list nat :=
  map (fun k => 50 * k) (seq 0 ((n + 49) / 50)).

(** The chunks [file_names[i:i+50]] for [i] in [range(0, len, 50)]. *)
Definition batches (file_names : list str) : list (list str) :=
  map (fun i => take 50 (drop i file_names))
    (batch_starts (length file_names)).

(** [for page_id in pages: ... results[title] = url]. *)
Fixpoint store_pages (pages : list page) (results : gmap str (option str))
    : gmap str (option str) :=
  match pages with
  | [] => results
  | pg :: rest =>
      store_pages rest
        (match imageinfo pg, page_title pg with
         | url :: _, Some title =>
             if nonempty title then <[title := url]> results else results
         | _, _ => results
         end)
  end.

Section Lookup.

Context {World : Type}.

(** The image query for the titles [titles] (the chunk joined by [|]). *)
Variable image_get : str -> World -> image_result * World.

(** The loop over the chunks; a failing batch is logged and skipped. *)
Fixpoint fetch_batches (chunks : list (list str))
    (results : gmap str (option str)) (w : World)
    : gmap str (option str) * World :=
  match chunks with
  | [] => (results, w)
  | chunk :: rest =>
      match image_get (join (lit "|") chunk) w with
      | (ImageResponse true (Some pages), w1) =>
          fetch_batches rest (store_pages pages results) w1
      | (_, w1) => fetch_batches rest results w1
      end
  end.

Definition get_image_urls (file_names : list str) (w : World)
    : gmap str (option str) * World :=
  match file_names with
  | [] => (∅, w)
  | _ :: _ => fetch_batches (batches file_names) ∅ w
  end.

(** [urls.get(file_name)]. *)
Definition get_image_url (file_name : str) (w : World)
    : option str * World :=
  let '(urls, w1) := get_image_urls [file_name] w in
  (match urls !! file_name with
   | Some url => url
   | None => None
   end, w1).

End Lookup.

End Images.

(** ** bot.py: the handlers' bookkeeping *)

Module Handlers.

(** [s.split(sep)] for a one-character [sep]. *)
Fixpoint split (sep : char) (s : str) : list str :=
  match s with
  | [] => [[]]
  | c :: s' =>
      if (c =? sep)%N then [] :: split sep s'
      else
        match split sep s' with
        | piece :: pieces => (c :: piece) :: pieces
        | [] => [[c]]
        end
  end.

(** [s.lstrip(chars)]. *)
Fixpoint lstrip (chars : list char) (s : str) : str :=
  match s with
  | [] => []
  | c :: s' => if bool_decide (c ∈ chars) then lstrip chars s' else s
  end.

(** [s.strip(chars)]. *)
Definition strip (chars : list char) (s : str) : str :=
  rev (lstrip chars (rev (lstrip chars s))).

(** U+200D, the zero-width joiner of the hidden image link. *)
Definition ZWJ : char := 8205%N.

(** The key [(item.name, item.item_class, item.rarity)]. *)
Definition item_key (it : Api.Item) : str * str * str :=
  (Api.name it, Api.item_class it, Api.rarity it).

(** The deduplication loop of [inline_query]. *)
Fixpoint unique_loop (results : list Api.Item)
    (seen_items : gset (str * str * str)) (unique_results : list Api.Item)
    : list Api.Item :=
  match results with
  | [] => unique_results
  | it :: rest =>
      if bool_decide (item_key it ∈ seen_items)
      then unique_loop rest seen_items unique_results
      else unique_loop rest ({[item_key it]} ∪ seen_items)
             (unique_results ++ [it])
  end.

Definition unique_results (results : list Api.Item) : list Api.Item :=
  unique_loop results ∅ [].

(** [result_id = f"{name}|{uuid.uuid4().hex[:8]}"]. *)
Definition result_id (item_name uuid8 : str) : str :=
  item_name ++ lit "|" ++ uuid8.

(** [callback_data=f"resolve|{name}"]. *)
Definition callback_data (item_name : str) : str :=
  lit "resolve|" ++ item_name.

(** [on_chosen_inline_result]:
    [result_id.split('|')[0] if '|' in result_id else result_id]. *)
Definition chosen_item_name (rid : str) : str :=
  if contains (lit "|") rid
  then match split PIPE rid with
       | first :: _ => first
       | [] => rid
       end
  else rid.

(** What a handler does with an update. *)
Inductive dispatch :=
| Ignored
| Resolve (item_name : str)
| IndexError.

(** [on_callback_query]: nothing unless [query.data] starts with
    ["resolve|"]; then [query.data.split("|")[1]]. *)
Definition on_callback_query (data : option str) : dispatch :=
  match data with
  | Some d =>
      if negb (nonempty d) || negb (startswith (lit "resolve|") d)
      then Ignored
      else match split PIPE d with
           | _ :: item_name :: _ => Resolve item_name
           | _ => IndexError
           end
  | None => Ignored
  end.

(** [on_message], once the message is known to come via this bot: the
    first line, stripped of spaces and zero-width joiners, when the text
    holds the loading marker. *)
Definition on_message (text : option str) : dispatch :=
  match text with
  | Some t =>
      if nonempty t && contains (lit "Loading full details...") t
      then match split NEWLINE t with
           | first :: _ => Resolve (strip [SPACE; ZWJ] first)
           | [] => IndexError
           end
      else Ignored
  | None => Ignored
  end.

End Handlers.

(** ** Vocabulary of the further properties *)

(** The stats of a record as [populate_item_details] keeps them: distinct
    keys without spaces, non-empty values. *)
Definition stats_wf (st : list (str * str)) : Prop :=
  NoDup (dict_keys st) /\
  Forall (fun kv => (SPACE ∉ kv.1) /\ kv.2 <> []) st.

(** Free of the two characters that open and close a tag. *)
Definition markup_free (s : str) : Prop := (LT ∉ s) /\ (GT ∉ s).

(** The keys [format_content] pops when it formats [key] by name. *)
Definition popped_with (key : str) : list str :=
  if contains (lit "_range_text") key then
    let base_key := replace (lit "_range_text") [] key in
    [key; base_key; base_key ++ lit "_min"; base_key ++ lit "_max"]
  else [key].

(** In the format table [fm], the entry of [range_key] comes before the
    entry of [raw_key] (if there is one) and before any entry that pops
    [range_key], and itself pops [raw_key]. *)
Fixpoint prefers (fm : list (str * (str * str))) (range_key raw_key : str)
    : bool :=
  match fm with
  | [] => false
  | (key, _) :: rest =>
      if bool_decide (key = range_key)
      then bool_decide (raw_key ∈ popped_with range_key)
           && negb (bool_decide (raw_key = range_key))
      else negb (bool_decide (key = raw_key))
           && negb (bool_decide (range_key ∈ popped_with key))
           && prefers rest range_key raw_key
  end.

(** The remote answers for the query [starforge]: a replica first, the
    exact name second; then nothing more. *)
Definition two_hits_script : list Api.http_result :=
  [ rows_response
      [row [("name", "Replica Starforge"); ("rarity", "Unique");
            ("class", "Two-Handed Sword")];
       row [("name", "Starforge"); ("rarity", "Unique");
            ("class", "Two-Handed Sword")]] ].

(** An image remote that always raises. *)
Definition images_down (titles : str) (w : nat)
    : Images.image_result * nat := (Images.ImageRaises, S w).

(** A template that step 2 of the fallback path may keep. *)
Definition visible_template (kv : str * str) : Prop :=
  kv.1 <> [] /\ kv.2 <> [] /\ contains (lit "(Hidden)") kv.2 = false.

(** A row of the [mods] table that step 2 of the fallback path skips: no
    template, an empty one, or one that contains ["(Hidden)"]. *)
Definition skipped_row (m_title : gmap str str) : Prop :=
  match m_title !! lit "stat text" with
  | Some m_text => m_text = [] \/ contains (lit "(Hidden)") m_text = true
  | None => True
  end.

(** The rows an answer yields through [.get("cargoquery", [])]; none when
    the call raised or the body did not parse. *)
Definition rows_of (r : Api.http_result) : list (gmap str str) :=
  match r with
  | Api.Response _ (Some data) => Api.get_cargoquery data
  | _ => []
  end.

(** The first query of the fallback path. *)
Definition item_mods_params (item_name : str) : Api.params :=
  Api.cargo (lit "item_mods") (lit "id,is_implicit,is_explicit")
    (lit "_pageName='" ++ Api.escape_quotes item_name ++ lit "'").

(** A bracketed range [(d1-d2)] as it is written in a template. *)
Definition range_text (d1 d2 : str) : str :=
  lit "(" ++ d1 ++ lit "-" ++ d2 ++ lit ")".

(** A non-empty run of decimal digits. *)
Definition digits (unicode_Nd : char -> bool) (d : str) : bool :=
  nonempty d && forallb (is_decimal unicode_Nd) d.

(** A bound that re.sub takes literally and that the link clean-up leaves
    alone: non-empty, without backslash or [[]. *)
Definition literal_bound (v : str) : bool :=
  nonempty v
  && forallb (fun c => negb (c =? BACKSLASH)%N && negb (c =? LBRACKET)%N) v.

(** Text around a placeholder: without [(] and [[]. *)
Definition plain_text (s : str) : bool :=
  forallb (fun c => negb (c =? LPAREN)%N && negb (c =? LBRACKET)%N) s.

(** The record [query_items] builds from one row, before any enrichment. *)
Definition bare_item (image_urls : gmap str str) (item_data : gmap str str)
    : Api.Item :=
  {| Api.name := or_default (item_data !! lit "name") (lit "Unknown");
     Api.rarity := or_default (item_data !! lit "rarity") (lit "Unknown");
     Api.item_class := or_default (item_data !! lit "class") (lit "Unknown");
     Api.required_level := None; Api.flavour_text := None;
     Api.description := None;
     Api.implicit_mods := None; Api.explicit_mods := None;
     Api.image_url :=
       match item_data !! lit "inventory icon" with
       | Some icon => image_urls !! icon
       | None => None
       end;
     Api.stats := [] |}.

(** A metadata field after a fetch: what it was, or a non-empty value. *)
Definition kept_or_filled (before after : option str) : Prop :=
  after = before \/ truthy after = true.

(** ** Vocabulary of the rendering properties *)

(** The four stats the physical-damage branch of [format_content] reads. *)
Definition physical_keys : list str :=
  [lit "physical_damage_range_text"; lit "physical_damage_min";
   lit "physical_damage_max"; lit "physical_damage"].

(** Text that [html.escape] leaves as it is. *)
Definition html_plain (s : str) : Prop :=
  Forall (fun c => c ∉ [AMP; LT; GT; DQUOTE; QUOTE]) s.

(** The record without the stat [key]. *)
Definition without_stat (key : str) (item_obj : Api.Item) : Api.Item :=
  Api.set_stats item_obj (dict_del key (Api.stats item_obj)).

(** A body armour with a rolled armour range and its base value. *)
Definition ranged_armour : Api.Item :=
  Api.set_stats (search_hit "Kaom's Heart" "Unique" "Body Armour")
    [(lit "armour", lit "553"); (lit "armour_range_text", lit "(553-794)");
     (lit "armour_max", lit "794")].

(** A sword with a rolled damage range, its bounds, and a value that
    carries markup. *)
Definition ranged_sword : Api.Item :=
  Api.set_stats (search_hit "Starforge" "Unique" "Two-Handed Sword")
    [(lit "physical_damage_min", lit "425");
     (lit "physical_damage_range_text", lit "(425-500) to (900-1000)");
     (lit "attack_speed", lit "<1.2>")].

(** An image lookup that resolves every icon to a URL under one host. *)
Definition icon_cdn (icons : gset str) (w : list Api.http_result)
    : gmap str str * list Api.http_result :=
  (list_to_map
     (map (fun f => (f, lit "https://cdn.poewiki.net/" ++ f)) (elements icons)),
   w).

(** A search answer with one hit that names its inventory icon. *)
Definition icon_hit_rows : list (gmap str str) :=
  [ row [("name", "Starforge"); ("rarity", "Unique");
         ("class", "Two-Handed Sword");
         ("inventory icon", "File:Starforge inventory icon.png")] ].

(** * Properties *)

(** ** Field catalog *)

(** C8. [validate_field] accepts every field when the catalog failed to
    load: a missing or unreadable mapping file leaves the mapping empty, and
    the empty mapping validates everything.  Otherwise a field is valid
    exactly when it, or its space-to-underscore variant, is in the field list
    of the table. *)
Theorem validate_field_spec (m : gmap str (list str)) (table field : str) :
  Models.validate_field (Models.load_cargo_mapping Models.FileMissing)
    table field = true /\
  Models.validate_field (Models.load_cargo_mapping Models.FileUnreadable)
    table field = true /\
  (Models.validate_field m table field = true <->
   m = ∅ \/
   field ∈ Models.get_fields_for_table m table \/
   replace_char SPACE (lit "_") field ∈ Models.get_fields_for_table m table).
Proof.
  split; [reflexivity | split; [reflexivity |]].
  unfold Models.validate_field, Models.get_fields_for_table.
  destruct (decide (m = ∅)) as [He | Hne].
  - rewrite bool_decide_eq_true_2 by exact He. tauto.
  - rewrite bool_decide_eq_false_2 by exact Hne.
    rewrite orb_true_iff, !bool_decide_eq_true. tauto.
Qed.

(** ** Message-size cap *)

(** C6. A body longer than 4000 characters is delivered as its first 4000
    characters followed by ["..."]: 4003 characters, below the 4096
    ceiling. *)
Theorem truncate_over_budget (content : str) :
  4000 < length content ->
  Bot.truncate content = take 4000 content ++ lit "..." /\
  length (Bot.truncate content) = 4003 /\
  length (Bot.truncate content) <= 4096.
Proof.
  intros Hlen. unfold Bot.truncate.
  assert (Hb : (4000 <? length content) = true) by (apply Nat.ltb_lt; lia).
  rewrite Hb.
  assert (Hl : length (take 4000 content ++ lit "...") = 4003).
  { rewrite length_app, length_take. change (length (lit "...")) with 3. lia. }
  rewrite Hl. split; [reflexivity | split; [reflexivity | lia]].
Qed.

Lemma truncate_over_budget_witness :
  Bot.truncate (repeat 65%N 4001) = take 4000 (repeat 65%N 4001) ++ lit "..." /\
  length (Bot.truncate (repeat 65%N 4001)) = 4003 /\
  length (Bot.truncate (repeat 65%N 4001)) <= 4096.
Proof.
  apply (truncate_over_budget (repeat 65%N 4001)).
  rewrite repeat_length. lia.
Defined.

(** ** Supplementary fields *)

Section SupplementaryFields.

Variable CARGO_MAPPING : gmap str (list str).
Variable lower : str -> str.

Lemma select_valid_fields_elem (table : str) (all_fields : list str) (f : str) :
  (f ∈ Api.select_valid_fields CARGO_MAPPING lower table all_fields) <->
  ((f ∈ all_fields) /\
   (f ∉ Api.identity_fields) /\
   existsb (fun sub => contains sub (lower f)) Api.excluded_patterns = false /\
   Models.validate_field CARGO_MAPPING table f = true).
Proof.
  induction all_fields as [| g rest IH]; cbn [Api.select_valid_fields].
  - split; [intros H | intros [H _]]; inversion H.
  - assert (Hskip :
      (g ∈ Api.identity_fields) \/
      existsb (fun sub => contains sub (lower g)) Api.excluded_patterns
        = true \/
      Models.validate_field CARGO_MAPPING table g = false ->
      (f ∈ Api.select_valid_fields CARGO_MAPPING lower table rest) <->
      ((f ∈ g :: rest) /\
       (f ∉ Api.identity_fields) /\
       existsb (fun sub => contains sub (lower f)) Api.excluded_patterns
         = false /\
       Models.validate_field CARGO_MAPPING table f = true)).
    { intros Hg. split.
      - intros H. apply IH in H as (Hin & Hrest).
        split; [apply elem_of_cons; right; exact Hin | exact Hrest].
      - intros (Hin & Hn & He & Hv). apply IH.
        apply elem_of_cons in Hin as [-> | Hin]; [| tauto].
        destruct Hg as [Hg | [Hg | Hg]];
          [contradiction | congruence | congruence]. }
    destruct (bool_decide (g ∈ Api.identity_fields)) eqn:Hid.
    { apply bool_decide_eq_true in Hid. apply Hskip. tauto. }
    apply bool_decide_eq_false in Hid.
    destruct (existsb (fun sub => contains sub (lower g)) Api.excluded_patterns)
      eqn:Hpat.
    { apply Hskip. tauto. }
    destruct (Models.validate_field CARGO_MAPPING table g) eqn:Hval.
    + split.
      * intros H. apply elem_of_cons in H as [-> | H].
        -- split; [apply list_elem_of_here | tauto].
        -- apply IH in H as (Hin & Hrest).
           split; [apply elem_of_cons; right; exact Hin | exact Hrest].
      * intros (Hin & Hrest). apply elem_of_cons.
        apply elem_of_cons in Hin as [-> | Hin]; [left; reflexivity |].
        right. apply IH. tauto.
    + apply Hskip. tauto.
Qed.

(** C4. The batched supplementary query asks for the comma-joined
    [valid_fields]; a field is among them only if it comes from the catalog
    of the table, is not an identity field, has none of [_min], [_max],
    [average], [color], [colour] in its lower-cased name, and passes
    [validate_field]. *)
Theorem batched_query_fields (table safe_name : str) (f : str) :
  let valid_fields :=
    Api.select_valid_fields CARGO_MAPPING lower table
      (Models.get_fields_for_table CARGO_MAPPING table) in
  f ∈ valid_fields ->
  Api.fields (Api.sup_params table safe_name valid_fields)
    = join (lit ",") valid_fields /\
  (f ∈ Models.get_fields_for_table CARGO_MAPPING table) /\
  (f ∉ Api.identity_fields) /\
  (forall sub,
     sub ∈ Api.excluded_patterns -> contains sub (lower f) = false) /\
  Models.validate_field CARGO_MAPPING table f = true.
Proof.
  intros valid_fields Hin. subst valid_fields.
  apply select_valid_fields_elem in Hin as (Hall & Hid & Hpat & Hval).
  split; [reflexivity |]. repeat split; try assumption.
  intros sub Hsub.
  destruct (contains sub (lower f)) eqn:Hc; [| reflexivity].
  assert (existsb (fun sub => contains sub (lower f)) Api.excluded_patterns
          = true) as Hex; [| congruence].
  apply existsb_exists. exists sub. split; [| exact Hc].
  apply list_elem_of_In. exact Hsub.
Qed.

End SupplementaryFields.

Lemma batched_query_fields_witness :
  let valid_fields :=
    Api.select_valid_fields weapons_catalog ascii_lower (lit "weapons")
      (Models.get_fields_for_table weapons_catalog (lit "weapons")) in
  Api.fields (Api.sup_params (lit "weapons") (lit "Starforge") valid_fields)
    = join (lit ",") valid_fields /\
  (lit "attack_speed"
     ∈ Models.get_fields_for_table weapons_catalog (lit "weapons")) /\
  (lit "attack_speed" ∉ Api.identity_fields) /\
  (forall sub, sub ∈ Api.excluded_patterns ->
     contains sub (ascii_lower (lit "attack_speed")) = false) /\
  Models.validate_field weapons_catalog (lit "weapons") (lit "attack_speed")
  = true.
Proof.
  apply (batched_query_fields weapons_catalog ascii_lower (lit "weapons")
           (lit "Starforge") (lit "attack_speed")).
  vm_compute. apply list_elem_of_here.
Defined.

(** ** Search and single-item detail fetch *)

Section ResolverProperties.

Context {World : Type}.
Variable client_get : Api.params -> World -> Api.http_result * World.
Variable get_image_urls : gset str -> World -> gmap str str * World.
Variable CARGO_MAPPING : gmap str (list str).
Variable lower : str -> str.
Variable unicode_Nd : char -> bool.
Variable expand_template : str -> option (str -> str).

(** C5. When the envelope [query_items] reads from the search response has
    an ["error"] key, it returns the empty list: nothing is raised and no
    further request is made. *)
Theorem query_items_error_envelope (name_query : str) (lim : Z)
    (detailed include_mods : bool) (w w1 : World) (data : Api.envelope) :
  Api.search_envelope client_get name_query lim w = (Api.Returns data, w1) ->
  is_Some (Api.error data) ->
  Api.query_items client_get get_image_urls CARGO_MAPPING lower unicode_Nd
    expand_template name_query lim detailed include_mods w
  = (Api.Returns [], w1).
Proof.
  intros Hget Herr. unfold Api.query_items. rewrite Hget.
  rewrite bool_decide_eq_true_2 by exact Herr. reflexivity.
Qed.

Lemma first_match_Some (test : Api.Item -> bool) (results : list Api.Item)
    (it : Api.Item) :
  Api.first_match test results = Some it -> it ∈ results /\ test it = true.
Proof.
  induction results as [| x rest IH]; simpl; [discriminate |].
  destruct (test x) eqn:Hx.
  - intros [= <-]. split; [apply list_elem_of_here | exact Hx].
  - intros H. apply IH in H as [Hin Ht].
    split; [apply elem_of_cons; right; exact Hin | exact Ht].
Qed.

Lemma first_match_None (test : Api.Item -> bool) (results : list Api.Item) :
  (forall it, it ∈ results -> test it = false) ->
  Api.first_match test results = None.
Proof.
  induction results as [| x rest IH]; simpl; [reflexivity |].
  intros H. rewrite (H x) by apply list_elem_of_here.
  apply IH. intros it Hin. apply H. apply elem_of_cons. right. exact Hin.
Qed.

Lemma fetch_metadata_name (it : Api.Item) (w : World) :
  Api.name (Api.fetch_metadata client_get it w).1 = Api.name it.
Proof.
  unfold Api.fetch_metadata.
  destruct (client_get _ w) as [[| ok [data |]] w1]; try reflexivity.
  destruct (Api.get_cargoquery data); reflexivity.
Qed.

Lemma fetch_supplementary_name (it : Api.Item) (w : World) :
  Api.name (Api.fetch_supplementary client_get CARGO_MAPPING lower it w).1
    = Api.name it.
Proof.
  unfold Api.fetch_supplementary.
  destruct (Models.get_table_for_class _) as [tbl |]; [| reflexivity].
  destruct (nonempty tbl); [| reflexivity].
  destruct (Api.select_valid_fields _ _ _ _) as [| f fs] eqn:Hsel;
    [reflexivity |].
  destruct (client_get _ w) as [[| ok [data |]] w1].
  - destruct (Api.query_individually _ _ _ _ _ _); reflexivity.
  - destruct (Api.get_cargoquery data); reflexivity.
  - destruct (Api.query_individually _ _ _ _ _ _); reflexivity.
Qed.

Lemma populate_item_details_name (it : Api.Item) (include_mods : bool)
    (w : World) :
  Api.name
    (Api.populate_item_details client_get CARGO_MAPPING lower unicode_Nd
       expand_template it include_mods w).1
  = Api.name it.
Proof.
  unfold Api.populate_item_details.
  destruct include_mods.
  - destruct (Api.resolve_mods _ _ _ _ _ _) as [mods w1].
    destruct (Api.fetch_metadata client_get _ w1) as [it2 w2] eqn:Hm.
    rewrite fetch_supplementary_name.
    change it2 with (it2, w2).1. rewrite <- Hm, fetch_metadata_name.
    reflexivity.
  - destruct (Api.fetch_metadata client_get it w) as [it2 w2] eqn:Hm.
    rewrite fetch_supplementary_name.
    change it2 with (it2, w2).1. rewrite <- Hm, fetch_metadata_name.
    reflexivity.
Qed.

(** C3. When the search returns no record, or none of the returned records
    passes the exact or the substring test, [get_item_details] returns
    [None]; it does not raise and makes no further request. *)
Theorem get_item_details_absent (query : str) (include_mods : bool)
    (w w1 : World) (results : list Api.Item) :
  Api.query_items client_get get_image_urls CARGO_MAPPING lower unicode_Nd
    expand_template query 10 false true w
  = (Api.Returns results, w1) ->
  results = [] \/
  (forall it, it ∈ results ->
     lower (Api.name it) <> lower query /\
     contains (lower query) (lower (Api.name it)) = false) ->
  Api.get_item_details client_get get_image_urls CARGO_MAPPING lower
    unicode_Nd expand_template query include_mods w
  = (Api.Returns None, w1).
Proof.
  intros Hq Hno. unfold Api.get_item_details. rewrite Hq.
  destruct results as [| r rest]; [reflexivity |].
  destruct Hno as [Hnil | Hno]; [discriminate |].
  unfold Api.best_match.
  rewrite first_match_None.
  - rewrite first_match_None; [reflexivity |].
    intros it Hin. apply Hno. exact Hin.
  - intros it Hin. unfold Api.exact_match.
    apply bool_decide_eq_false. apply Hno. exact Hin.
Qed.

(** C10. An item returned by [get_item_details] carries the name of a
    search result that equals the query after lower-casing, or contains the
    lower-cased query; a result passing neither test is never returned. *)
Theorem get_item_details_matches (query : str) (include_mods : bool)
    (w w2 : World) (it : Api.Item) :
  Api.get_item_details client_get get_image_urls CARGO_MAPPING lower
    unicode_Nd expand_template query include_mods w
  = (Api.Returns (Some it), w2) ->
  (exists results w1 found,
     Api.query_items client_get get_image_urls CARGO_MAPPING lower unicode_Nd
       expand_template query 10 false true w
     = (Api.Returns results, w1) /\
     found ∈ results /\ Api.name it = Api.name found) /\
  (lower (Api.name it) = lower query \/
   contains (lower query) (lower (Api.name it)) = true).
Proof.
  unfold Api.get_item_details.
  destruct (Api.query_items client_get get_image_urls CARGO_MAPPING lower
              unicode_Nd expand_template query 10 false true w)
    as [[results |] w1] eqn:Hq;
    [| discriminate].
  destruct results as [| r rest]; [discriminate |].
  destruct (Api.best_match lower query (r :: rest)) as [target |] eqn:Hbest;
    [| discriminate].
  destruct (Api.populate_item_details client_get CARGO_MAPPING lower
              unicode_Nd expand_template target include_mods w1)
    as [it' w'] eqn:Hpop.
  intros [= <- <-].
  assert (Hname : Api.name it' = Api.name target).
  { change it' with (it', w').1. rewrite <- Hpop.
    apply populate_item_details_name. }
  unfold Api.best_match in Hbest.
  destruct (Api.first_match (Api.exact_match lower query) (r :: rest))
    as [x |] eqn:Hexact.
  - injection Hbest as ->.
    apply first_match_Some in Hexact as [Hin Ht].
    split; [exists (r :: rest), w1, target; auto |].
    left. rewrite Hname. unfold Api.exact_match in Ht.
    apply bool_decide_eq_true in Ht. exact Ht.
  - apply first_match_Some in Hbest as [Hin Ht].
    split; [exists (r :: rest), w1, target; auto |].
    right. rewrite Hname. exact Ht.
Qed.

End ResolverProperties.

(** *** The same on the scripted remote *)

Lemma query_items_error_envelope_witness :
  Api.query_items scripted_get no_images ∅ ascii_lower ascii_only
    reject_escapes (lit "Starforge") 10 false true [error_response]
  = (Api.Returns [], []).
Proof.
  apply (query_items_error_envelope scripted_get no_images ∅ ascii_lower
           ascii_only reject_escapes (lit "Starforge") 10 false true
           [error_response] []
           {| Api.error := Some (lit "MWException"); Api.cargoquery := None |}).
  - reflexivity.
  - exists (lit "MWException"). reflexivity.
Defined.

Lemma get_item_details_absent_witness :
  Api.get_item_details scripted_get no_images ∅ ascii_lower ascii_only
    reject_escapes (lit "Starforge") true
    [rows_response [row [("name", "Voidforge"); ("rarity", "Unique");
                         ("class", "Two-Handed Sword")]]]
  = (Api.Returns None, []).
Proof.
  apply (get_item_details_absent scripted_get no_images ∅ ascii_lower
           ascii_only reject_escapes (lit "Starforge") true _ []
           [search_hit "Voidforge" "Unique" "Two-Handed Sword"]).
  - vm_compute. reflexivity.
  - right. intros it Hin. apply list_elem_of_singleton in Hin. subst it.
    split; [vm_compute; discriminate | vm_compute; reflexivity].
Defined.

Lemma get_item_details_matches_witness :
  (exists results w1 found,
     Api.query_items scripted_get no_images ∅ ascii_lower ascii_only
       reject_escapes (lit "starforge") 10 false true
       [rows_response [row [("name", "Replica Starforge"); ("rarity", "Unique");
                            ("class", "Two-Handed Sword")]]]
     = (Api.Returns results, w1) /\
     found ∈ results /\
     Api.name (search_hit "Replica Starforge" "Unique" "Two-Handed Sword")
       = Api.name found) /\
  (ascii_lower
     (Api.name (search_hit "Replica Starforge" "Unique" "Two-Handed Sword"))
   = ascii_lower (lit "starforge") \/
   contains (ascii_lower (lit "starforge"))
     (ascii_lower
        (Api.name (search_hit "Replica Starforge" "Unique" "Two-Handed Sword")))
   = true).
Proof.
  apply (get_item_details_matches scripted_get no_images ∅ ascii_lower
           ascii_only reject_escapes (lit "starforge") false _ []).
  vm_compute. reflexivity.
Defined.

(** ** Mod resolution *)

Section ModResolution.

Context {World : Type}.
Variable client_get : Api.params -> World -> Api.http_result * World.
Variable CARGO_MAPPING : gmap str (list str).
Variable lower : str -> str.
Variable unicode_Nd : char -> bool.
Variable expand_template : str -> option (str -> str).

Lemma py_or_settled (val cur : option str) :
  settled cur -> settled (py_or val cur).
Proof.
  intros Hcur. unfold py_or. destruct (truthy val) eqn:Hv; [| exact Hcur].
  right. exact Hv.
Qed.

Lemma try_spellings_settled (safe_name field_to_check : str)
    (field_names : list str) (mods : option str * option str) (w : World) :
  settled mods.1 -> settled mods.2 ->
  settled (Api.try_spellings client_get safe_name field_to_check field_names
             mods w).1.1 /\
  settled (Api.try_spellings client_get safe_name field_to_check field_names
             mods w).1.2.
Proof.
  revert mods w.
  induction field_names as [| field_name rest IH]; intros mods w H1 H2;
    cbn [Api.try_spellings].
  - split; assumption.
  - destruct (client_get _ w) as [[| ok [data |]] w1];
      try (apply IH; assumption).
    destruct (bool_decide (is_Some (Api.error data))); [apply IH; assumption |].
    destruct (Api.get_cargoquery data) as [| r rows]; [apply IH; assumption |].
    assert (Hi : settled
      (if bool_decide (field_to_check = lit "implicit_mods")
       then py_or (r !! field_name) mods.1 else mods.1)).
    { destruct (bool_decide (field_to_check = lit "implicit_mods"));
        [apply py_or_settled |]; assumption. }
    assert (He : settled
      (if bool_decide (field_to_check = lit "explicit_mods")
       then py_or (r !! field_name) mods.2 else mods.2)).
    { destruct (bool_decide (field_to_check = lit "explicit_mods"));
        [apply py_or_settled |]; assumption. }
    destruct (truthy (r !! field_name)).
    + split; assumption.
    + apply IH; assumption.
Qed.

Lemma primary_mods_settled (safe_name : str) (fields_to_check : list str)
    (mods : option str * option str) (w : World) :
  settled mods.1 -> settled mods.2 ->
  settled
    (Api.primary_mods client_get CARGO_MAPPING safe_name fields_to_check
       mods w).1.1 /\
  settled
    (Api.primary_mods client_get CARGO_MAPPING safe_name fields_to_check
       mods w).1.2.
Proof.
  revert mods w.
  induction fields_to_check as [| f rest IH]; intros mods w H1 H2;
    cbn [Api.primary_mods].
  - split; assumption.
  - destruct (Models.validate_field CARGO_MAPPING (lit "items") f);
      [| apply IH; assumption].
    destruct (Api.try_spellings client_get safe_name f _ mods w)
      as [mods1 w1] eqn:Hts.
    pose proof (try_spellings_settled safe_name f
                  [f; replace_char UNDERSCORE (lit " ") f] mods w H1 H2)
      as [Ha Hb].
    rewrite Hts in Ha, Hb. apply IH; assumption.
Qed.

Lemma fetch_metadata_mods (it : Api.Item) (w : World) :
  Api.implicit_mods (Api.fetch_metadata client_get it w).1
    = Api.implicit_mods it /\
  Api.explicit_mods (Api.fetch_metadata client_get it w).1
    = Api.explicit_mods it.
Proof.
  unfold Api.fetch_metadata.
  destruct (client_get _ w) as [[| ok [data |]] w1]; try (split; reflexivity).
  destruct (Api.get_cargoquery data); split; reflexivity.
Qed.

Lemma fetch_supplementary_mods (it : Api.Item) (w : World) :
  Api.implicit_mods
    (Api.fetch_supplementary client_get CARGO_MAPPING lower it w).1
    = Api.implicit_mods it /\
  Api.explicit_mods
    (Api.fetch_supplementary client_get CARGO_MAPPING lower it w).1
    = Api.explicit_mods it.
Proof.
  unfold Api.fetch_supplementary.
  destruct (Models.get_table_for_class _) as [tbl |]; [| split; reflexivity].
  destruct (nonempty tbl); [| split; reflexivity].
  destruct (Api.select_valid_fields _ _ _ _) as [| f fs];
    [split; reflexivity |].
  destruct (client_get _ w) as [[| ok [data |]] w1].
  - destruct (Api.query_individually _ _ _ _ _ _); split; reflexivity.
  - destruct (Api.get_cargoquery data); split; reflexivity.
  - destruct (Api.query_individually _ _ _ _ _ _); split; reflexivity.
Qed.

(** C1. After [populate_item_details] with mods requested, each of
    [implicit_mods] and [explicit_mods] is the value of the primary path
    when that path found one (then a non-empty string), and otherwise the
    fallback list joined with ["<br>"], or absent when that list is empty. *)
Theorem mods_merge_rule (it : Api.Item) (w : World) :
  let primary :=
    Api.primary_mods client_get CARGO_MAPPING
      (Api.escape_quotes (Api.name it))
      [lit "implicit_mods"; lit "explicit_mods"] (None, None) w in
  let fallback :=
    (Api.get_mods_fallback client_get unicode_Nd expand_template
       (Api.name it) primary.2).1 in
  let resolved :=
    (Api.populate_item_details client_get CARGO_MAPPING lower unicode_Nd
       expand_template it true w).1 in
  settled primary.1.1 /\ settled primary.1.2 /\
  Api.implicit_mods resolved = merged_side primary.1.1 fallback.1 /\
  Api.explicit_mods resolved = merged_side primary.1.2 fallback.2.
Proof.
  intros primary fallback resolved.
  destruct (primary_mods_settled (Api.escape_quotes (Api.name it))
              [lit "implicit_mods"; lit "explicit_mods"] (None, None) w)
    as [Hs1 Hs2]; [left; reflexivity | left; reflexivity |].
  fold primary in Hs1, Hs2.
  split; [exact Hs1 | split; [exact Hs2 |]].
  assert (Hres :
    let mods := (Api.resolve_mods client_get CARGO_MAPPING unicode_Nd
                   expand_template (Api.name it) w).1 in
    mods.1 = merged_side primary.1.1 fallback.1 /\
    mods.2 = merged_side primary.1.2 fallback.2).
  { unfold Api.resolve_mods. subst fallback. fold primary.
    destruct primary as [[p1 p2] w1]. cbn [fst snd] in *.
    destruct Hs1 as [-> | Hp1]; destruct Hs2 as [-> | Hp2].
    - cbn [truthy negb orb].
      destruct (Api.get_mods_fallback client_get unicode_Nd expand_template
                  (Api.name it) w1) as [[fi fe] w2].
      unfold Api.merge_mods. cbn [fst snd truthy negb merged_side].
      rewrite !andb_true_r.
      destruct fi, fe; split; reflexivity.
    - rewrite Hp2. cbn [truthy negb orb].
      destruct (Api.get_mods_fallback client_get unicode_Nd expand_template
                  (Api.name it) w1) as [[fi fe] w2].
      unfold Api.merge_mods. cbn [fst snd truthy negb]. rewrite Hp2.
      cbn [negb]. rewrite andb_true_r, andb_false_r.
      destruct p2 as [v |]; [| discriminate].
      destruct fi; split; reflexivity.
    - rewrite Hp1. cbn [truthy negb orb].
      destruct (Api.get_mods_fallback client_get unicode_Nd expand_template
                  (Api.name it) w1) as [[fi fe] w2].
      unfold Api.merge_mods. cbn [fst snd truthy negb]. rewrite Hp1.
      cbn [negb]. rewrite andb_true_r, andb_false_r.
      destruct p1 as [v |]; [| discriminate].
      destruct fe; split; reflexivity.
    - rewrite Hp1, Hp2. cbn [negb orb fst snd].
      destruct p1 as [v1 |]; [| discriminate].
      destruct p2 as [v2 |]; [| discriminate].
      split; reflexivity. }
  subst resolved. unfold Api.populate_item_details.
  destruct (Api.resolve_mods client_get CARGO_MAPPING unicode_Nd
              expand_template (Api.name it) w) as [mods w1].
  cbn [fst] in Hres. destruct Hres as [Hi He].
  destruct (Api.fetch_metadata client_get (Api.set_mods it mods.1 mods.2) w1)
    as [it2 w2] eqn:Hm.
  destruct (fetch_supplementary_mods it2 w2) as [Hsi Hse].
  destruct (fetch_metadata_mods (Api.set_mods it mods.1 mods.2) w1)
    as [Hmi Hme].
  rewrite Hm in Hmi, Hme. cbn [fst] in Hmi, Hme.
  rewrite Hsi, Hse, Hmi, Hme. cbn [Api.set_mods Api.implicit_mods
    Api.explicit_mods]. split; assumption.
Qed.

End ModResolution.

(** ** Fallback buckets *)

Section FallbackBuckets.

Variable unicode_Nd : char -> bool.
Variable expand_template : str -> option (str -> str).
Variable mod_info_map : list (str * (bool * bool)).
Variable item_stats_map : list (option str * list (gmap str str)).

Lemma texts_in_cons (b : bucket) (mod_id stat_text t : str)
    (flags : bool * bool) (mods : list (str * str)) :
  Api.render_mod unicode_Nd expand_template item_stats_map mod_id stat_text
    = Some t ->
  dict_get mod_id mod_info_map = Some flags ->
  texts_in unicode_Nd expand_template b mod_info_map item_stats_map
    ((mod_id, stat_text) :: mods)
  = (if bucket_eqb (bucket_of flags) b then [t] else [])
    ++ texts_in unicode_Nd expand_template b mod_info_map item_stats_map mods.
Proof.
  intros Hr Hinfo. unfold texts_in. simpl. rewrite Hinfo.
  destruct (bucket_eqb (bucket_of flags) b); [rewrite Hr |]; reflexivity.
Qed.

Lemma assemble_acc (stat_texts : list (str * str))
    (implicits explicits : list str) :
  exists processed rest,
    stat_texts = processed ++ rest /\
    Forall
      (fun m =>
         mod_raises unicode_Nd expand_template mod_info_map item_stats_map m
         = false) processed /\
    match rest with
    | [] => True
    | m :: _ =>
        mod_raises unicode_Nd expand_template mod_info_map item_stats_map m
        = true
    end /\
    Api.assemble unicode_Nd expand_template mod_info_map item_stats_map
      stat_texts implicits explicits
    = (implicits
         ++ texts_in unicode_Nd expand_template Implicit mod_info_map
              item_stats_map processed,
       explicits
         ++ texts_in unicode_Nd expand_template Explicit mod_info_map
              item_stats_map processed).
Proof.
  revert implicits explicits.
  induction stat_texts as [| [mod_id stat_text] more IH];
    intros implicits explicits; cbn [Api.assemble].
  - exists [], []. rewrite !app_nil_r. repeat split. constructor.
  - destruct (Api.render_mod unicode_Nd expand_template item_stats_map
                mod_id stat_text) as [t |] eqn:Hr.
    2: { exists [], ((mod_id, stat_text) :: more). rewrite !app_nil_r.
         repeat split; [constructor |].
         unfold mod_raises. cbn [fst snd]. rewrite Hr. reflexivity. }
    destruct (dict_get mod_id mod_info_map) as [[is_implicit is_explicit] |]
      eqn:Hinfo.
    2: { exists [], ((mod_id, stat_text) :: more). rewrite !app_nil_r.
         repeat split; [constructor |].
         unfold mod_raises. cbn [fst snd]. rewrite Hr, Hinfo.
         reflexivity. }
    assert (Hok :
      mod_raises unicode_Nd expand_template mod_info_map item_stats_map
        (mod_id, stat_text) = false).
    { unfold mod_raises. cbn [fst snd]. rewrite Hr, Hinfo. reflexivity. }
    pose proof (fun b l => texts_in_cons b mod_id stat_text t _ l Hr Hinfo)
      as Hstep.
    destruct is_implicit; [| destruct is_explicit].
    + destruct (IH (implicits ++ [t]) explicits)
        as (processed & rest & -> & Hall & Hrest & Heq).
      exists ((mod_id, stat_text) :: processed), rest.
      repeat split; [constructor; assumption | exact Hrest |].
      rewrite Heq, !Hstep. cbn. rewrite <- app_assoc. reflexivity.
    + destruct (IH implicits (explicits ++ [t]))
        as (processed & rest & -> & Hall & Hrest & Heq).
      exists ((mod_id, stat_text) :: processed), rest.
      repeat split; [constructor; assumption | exact Hrest |].
      rewrite Heq, !Hstep. cbn. rewrite <- app_assoc. reflexivity.
    + destruct (IH implicits explicits)
        as (processed & rest & -> & Hall & Hrest & Heq).
      exists ((mod_id, stat_text) :: processed), rest.
      repeat split; [constructor; assumption | exact Hrest |].
      rewrite Heq, !Hstep. cbn. reflexivity.
Qed.

(** C9. The fallback lists are the rendered texts of the processed mods,
    each mod going to the one bucket its flags select: implicit when
    flagged implicit (also when flagged explicit as well), explicit when
    flagged explicit only, none when flagged neither.  The processed mods
    are all of [stat_texts] up to the first one that raises. *)
Theorem fallback_buckets (stat_texts : list (str * str)) :
  bucket_of (true, true) = Implicit /\
  bucket_of (false, false) = Neither /\
  exists processed rest,
    stat_texts = processed ++ rest /\
    Forall
      (fun m =>
         mod_raises unicode_Nd expand_template mod_info_map item_stats_map m
         = false) processed /\
    match rest with
    | [] => True
    | m :: _ =>
        mod_raises unicode_Nd expand_template mod_info_map item_stats_map m
        = true
    end /\
    Api.assemble unicode_Nd expand_template mod_info_map item_stats_map
      stat_texts [] []
    = (texts_in unicode_Nd expand_template Implicit mod_info_map
         item_stats_map processed,
       texts_in unicode_Nd expand_template Explicit mod_info_map
         item_stats_map processed).
Proof.
  split; [reflexivity | split; [reflexivity |]].
  destruct (assemble_acc stat_texts [] [])
    as (processed & rest & Hsplit & Hall & Hrest & Heq).
  exists processed, rest. repeat split; assumption.
Qed.

End FallbackBuckets.

(** ** Association lists *)

Section DictFacts.

Context {K V : Type} `{EqDecision K}.
Implicit Types (d : list (K * V)) (k : K).

Lemma dict_get_del_ne k k' d :
  k <> k' -> dict_get k' (dict_del k d) = dict_get k' d.
Proof.
  intros Hne. induction d as [| [a v] d IH]; [reflexivity |].
  cbn [dict_del dict_get]. destruct (decide (a = k)) as [-> | Hak].
  - rewrite IH. destruct (decide (k = k')); [contradiction | reflexivity].
  - cbn [dict_get]. rewrite IH. reflexivity.
Qed.

Lemma dict_get_del_eq k d : dict_get k (dict_del k d) = None.
Proof.
  induction d as [| [a v] d IH]; [reflexivity |].
  cbn [dict_del]. destruct (decide (a = k)) as [-> | Hak]; [exact IH |].
  cbn [dict_get]. destruct (decide (a = k)); [contradiction | exact IH].
Qed.

Lemma dict_del_comm k k' d :
  dict_del k (dict_del k' d) = dict_del k' (dict_del k d).
Proof.
  induction d as [| [a v] d IH]; [reflexivity |].
  cbn [dict_del].
  destruct (decide (a = k')) as [Hk' | Hk'], (decide (a = k)) as [Hk | Hk];
    cbn [dict_del];
    repeat match goal with
           | |- context [decide (a = ?x)] => destruct (decide (a = x))
           end; try contradiction; rewrite ?IH; reflexivity.
Qed.

Lemma dict_del_Forall (P : K * V -> Prop) k d :
  Forall P d -> Forall P (dict_del k d).
Proof.
  induction 1 as [| [a v] d Hx Hd IH]; cbn [dict_del]; [constructor |].
  destruct (decide (a = k)); [exact IH | constructor; assumption].
Qed.

Lemma dict_get_unique k v d :
  NoDup (dict_keys d) -> dict_get k d = Some v ->
  Forall (fun kv => kv.1 = k -> kv.2 = v) d.
Proof.
  unfold dict_keys. induction d as [| [a x] d IH]; intros Hnd Hget;
    [constructor |].
  cbn [map fst] in Hnd. apply NoDup_cons in Hnd as [Hnotin Hnd].
  cbn [dict_get] in Hget. destruct (decide (a = k)) as [-> | Hak].
  - injection Hget as ->. constructor; [intros _; reflexivity |].
    apply Forall_forall. intros [b y] Hin Hb. cbn [fst snd] in *. subst b.
    exfalso. apply Hnotin. apply list_elem_of_fmap. exists (k, y).
    split; [reflexivity | exact Hin].
  - constructor; [cbn [fst]; intros ?; contradiction | apply IH; assumption].
Qed.

End DictFacts.

(** ** Stat lines *)

Section StatLines.

Variable title_case : str -> str.
Variable float_2f : str -> option str.
Variable wiki_url : str.

Lemma physical_damage_del (k : str) (d : list (str * str)) :
  k <> lit "physical_damage_range_text" -> k <> lit "physical_damage_min" ->
  k <> lit "physical_damage_max" -> k <> lit "physical_damage" ->
  Bot.physical_damage (dict_del k d)
  = ((Bot.physical_damage d).1, dict_del k (Bot.physical_damage d).2).
Proof.
  intros H1 H2 H3 H4. unfold Bot.physical_damage.
  rewrite !(dict_get_del_ne k) by assumption.
  destruct (dict_get (lit "physical_damage_range_text") d).
  { cbn [fst snd]. f_equal.
    rewrite (dict_del_comm _ k), (dict_del_comm (lit "physical_damage_min") k),
      (dict_del_comm (lit "physical_damage_max") k). reflexivity. }
  destruct (dict_get (lit "physical_damage_min") d),
           (dict_get (lit "physical_damage_max") d);
    try (destruct (dict_get (lit "physical_damage") d); cbn [fst snd];
         f_equal; rewrite ?(dict_del_comm _ k); reflexivity).
Qed.

Lemma physical_damage_Forall (P : str * str -> Prop) (d : list (str * str)) :
  Forall P d -> Forall P (Bot.physical_damage d).2.
Proof.
  intros HP. unfold Bot.physical_damage.
  destruct (dict_get (lit "physical_damage_range_text") d).
  { cbn [snd]. repeat apply dict_del_Forall. exact HP. }
  destruct (dict_get (lit "physical_damage_min") d),
           (dict_get (lit "physical_damage_max") d);
    try (destruct (dict_get (lit "physical_damage") d); cbn [snd];
         repeat apply dict_del_Forall; exact HP).
Qed.

Lemma formatted_stats_del (k : str) (fm : list (str * (str * str)))
    (lines : list str) (d : list (str * str)) :
  k ∉ map fst fm ->
  Bot.formatted_stats float_2f fm lines (dict_del k d)
  = ((Bot.formatted_stats float_2f fm lines d).1,
     dict_del k (Bot.formatted_stats float_2f fm lines d).2).
Proof.
  revert lines d.
  induction fm as [| [key [before after]] fm IH]; intros lines d Hk;
    cbn [Bot.formatted_stats]; [reflexivity |].
  assert (Hne : key <> k).
  { intros ->. apply Hk. cbn [map fst]. apply list_elem_of_here. }
  assert (Hk' : k ∉ map fst fm).
  { intros Hin. apply Hk. cbn [map fst]. apply elem_of_cons. right. exact Hin. }
  rewrite (dict_get_del_ne k key) by congruence.
  destruct (dict_get key d) as [val |]; [| apply IH; exact Hk'].
  destruct (contains (lit "_range_text") key).
  - rewrite (dict_del_comm key k), (dict_del_comm _ k),
      (dict_del_comm (replace (lit "_range_text") [] key ++ lit "_min") k),
      (dict_del_comm (replace (lit "_range_text") [] key ++ lit "_max") k).
    apply IH. exact Hk'.
  - rewrite (dict_del_comm key k). apply IH. exact Hk'.
Qed.

Lemma formatted_stats_Forall (P : str * str -> Prop)
    (fm : list (str * (str * str))) (lines : list str) (d : list (str * str)) :
  Forall P d -> Forall P (Bot.formatted_stats float_2f fm lines d).2.
Proof.
  revert lines d.
  induction fm as [| [key [before after]] fm IH]; intros lines d HP;
    cbn [Bot.formatted_stats]; [exact HP |].
  destruct (dict_get key d) as [val |]; [| apply IH; exact HP].
  apply IH. destruct (contains (lit "_range_text") key);
    repeat apply dict_del_Forall; exact HP.
Qed.

Lemma remaining_stats_del (k : str) (d : list (str * str)) :
  Forall (fun kv => kv.1 = k -> blank_or_zero kv.2) d ->
  Bot.remaining_stats title_case (dict_del k d)
  = Bot.remaining_stats title_case d.
Proof.
  induction 1 as [| [a v] d Hx Hd IH]; [reflexivity |].
  cbn [dict_del]. destruct (decide (a = k)) as [-> | Hak].
  - rewrite IH. cbn [Bot.remaining_stats].
    destruct (Hx eq_refl) as [Hv | Hv]; cbn [snd] in Hv; subst v.
    + reflexivity.
    + rewrite bool_decide_eq_true_2 by reflexivity.
      cbn [negb]. rewrite andb_false_r. reflexivity.
  - cbn [Bot.remaining_stats]. rewrite IH. reflexivity.
Qed.

(** X29. On the loop over the leftover stats of [format_content]: a stat
    whose value is empty or ["0"] and whose key is not one that
    [format_content] formats by name leaves no trace in the output: the
    stat lines, and the whole message, are those of the record without
    that stat. *)
Theorem blank_stat_omitted (item_obj : Api.Item) (loading_mods : bool)
    (key val : str) :
  NoDup (dict_keys (Api.stats item_obj)) ->
  dict_get key (Api.stats item_obj) = Some val ->
  blank_or_zero val ->
  key ∉ dedicated_keys ->
  let without := Api.set_stats item_obj (dict_del key (Api.stats item_obj)) in
  dict_get key (Api.stats without) = None /\
  Bot.stat_lines title_case float_2f item_obj
  = Bot.stat_lines title_case float_2f without /\
  Bot.format_content title_case float_2f wiki_url item_obj loading_mods
  = Bot.format_content title_case float_2f wiki_url without loading_mods.
Proof.
  intros Hnd Hget Hval Hkey without.
  assert (Hlines : Bot.stat_lines title_case float_2f item_obj
                   = Bot.stat_lines title_case float_2f without).
  { assert (HP : Forall (fun kv => kv.1 = key -> blank_or_zero kv.2)
                   (Api.stats item_obj)).
    { eapply Forall_impl; [apply (dict_get_unique key val); assumption |].
      intros kv Hkv Hk. cbn beta in Hkv. rewrite (Hkv Hk). exact Hval. }
    unfold Bot.stat_lines. subst without. cbn [Api.stats Api.set_stats
      Api.required_level].
    rewrite physical_damage_del.
    2-5: intros ->; apply Hkey; unfold dedicated_keys; apply elem_of_app;
      left;
      repeat (first [apply list_elem_of_here | apply list_elem_of_further]).
    destruct (Bot.physical_damage (Api.stats item_obj)) as [l1 ds1] eqn:Hpd.
    cbn [fst snd].
    rewrite formatted_stats_del.
    2: { intros Hin. apply Hkey. unfold dedicated_keys. apply elem_of_app.
         right. exact Hin. }
    assert (HP1 : Forall (fun kv => kv.1 = key -> blank_or_zero kv.2) ds1).
    { change ds1 with (l1, ds1).2. rewrite <- Hpd.
      apply physical_damage_Forall. exact HP. }
    pose proof (formatted_stats_Forall _ Bot.format_map l1 ds1 HP1) as HP2.
    destruct (Bot.formatted_stats float_2f Bot.format_map l1 ds1) as [l2 ds2].
    cbn [fst snd] in *. rewrite remaining_stats_del by exact HP2.
    reflexivity. }
  split; [apply dict_get_del_eq | split; [exact Hlines |]].
  unfold Bot.format_content. rewrite Hlines. reflexivity.
Qed.

End StatLines.

Lemma blank_stat_omitted_witness :
  let item_obj :=
    Api.set_stats (search_hit "Tabula Rasa" "Unique" "Body Armour")
      [(lit "evasion", lit "12"); (lit "block", lit "0")] in
  let without :=
    Api.set_stats item_obj (dict_del (lit "block") (Api.stats item_obj)) in
  dict_get (lit "block") (Api.stats without) = None /\
  Bot.stat_lines title_stub float_stub item_obj
  = Bot.stat_lines title_stub float_stub without /\
  Bot.format_content title_stub float_stub (lit "https://www.poewiki.net")
    item_obj true
  = Bot.format_content title_stub float_stub (lit "https://www.poewiki.net")
      without true.
Proof.
  apply (blank_stat_omitted title_stub float_stub
           (lit "https://www.poewiki.net")
           (Api.set_stats (search_hit "Tabula Rasa" "Unique" "Body Armour")
              [(lit "evasion", lit "12"); (lit "block", lit "0")])
           true (lit "block") (lit "0")).
  - apply (bool_decide_unpack _). vm_compute. exact I.
  - reflexivity.
  - right. reflexivity.
  - intros Hin. apply (bool_decide_pack _) in Hin. vm_compute in Hin.
    exact Hin.
Defined.

(** C7 fails on the stats formatted by name: a zero armour fetched from
    the remote is rendered as ["Armour: 0"], a line that the record without
    that stat does not have.  The loop over the leftover stats has the test
    for ["0"]; the loop over the format table has none. *)
Lemma zero_armour_is_rendered :
  (Api.get_item_details scripted_get no_images armours_catalog ascii_lower
     ascii_only reject_escapes (lit "Assassin's Garb") false
     evasion_armour_script).1
  = Api.Returns (Some evasion_armour) /\
  dict_get (lit "armour") (Api.stats evasion_armour) = Some (lit "0") /\
  Bot.stat_lines title_stub float_stub evasion_armour
  = [lit "Armour: 0"; lit "Evasion Rating: 737"] /\
  Bot.stat_lines title_stub float_stub
    (Api.set_stats evasion_armour
       (dict_del (lit "armour") (Api.stats evasion_armour)))
  = [lit "Evasion Rating: 737"].
Proof.
  repeat split; vm_compute; reflexivity.
Qed.

(** ** Placeholder substitution *)

Lemma span_app (p : char -> bool) (s : str) :
  s = (span p s).1 ++ (span p s).2.
Proof.
  induction s as [| c s IH]; [reflexivity |].
  cbn [span]. destruct (p c); [| reflexivity].
  destruct (span p s) as [a b]. cbn [fst snd] in *. rewrite IH at 1.
  reflexivity.
Qed.

Lemma replace_char_elem (x c : char) (r s : str) :
  c ∈ replace_char x r s -> c ∈ r \/ (c ∈ s /\ c <> x).
Proof.
  unfold replace_char. induction s as [| a s IH]; cbn [flat_map].
  - intros H. inversion H.
  - intros H. apply elem_of_app in H as [H | H].
    + destruct (a =? x)%N eqn:Ha; [left; exact H |].
      apply list_elem_of_singleton in H. subst c. right.
      split; [apply list_elem_of_here | apply N.eqb_neq; exact Ha].
    + destruct (IH H) as [Hr | [Hs Hne]]; [left; exact Hr |].
      right. split; [apply elem_of_cons; right; exact Hs | exact Hne].
Qed.

Lemma replace_char_absent (x : char) (r s : str) :
  x ∉ s -> replace_char x r s = s.
Proof.
  unfold replace_char. induction s as [| a s IH]; [reflexivity |].
  intros Hx. cbn [flat_map].
  destruct (a =? x)%N eqn:Ha.
  - apply N.eqb_eq in Ha. subst a. exfalso. apply Hx. apply list_elem_of_here.
  - cbn [app]. f_equal. apply IH. intros Hin. apply Hx.
    apply elem_of_cons. right. exact Hin.
Qed.

Section Substitution.

Variable unicode_Nd : char -> bool.
Variable expand_template : str -> option (str -> str).

(** A match consumes a non-empty prefix that starts with [(]. *)
Lemma match_range_split (s m rest : str) :
  match_range unicode_Nd s = Some (m, rest) ->
  s = m ++ rest /\ exists m', m = LPAREN :: m'.
Proof.
  unfold match_range. destruct s as [| c s1]; [discriminate |].
  destruct (c =? LPAREN)%N eqn:Hc; [| discriminate].
  apply N.eqb_eq in Hc. subst c.
  pose proof (span_app (is_decimal unicode_Nd) s1) as H1.
  destruct (span (is_decimal unicode_Nd) s1) as [d1 s2]. cbn [fst snd] in H1.
  destruct d1 as [| x d1]; [discriminate |].
  destruct s2 as [| c2 s3]; [discriminate |].
  destruct (c2 =? DASH)%N eqn:Hc2; [| discriminate].
  apply N.eqb_eq in Hc2. subst c2.
  pose proof (span_app (is_decimal unicode_Nd) s3) as H3.
  destruct (span (is_decimal unicode_Nd) s3) as [d2 s4]. cbn [fst snd] in H3.
  destruct d2 as [| y d2]; [discriminate |].
  destruct s4 as [| c3 s5]; [discriminate |].
  destruct (c3 =? RPAREN)%N eqn:Hc3; [| discriminate].
  apply N.eqb_eq in Hc3. subst c3.
  intros [= <- <-]. split; [| eexists; reflexivity].
  rewrite H1, H3. repeat (cbn [app]; rewrite <- ?app_assoc). reflexivity.
Qed.

Lemma match_range_head (s : str) :
  is_Some (match_range unicode_Nd s) -> exists s', s = LPAREN :: s'.
Proof.
  intros [[m rest] Hm]. apply match_range_split in Hm as [-> [m' ->]].
  eexists. reflexivity.
Qed.

Lemma has_range_paren (s : str) :
  has_range unicode_Nd s = true -> LPAREN ∈ s.
Proof.
  induction s as [| c s IH]; cbn [has_range]; [discriminate |].
  intros H. apply orb_true_iff in H as [H | H].
  - apply bool_decide_eq_true in H. apply match_range_head in H as [s' Hs].
    rewrite Hs. apply list_elem_of_here.
  - apply elem_of_cons. right. apply IH. exact H.
Qed.

Lemma parens_open_ranges_suffix (a b : str) :
  parens_open_ranges unicode_Nd (a ++ b) = true ->
  parens_open_ranges unicode_Nd b = true.
Proof.
  induction a as [| c a IH]; [trivial |].
  cbn [app parens_open_ranges]. intros H.
  apply andb_true_iff in H as [_ H]. apply IH. exact H.
Qed.

(** With every [(] opening a range, the substitution leaves no [(]. *)
Lemma sub_range_no_paren (v : str) (fuel : nat) (s : str) :
  LPAREN ∉ v -> length s <= fuel ->
  parens_open_ranges unicode_Nd s = true ->
  LPAREN ∉ sub_range_fuel unicode_Nd fuel (fun _ => v) s.
Proof.
  intros Hv. revert s.
  induction fuel as [| n IH]; intros s Hlen Hok.
  - destruct s; [| cbn [length] in Hlen; lia]. cbn. intros H. inversion H.
  - destruct s as [| c s']; cbn [sub_range_fuel].
    { intros H. inversion H. }
    destruct (match_range unicode_Nd (c :: s')) as [[m rest] |] eqn:Hm.
    + apply match_range_split in Hm as [Hs [m' ->]].
      intros Hin. apply elem_of_app in Hin as [Hin | Hin]; [contradiction |].
      revert Hin. apply IH.
      * apply (f_equal length) in Hs. rewrite length_app in Hs.
        cbn [length] in *. lia.
      * rewrite Hs in Hok. apply parens_open_ranges_suffix in Hok. exact Hok.
    + cbn [parens_open_ranges] in Hok.
      apply andb_true_iff in Hok as [Hc Hok].
      intros Hin. apply elem_of_cons in Hin as [Hin | Hin].
      * subst c. change (LPAREN =? LPAREN)%N with true in Hc. cbn iota in Hc.
        apply bool_decide_eq_true in Hc. destruct Hc as [x Hx]. congruence.
      * revert Hin. apply IH; [cbn [length] in Hlen; lia | exact Hok].
Qed.

(** Without [(] there is nothing to substitute. *)
Lemma sub_range_fuel_id (expand : str -> str) (fuel : nat) (s : str) :
  LPAREN ∉ s -> sub_range_fuel unicode_Nd fuel expand s = s.
Proof.
  revert s. induction fuel as [| n IH]; intros s Hs; [reflexivity |].
  destruct s as [| c s']; cbn [sub_range_fuel]; [reflexivity |].
  destruct (match_range unicode_Nd (c :: s')) as [[m rest] |] eqn:Hm.
  - exfalso. apply Hs.
    destruct (match_range_head (c :: s')) as [s'' Heq];
      [rewrite Hm; eexists; reflexivity |].
    rewrite Heq. apply list_elem_of_here.
  - f_equal. apply IH. intros Hin. apply Hs. apply elem_of_cons. right.
    exact Hin.
Qed.

Lemma re_sub_range_id (repl s : str) :
  BACKSLASH ∉ repl -> LPAREN ∉ s ->
  re_sub_range unicode_Nd expand_template repl s = Some s.
Proof.
  intros Hb Hs. unfold re_sub_range.
  rewrite bool_decide_eq_false_2 by exact Hb.
  unfold sub_range. rewrite sub_range_fuel_id by exact Hs. reflexivity.
Qed.

End Substitution.

(** *** Link clean-up adds no character *)

Lemma match_link_body_sub (s g rest : str) (c : char) :
  match_link_body s = Some (g, rest) -> c ∈ g \/ c ∈ rest -> c ∈ s.
Proof.
  unfold match_link_body.
  pose proof (span_app (fun c => negb (c =? RBRACKET)%N) s) as Hs.
  destruct (span (fun c => negb (c =? RBRACKET)%N) s) as [g0 r0].
  cbn [fst snd] in Hs.
  destruct g0 as [| a g0]; [discriminate |].
  destruct r0 as [| x [| y r0]]; try discriminate.
  destruct ((x =? RBRACKET)%N && (y =? RBRACKET)%N); [| discriminate].
  intros [= <- <-] Hc. rewrite Hs. apply elem_of_app.
  destruct Hc as [Hc | Hc]; [left; exact Hc |].
  right. do 2 (apply elem_of_cons; right). exact Hc.
Qed.

Lemma match_link_sub (s g rest : str) (c : char) :
  match_link s = Some (g, rest) -> c ∈ g \/ c ∈ rest -> c ∈ s.
Proof.
  unfold match_link. destruct s as [| a [| b s1]]; try discriminate.
  destruct ((a =? LBRACKET)%N && (b =? LBRACKET)%N); [| discriminate].
  assert (Hplain : match_link_body s1 = Some (g, rest) ->
                   c ∈ g \/ c ∈ rest -> c ∈ a :: b :: s1).
  { intros Hb Hc. do 2 (apply elem_of_cons; right).
    exact (match_link_body_sub s1 g rest c Hb Hc). }
  pose proof (span_app
    (fun c => negb (c =? PIPE)%N && negb (c =? RBRACKET)%N) s1) as Hs.
  destruct (span (fun c => negb (c =? PIPE)%N && negb (c =? RBRACKET)%N) s1)
    as [pre s2].
  cbn [fst snd] in Hs.
  destruct s2 as [| p s3]; [exact Hplain |].
  destruct (p =? PIPE)%N; [| exact Hplain].
  destruct (match_link_body s3) as [[g' rest'] |] eqn:Hb3; [| exact Hplain].
  intros [= <- <-] Hc. do 2 (apply elem_of_cons; right).
  rewrite Hs. apply elem_of_app. right. apply elem_of_cons. right.
  exact (match_link_body_sub s3 g' rest' c Hb3 Hc).
Qed.

Lemma clean_links_fuel_elem (fuel : nat) (s : str) (c : char) :
  c ∈ clean_links_fuel fuel s -> c ∈ s.
Proof.
  revert s. induction fuel as [| n IH]; intros s; [trivial |].
  destruct s as [| a s']; cbn [clean_links_fuel]; [trivial |].
  destruct (match_link (a :: s')) as [[g rest] |] eqn:Hm.
  - intros Hin. apply elem_of_app in Hin as [Hin | Hin].
    + apply (match_link_sub _ g rest c Hm). left. exact Hin.
    + apply (match_link_sub _ g rest c Hm). right. apply IH. exact Hin.
  - intros Hin. apply elem_of_cons in Hin as [-> | Hin];
      [apply list_elem_of_here |].
    apply elem_of_cons. right. apply IH. exact Hin.
Qed.

Lemma clean_links_elem (s : str) (c : char) : c ∈ clean_links s -> c ∈ s.
Proof. apply clean_links_fuel_elem. Qed.

(** *** The scans have fuel to spare *)

Lemma replace_fuel_enough (old new s : str) (n m : nat) :
  old <> [] -> length s <= n -> length s <= m ->
  replace_fuel n old new s = replace_fuel m old new s.
Proof.
  intros Hold. revert s m.
  induction n as [| n IH]; intros s m Hn Hm.
  - destruct s; [| cbn [length] in Hn; lia]. destruct m; reflexivity.
  - destruct m as [| m].
    { destruct s; [reflexivity | cbn [length] in Hm; lia]. }
    destruct s as [| c s']; [reflexivity |]. cbn [replace_fuel].
    destruct (startswith old (c :: s')).
    + f_equal. apply IH; rewrite length_drop; cbn [length] in *;
        destruct old; [contradiction | | contradiction |]; cbn [length]; lia.
    + f_equal. apply IH; cbn [length] in *; lia.
Qed.

Lemma sub_range_fuel_enough (unicode_Nd : char -> bool) (expand : str -> str)
    (s : str) (n m : nat) :
  length s <= n -> length s <= m ->
  sub_range_fuel unicode_Nd n expand s = sub_range_fuel unicode_Nd m expand s.
Proof.
  revert s m. induction n as [| n IH]; intros s m Hn Hm.
  - destruct s; [| cbn [length] in Hn; lia]. destruct m; reflexivity.
  - destruct m as [| m].
    { destruct s; [reflexivity | cbn [length] in Hm; lia]. }
    destruct s as [| c s']; [reflexivity |]. cbn [sub_range_fuel].
    destruct (match_range unicode_Nd (c :: s')) as [[mt rest] |] eqn:Hm'.
    + apply match_range_split in Hm' as [Hs [m' ->]].
      apply (f_equal length) in Hs. rewrite length_app in Hs.
      cbn [length] in *. f_equal. apply IH; lia.
    + f_equal. apply IH; cbn [length] in *; lia.
Qed.

Lemma match_link_body_shorter (s g rest : str) :
  match_link_body s = Some (g, rest) -> length rest < length s.
Proof.
  unfold match_link_body.
  pose proof (span_app (fun c => negb (c =? RBRACKET)%N) s) as Hs.
  destruct (span (fun c => negb (c =? RBRACKET)%N) s) as [g0 r0].
  cbn [fst snd] in Hs.
  destruct g0 as [| a g0]; [discriminate |].
  destruct r0 as [| x [| y r0]]; try discriminate.
  destruct ((x =? RBRACKET)%N && (y =? RBRACKET)%N); [| discriminate].
  intros [= <- <-]. rewrite Hs, length_app. cbn [length]. lia.
Qed.

Lemma match_link_shorter (s g rest : str) :
  match_link s = Some (g, rest) -> length rest < length s.
Proof.
  unfold match_link. destruct s as [| a [| b s1]]; try discriminate.
  destruct ((a =? LBRACKET)%N && (b =? LBRACKET)%N); [| discriminate].
  assert (Hplain : match_link_body s1 = Some (g, rest) ->
                   length rest < length (a :: b :: s1)).
  { intros Hb. apply match_link_body_shorter in Hb. cbn [length]. lia. }
  pose proof (span_app
    (fun c => negb (c =? PIPE)%N && negb (c =? RBRACKET)%N) s1) as Hs.
  destruct (span (fun c => negb (c =? PIPE)%N && negb (c =? RBRACKET)%N) s1)
    as [pre s2].
  cbn [fst snd] in Hs.
  destruct s2 as [| p s3]; [exact Hplain |].
  destruct (p =? PIPE)%N; [| exact Hplain].
  destruct (match_link_body s3) as [[g' rest'] |] eqn:Hb3; [| exact Hplain].
  intros [= <- <-]. apply match_link_body_shorter in Hb3.
  rewrite Hs. cbn [length]. rewrite length_app. cbn [length]. lia.
Qed.

Lemma clean_links_fuel_enough (s : str) (n m : nat) :
  length s <= n -> length s <= m ->
  clean_links_fuel n s = clean_links_fuel m s.
Proof.
  revert s m. induction n as [| n IH]; intros s m Hn Hm.
  - destruct s; [| cbn [length] in Hn; lia]. destruct m; reflexivity.
  - destruct m as [| m].
    { destruct s; [reflexivity | cbn [length] in Hm; lia]. }
    destruct s as [| c s']; [reflexivity |]. cbn [clean_links_fuel].
    destruct (match_link (c :: s')) as [[g rest] |] eqn:Hl.
    + apply match_link_shorter in Hl. cbn [length] in *.
      f_equal. apply IH; lia.
    + f_equal. apply IH; cbn [length] in *; lia.
Qed.

(** *** Equal bounds *)

Section EqualBounds.

Variable unicode_Nd : char -> bool.
Variable expand_template : str -> option (str -> str).

Lemma plain_value_spec (v : str) :
  plain_value v = true ->
  v <> [] /\ (BACKSLASH ∉ v) /\ (HASH ∉ v) /\ (LPAREN ∉ v).
Proof.
  unfold plain_value. intros H. apply andb_true_iff in H as [Hne Hall].
  split; [destruct v; [discriminate | discriminate] |].
  rewrite forallb_forall in Hall.
  assert (Hc : forall c, c ∈ v ->
            c <> BACKSLASH /\ c <> HASH /\ c <> LPAREN).
  { intros c Hin. apply list_elem_of_In in Hin. specialize (Hall c Hin).
    apply andb_true_iff in Hall as [Hall H3].
    apply andb_true_iff in Hall as [H1 H2].
    apply negb_true_iff in H1, H2, H3.
    apply N.eqb_neq in H1, H2, H3. auto. }
  repeat split; intros Hin; apply Hc in Hin; tauto.
Qed.

(** Once no [(] and no [#] is left, later observations change nothing. *)
Lemma apply_stats_settled (others : list (gmap str str)) (t : str) :
  Forall literal_bounds others -> LPAREN ∉ t -> HASH ∉ t ->
  Api.apply_stats unicode_Nd expand_template others t = Some t.
Proof.
  intros Hall Hp Hh. induction Hall as [| o others [Hmn Hmx] _ IH];
    [reflexivity |].
  cbn [Api.apply_stats].
  assert (Hone : Api.apply_stat unicode_Nd expand_template o t = Some t).
  { unfold Api.apply_stat.
    destruct (o !! lit "min") as [mn |]; [| reflexivity].
    destruct (o !! lit "max") as [mx |]; [| reflexivity].
    cbn [default from_option id] in Hmn, Hmx.
    destruct (nonempty mn && nonempty mx); [| reflexivity].
    case_bool_decide.
    - rewrite re_sub_range_id by assumption.
      rewrite replace_char_absent by exact Hh. reflexivity.
    - apply re_sub_range_id; [| exact Hp].
      intros Hin. change (lit "(") with [LPAREN] in Hin.
      change (lit "-") with [DASH] in Hin.
      change (lit ")") with [RPAREN] in Hin.
      repeat (apply elem_of_app in Hin as [Hin | Hin]);
        try contradiction;
        apply list_elem_of_singleton in Hin; discriminate Hin. }
  rewrite Hone. exact IH.
Qed.

(** C2, as the code has it.  Take a template in which every [(] opens a
    [(digits-digits)] range, and observations the first of which has
    min = max = [v], a non-empty value without backslash, [#] or [(] (the
    later ones free of backslashes).  Then the mod renders, as the template
    with every range and then every [#] replaced by [v] and the wiki links
    cleaned; the text has no [#], no [(], hence no bracketed range left. *)
Theorem equal_bounds_substitution
    (item_stats_map : list (option str * list (gmap str str)))
    (mod_id stat_text v : str) (stat : gmap str str)
    (others : list (gmap str str)) :
  dict_get (Some mod_id) item_stats_map = Some (stat :: others) ->
  stat !! lit "min" = Some v ->
  stat !! lit "max" = Some v ->
  plain_value v = true ->
  Forall literal_bounds others ->
  parens_open_ranges unicode_Nd stat_text = true ->
  exists text,
    Api.render_mod unicode_Nd expand_template item_stats_map mod_id stat_text
      = Some text /\
    text = clean_links
             (replace_char HASH v
                (sub_range unicode_Nd (fun _ => v) stat_text)) /\
    (HASH ∉ text) /\ (LPAREN ∉ text) /\ has_range unicode_Nd text = false.
Proof.
  intros Hobs Hmin Hmax Hv Hothers Hparens.
  apply plain_value_spec in Hv as (Hne & Hback & Hhash & Hparen).
  set (t2 := replace_char HASH v (sub_range unicode_Nd (fun _ => v) stat_text)).
  assert (Hp2 : LPAREN ∉ t2).
  { intros Hin. apply replace_char_elem in Hin as [Hin | [Hin _]];
      [contradiction |].
    revert Hin.
    apply sub_range_no_paren; [exact Hparen | lia | exact Hparens]. }
  assert (Hh2 : HASH ∉ t2).
  { intros Hin. apply replace_char_elem in Hin as [Hin | [_ Hin]];
      [contradiction | congruence]. }
  exists (clean_links t2).
  assert (Hp3 : LPAREN ∉ clean_links t2).
  { intros Hin. apply clean_links_elem in Hin. contradiction. }
  repeat split.
  - unfold Api.render_mod, dict_has. rewrite Hobs.
    cbn [default from_option id Api.apply_stats]. unfold Api.apply_stat.
    rewrite Hmin, Hmax.
    destruct v as [| c v']; [contradiction |].
    cbn [nonempty andb]. rewrite bool_decide_eq_true_2 by reflexivity.
    unfold re_sub_range. rewrite bool_decide_eq_false_2 by exact Hback.
    fold t2. rewrite apply_stats_settled by assumption. reflexivity.
  - intros Hin. apply clean_links_elem in Hin. contradiction.
  - exact Hp3.
  - destruct (has_range unicode_Nd (clean_links t2)) eqn:Hr; [| reflexivity].
    apply has_range_paren in Hr. contradiction.
Qed.

End EqualBounds.

Lemma equal_bounds_substitution_witness :
  exists text,
    Api.render_mod ascii_only reject_escapes
      [(Some (lit "m1"),
        [row [("mod id", "m1"); ("min", "15"); ("max", "15")]])]
      (lit "m1") (lit "(10-20)% increased [[Fire|fire]] Damage, # to all")
      = Some text /\
    text = clean_links
             (replace_char HASH (lit "15")
                (sub_range ascii_only (fun _ => lit "15")
                   (lit "(10-20)% increased [[Fire|fire]] Damage, # to all"))) /\
    (HASH ∉ text) /\ (LPAREN ∉ text) /\ has_range ascii_only text = false.
Proof.
  apply (equal_bounds_substitution ascii_only reject_escapes
           [(Some (lit "m1"),
             [row [("mod id", "m1"); ("min", "15"); ("max", "15")]])]
           (lit "m1") (lit "(10-20)% increased [[Fire|fire]] Damage, # to all")
           (lit "15")
           (row [("mod id", "m1"); ("min", "15"); ("max", "15")]) []).
  - reflexivity.
  - vm_compute. reflexivity.
  - vm_compute. reflexivity.
  - reflexivity.
  - constructor.
  - vm_compute. reflexivity.
Defined.

(** C2 as stated fails.  With min = max = 5 the template
    [(#-3)% increased Damage] has its [#] replaced, and the text the
    fallback path returns then holds the bracketed range [(5-3)].  With
    min = max = 0.3 the template [(0.2-0.4)% of Damage Leeched as Life] is
    returned as it is, brackets included: its range is not made of digits
    only and nothing is substituted. *)
Lemma hash_in_parens_leaves_range :
  ((Api.get_mods_fallback scripted_get ascii_only reject_escapes
      (lit "Example Item") hash_in_parens_script).1
   = ([lit "(5-3)% increased Damage"], []) /\
   Api.render_mod ascii_only reject_escapes
     [(Some (lit "m1"), [row [("mod id", "m1"); ("min", "5"); ("max", "5")]])]
     (lit "m1") (lit "(#-3)% increased Damage")
   = Some (lit "(5-3)% increased Damage") /\
   has_range ascii_only (lit "(5-3)% increased Damage") = true) /\
  (Api.render_mod ascii_only reject_escapes
     [(Some (lit "m1"),
       [row [("mod id", "m1"); ("min", "0.3"); ("max", "0.3")]])]
     (lit "m1") (lit "(0.2-0.4)% of Damage Leeched as Life")
   = Some (lit "(0.2-0.4)% of Damage Leeched as Life") /\
   contains (lit "(") (lit "(0.2-0.4)% of Damage Leeched as Life") = true /\
   contains (lit "0.3") (lit "(0.2-0.4)% of Damage Leeched as Life") = false).
Proof.
  repeat split; vm_compute; reflexivity.
Qed.

(** ** The mod pipeline on the scripted remote *)

Example fallback_on_script :
  (Api.get_mods_fallback scripted_get ascii_only reject_escapes
     (lit "Example Item") (drop 3 mixed_mods_script)).1
  = ([lit "Both flags"],
     [lit "(12-18)% increased Damage"; lit "Adds 7 to fire"]).
Proof. vm_compute. reflexivity. Qed.

Example merge_on_script :
  (Api.resolve_mods scripted_get ∅ ascii_only reject_escapes
     (lit "Example Item") mixed_mods_script).1
  = (Some (lit "+25% to Fire Resistance"),
     Some (lit "(12-18)% increased Damage<br>Adds 7 to fire")).
Proof. vm_compute. reflexivity. Qed.

(** * Further properties *)

(** ** Image lookup *)

Lemma batches_concat (k : nat) (l : list str) :
  length l <= 50 * k ->
  concat (map (fun i => take 50 (drop i l)) (map (fun j => 50 * j) (seq 0 k)))
  = l.
Proof.
  revert l. induction k as [| k IH]; intros l Hlen.
  - destruct l; [reflexivity | cbn [length] in Hlen; lia].
  - cbn [seq map concat]. rewrite <- seq_shift, !map_map.
    change (50 * 0) with 0. rewrite drop_0.
    transitivity (take 50 l ++ drop 50 l); [| apply take_drop]. f_equal.
    rewrite <- (IH (drop 50 l)) by (rewrite length_drop; lia).
    rewrite map_map. f_equal. apply map_ext. intros j.
    rewrite drop_drop. f_equal. f_equal. lia.
Qed.

(** X1. The batches of [get_image_urls] cut the file names into consecutive
    chunks: put back together they are the input, none is empty and none
    has more than 50 names. *)
Theorem batches_partition (file_names : list str) :
  concat (Images.batches file_names) = file_names /\
  Forall (fun chunk => 0 < length chunk <= 50) (Images.batches file_names) /\
  length (Images.batches file_names) = (length file_names + 49) / 50.
Proof.
  unfold Images.batches, Images.batch_starts.
  set (n := length file_names).
  pose proof (Nat.div_mod_eq (n + 49) 50) as Hdiv.
  pose proof (Nat.mod_upper_bound (n + 49) 50 ltac:(lia)) as Hmod.
  split; [| split].
  - apply batches_concat. fold n. lia.
  - apply Forall_forall. intros chunk Hin.
    apply list_elem_of_fmap in Hin as (i & -> & Hi).
    apply list_elem_of_fmap in Hi as (j & -> & Hj).
    apply elem_of_seq in Hj.
    rewrite length_take, length_drop. fold n. lia.
  - rewrite !length_map, length_seq. reflexivity.
Qed.

Section ImageLookup.

Context {World : Type}.
Variable image_get : str -> World -> Images.image_result * World.

Lemma fetch_batches_world (chunks : list (list str))
    (results : gmap str (option str)) (w : World) :
  (Images.fetch_batches image_get chunks results w).2
  = foldl (fun w' chunk => (image_get (join (lit "|") chunk) w').2) w chunks.
Proof.
  revert results w. induction chunks as [| chunk rest IH]; intros results w;
    cbn [Images.fetch_batches foldl]; [reflexivity |].
  destruct (image_get (join (lit "|") chunk) w) as [[| [|] [pages |]] w1];
    cbn [snd]; apply IH.
Qed.

(** X2. [get_image_urls] asks for every batch, in order, whatever the earlier
    batches answered: a batch that raises, is refused or does not parse
    stops nothing. *)
Theorem get_image_urls_requests (file_names : list str) (w : World) :
  (Images.get_image_urls image_get file_names w).2
  = foldl (fun w' chunk => (image_get (join (lit "|") chunk) w').2) w
      (Images.batches file_names).
Proof.
  unfold Images.get_image_urls. destruct file_names as [| f rest];
    [reflexivity |].
  apply fetch_batches_world.
Qed.

Lemma fetch_batches_all_fail (chunks : list (list str))
    (results : gmap str (option str)) (w : World) :
  (forall titles w' pages,
     (image_get titles w').1 <> Images.ImageResponse true (Some pages)) ->
  (Images.fetch_batches image_get chunks results w).1 = results.
Proof.
  intros Hfail. revert w. induction chunks as [| chunk rest IH]; intros w;
    cbn [Images.fetch_batches]; [reflexivity |].
  pose proof (Hfail (join (lit "|") chunk) w) as Hf.
  destruct (image_get (join (lit "|") chunk) w) as [[| [|] [pages |]] w1];
    cbn [fst] in Hf; try apply IH.
  exfalso. exact (Hf pages eq_refl).
Qed.

(** X3. When no batch gets a parsed 2xx answer, [get_image_urls] returns the
    empty mapping, and [get_image_url] no URL. *)
Theorem get_image_urls_all_fail (file_names : list str) (file_name : str)
    (w : World) :
  (forall titles w' pages,
     (image_get titles w').1 <> Images.ImageResponse true (Some pages)) ->
  (Images.get_image_urls image_get file_names w).1 = ∅ /\
  (Images.get_image_url image_get file_name w).1 = None.
Proof.
  intros Hfail.
  assert (Hall : forall fns w0,
            (Images.get_image_urls image_get fns w0).1 = ∅).
  { intros fns w0. unfold Images.get_image_urls.
    destruct fns; [reflexivity |]. apply fetch_batches_all_fail. exact Hfail. }
  split; [apply Hall |].
  unfold Images.get_image_url.
  pose proof (Hall [file_name] w) as H1.
  destruct (Images.get_image_urls image_get [file_name] w) as [urls w1].
  cbn [fst] in *. subst urls. rewrite lookup_empty. reflexivity.
Qed.

End ImageLookup.

Lemma get_image_urls_all_fail_witness :
  (Images.get_image_urls images_down [lit "File:Starforge.png"] 0).1 = ∅ /\
  (Images.get_image_url images_down (lit "File:Starforge.png") 0).1 = None.
Proof.
  apply (get_image_urls_all_fail images_down [lit "File:Starforge.png"]
           (lit "File:Starforge.png") 0).
  intros titles w' pages. simpl. discriminate.
Defined.

(** ** Dict updates *)

Section DictSetFacts.

Context {K V : Type} `{EqDecision K}.
Implicit Types (d : list (K * V)) (k : K) (v : V).

Lemma dict_get_set_eq k v d : dict_get k (dict_set k v d) = Some v.
Proof.
  induction d as [| [a x] d IH]; cbn [dict_set dict_get].
  - destruct (decide (k = k)); [reflexivity | contradiction].
  - destruct (decide (a = k)) as [-> | Hak]; cbn [dict_get].
    + destruct (decide (k = k)); [reflexivity | contradiction].
    + destruct (decide (a = k)); [contradiction | exact IH].
Qed.

Lemma dict_get_set_ne k k' v d :
  k <> k' -> dict_get k' (dict_set k v d) = dict_get k' d.
Proof.
  intros Hne. induction d as [| [a x] d IH]; cbn [dict_set dict_get].
  - destruct (decide (k = k')); [contradiction | reflexivity].
  - destruct (decide (a = k)) as [-> | Hak]; cbn [dict_get].
    + destruct (decide (k = k')); [contradiction | reflexivity].
    + rewrite IH. reflexivity.
Qed.

Lemma dict_set_elem k v d (kv : K * V) :
  kv ∈ dict_set k v d -> kv = (k, v) \/ kv ∈ d.
Proof.
  induction d as [| [a x] d IH]; cbn [dict_set].
  - intros Hin. apply list_elem_of_singleton in Hin. left. exact Hin.
  - destruct (decide (a = k)) as [-> | Hak]; intros Hin;
      apply elem_of_cons in Hin as [Hin | Hin].
    + left. exact Hin.
    + right. apply elem_of_cons. right. exact Hin.
    + right. rewrite Hin. apply list_elem_of_here.
    + destruct (IH Hin) as [Heq | Hd]; [left; exact Heq |].
      right. apply elem_of_cons. right. exact Hd.
Qed.

Lemma dict_set_Forall (P : K * V -> Prop) k v d :
  P (k, v) -> Forall P d -> Forall P (dict_set k v d).
Proof.
  intros Hkv Hd. apply Forall_forall. intros kv Hin.
  apply dict_set_elem in Hin as [-> | Hin]; [exact Hkv |].
  rewrite Forall_forall in Hd. apply Hd. exact Hin.
Qed.

Lemma dict_set_key_elem k v d (a : K) :
  a ∈ dict_keys (dict_set k v d) -> a = k \/ a ∈ dict_keys d.
Proof.
  unfold dict_keys. intros Hin.
  apply list_elem_of_fmap in Hin as ([b x] & -> & Hin).
  apply dict_set_elem in Hin as [[= -> ->] | Hin]; [left; reflexivity |].
  right. apply list_elem_of_fmap. exists (b, x). split; [reflexivity | exact Hin].
Qed.

Lemma dict_set_NoDup k v d :
  NoDup (dict_keys d) -> NoDup (dict_keys (dict_set k v d)).
Proof.
  unfold dict_keys. induction d as [| [a x] d IH]; cbn [dict_set map fst].
  - intros _. apply NoDup_singleton.
  - intros Hnd. apply NoDup_cons in Hnd as [Hnotin Hnd].
    destruct (decide (a = k)) as [-> | Hak]; cbn [map fst].
    + apply NoDup_cons. split; assumption.
    + apply NoDup_cons. split; [| apply IH; exact Hnd].
      intros Hin. apply (dict_set_key_elem k v d a) in Hin as [Heq | Hin];
        [contradiction | contradiction].
Qed.

Lemma dict_del_idem k d : dict_del k (dict_del k d) = dict_del k d.
Proof.
  induction d as [| [a x] d IH]; [reflexivity |].
  cbn [dict_del]. destruct (decide (a = k)) as [-> | Hak]; [exact IH |].
  cbn [dict_del]. destruct (decide (a = k)); [contradiction |].
  rewrite IH. reflexivity.
Qed.

End DictSetFacts.

(** ** The queries of the fallback path *)

Lemma collect_mod_info_keys (raw_mods : list (gmap str str))
    (acc : list (str * (bool * bool))) :
  NoDup (dict_keys acc) -> Forall (fun id => id <> []) (dict_keys acc) ->
  NoDup (dict_keys (Api.collect_mod_info raw_mods acc)) /\
  Forall (fun id => id <> []) (dict_keys (Api.collect_mod_info raw_mods acc)).
Proof.
  revert acc. induction raw_mods as [| mod_title rest IH]; intros acc Hnd Hne;
    cbn [Api.collect_mod_info]; [split; assumption |].
  destruct (mod_title !! lit "id") as [id |]; [| apply IH; assumption].
  destruct id as [| c id']; cbn [nonempty]; [apply IH; assumption |].
  apply IH; [apply dict_set_NoDup; exact Hnd |].
  apply Forall_forall. intros a Hin.
  apply dict_set_key_elem in Hin as [-> | Hin]; [discriminate |].
  rewrite Forall_forall in Hne. apply Hne. exact Hin.
Qed.

(** X4. The mod ids that [get_mods_fallback] puts in its [IN (...)] clauses
    are distinct and non-empty, however often the remote repeats a row. *)
Theorem mod_ids_distinct (raw_mods : list (gmap str str)) :
  NoDup (dict_keys (Api.collect_mod_info raw_mods [])) /\
  Forall (fun id => id <> []) (dict_keys (Api.collect_mod_info raw_mods [])).
Proof.
  apply collect_mod_info_keys; [apply NoDup_nil_2 | constructor].
Qed.

Lemma collect_stat_texts_visible (rows : list (gmap str str))
    (acc : list (str * str)) :
  Forall visible_template acc ->
  Forall visible_template (Api.collect_stat_texts rows acc).
Proof.
  revert acc. induction rows as [| m_title rest IH]; intros acc Hacc;
    cbn [Api.collect_stat_texts]; [exact Hacc |].
  apply IH.
  destruct (m_title !! lit "id") as [m_id |]; [| exact Hacc].
  destruct (m_title !! lit "stat text") as [m_text |]; [| exact Hacc].
  destruct m_id as [| c m_id']; [exact Hacc |].
  destruct m_text as [| e m_text']; [exact Hacc |].
  cbn [nonempty andb].
  destruct (contains (lit "(Hidden)") (e :: m_text')) eqn:Hh; [exact Hacc |].
  apply dict_set_Forall; [| exact Hacc].
  repeat split; [discriminate | discriminate | exact Hh].
Qed.

(** X5. Every template the fallback path goes on to render is non-empty, has a
    non-empty mod id and does not contain ["(Hidden)"]. *)
Theorem stat_texts_visible (rows : list (gmap str str)) :
  Forall visible_template (Api.collect_stat_texts rows []).
Proof. apply collect_stat_texts_visible. constructor. Qed.

Lemma collect_stat_texts_skipped (rows : list (gmap str str))
    (acc : list (str * str)) (mod_id : str) :
  (forall m_title, m_title ∈ rows ->
     m_title !! lit "id" = Some mod_id -> skipped_row m_title) ->
  dict_get mod_id acc = None ->
  dict_get mod_id (Api.collect_stat_texts rows acc) = None.
Proof.
  revert acc. induction rows as [| m_title rest IH]; intros acc Hrows Hacc;
    cbn [Api.collect_stat_texts]; [exact Hacc |].
  apply IH.
  { intros r Hin. apply Hrows. apply elem_of_cons. right. exact Hin. }
  pose proof (Hrows m_title (list_elem_of_here _ _)) as Hrow.
  unfold skipped_row in Hrow.
  destruct (m_title !! lit "id") as [m_id |]; [| exact Hacc].
  destruct (m_title !! lit "stat text") as [m_text |]; [| exact Hacc].
  destruct (nonempty m_id && nonempty m_text) eqn:Hne; [| exact Hacc].
  destruct (contains (lit "(Hidden)") m_text) eqn:Hh; [exact Hacc |].
  destruct (decide (m_id = mod_id)) as [-> | Hid].
  - destruct (Hrow eq_refl) as [-> | Hhid]; [| congruence].
    rewrite andb_false_r in Hne. discriminate.
  - rewrite dict_get_set_ne by exact Hid. exact Hacc.
Qed.

(** X6. A mod all of whose rows in the [mods] answer are hidden (or have no
    template) gets no template at all, so it reaches neither output list. *)
Theorem hidden_mod_excluded (rows : list (gmap str str)) (mod_id : str) :
  (forall m_title, m_title ∈ rows ->
     m_title !! lit "id" = Some mod_id -> skipped_row m_title) ->
  dict_get mod_id (Api.collect_stat_texts rows []) = None.
Proof.
  intros Hrows. apply collect_stat_texts_skipped; [exact Hrows | reflexivity].
Qed.

Lemma hidden_mod_excluded_witness :
  dict_get (lit "m1")
    (Api.collect_stat_texts
       [row [("id", "m1"); ("stat text", "Cannot roll Caster (Hidden)")];
        row [("id", "m2"); ("stat text", "+10 to Strength")];
        row [("id", "m1")]] [])
  = None.
Proof.
  apply (hidden_mod_excluded
           [row [("id", "m1"); ("stat text", "Cannot roll Caster (Hidden)")];
            row [("id", "m2"); ("stat text", "+10 to Strength")];
            row [("id", "m1")]] (lit "m1")).
  intros m_title Hin Hid.
  repeat (apply elem_of_cons in Hin as [-> | Hin]);
    [| vm_compute in Hid; discriminate Hid | | inversion Hin].
  - right. vm_compute. reflexivity.
  - vm_compute. exact I.
Defined.

Section FallbackQueries.

Context {World : Type}.
Variable client_get : Api.params -> World -> Api.http_result * World.
Variable unicode_Nd : char -> bool.
Variable expand_template : str -> option (str -> str).

Lemma collect_mod_info_none (raw_mods : list (gmap str str))
    (acc : list (str * (bool * bool))) :
  Forall (fun mod_title => truthy (mod_title !! lit "id") = false) raw_mods ->
  Api.collect_mod_info raw_mods acc = acc.
Proof.
  intros Hall. revert acc.
  induction Hall as [| mod_title rest Hid _ IH]; intros acc;
    cbn [Api.collect_mod_info]; [reflexivity |].
  rewrite IH. destruct (mod_title !! lit "id") as [id |]; [| reflexivity].
  cbn [truthy] in Hid. rewrite Hid. reflexivity.
Qed.

(** X7. When the [item_mods] query raises, does not parse, or yields no row
    with a mod id, [get_mods_fallback] returns two empty lists and makes no
    further request. *)
Theorem fallback_without_mods (item_name : str) (w w1 : World)
    (r : Api.http_result) :
  client_get (item_mods_params item_name) w = (r, w1) ->
  Forall (fun mod_title => truthy (mod_title !! lit "id") = false)
    (rows_of r) ->
  Api.get_mods_fallback client_get unicode_Nd expand_template item_name w
  = (([], []), w1).
Proof.
  intros Hget Hrows. unfold Api.get_mods_fallback.
  change (Api.cargo (lit "item_mods") (lit "id,is_implicit,is_explicit")
            (lit "_pageName='" ++ Api.escape_quotes item_name ++ lit "'"))
    with (item_mods_params item_name).
  rewrite Hget. destruct r as [| ok [data |]]; try reflexivity.
  cbn [rows_of] in Hrows. rewrite collect_mod_info_none by exact Hrows.
  reflexivity.
Qed.

End FallbackQueries.

Lemma fallback_without_mods_witness :
  Api.get_mods_fallback scripted_get ascii_only reject_escapes
    (lit "Chaos Orb")
    [rows_response [row [("is implicit", "1")]]; error_response]
  = (([], []), [error_response]).
Proof.
  apply (fallback_without_mods scripted_get ascii_only reject_escapes
           (lit "Chaos Orb") _ [error_response]
           (rows_response [row [("is implicit", "1")]])).
  - reflexivity.
  - vm_compute. repeat constructor.
Defined.

(** ** One placeholder, one link *)

Lemma span_run (p : char -> bool) (d : str) (c : char) (s : str) :
  Forall (fun x => p x = true) d -> p c = false ->
  span p (d ++ c :: s) = (d, c :: s).
Proof.
  intros Hd Hc. induction Hd as [| x d Hx _ IH]; cbn [app span].
  - rewrite Hc. reflexivity.
  - rewrite Hx, IH. reflexivity.
Qed.

Lemma not_elem_eqb (c : char) (s : str) :
  c ∉ s -> Forall (fun x => negb (x =? c)%N = true) s.
Proof.
  intros Hc. apply Forall_forall. intros x Hx.
  apply negb_true_iff, N.eqb_neq. intros ->. contradiction.
Qed.

Lemma match_link_head (c : char) (s : str) :
  c <> LBRACKET -> match_link (c :: s) = None.
Proof.
  intros Hc. unfold match_link. destruct s as [| b s1]; [reflexivity |].
  apply N.eqb_neq in Hc. rewrite Hc. reflexivity.
Qed.

(** A text without [[] has no link to clean. *)
Lemma clean_links_fuel_id (fuel : nat) (s : str) :
  LBRACKET ∉ s -> clean_links_fuel fuel s = s.
Proof.
  revert s. induction fuel as [| n IH]; intros s Hs; [reflexivity |].
  destruct s as [| c s']; cbn [clean_links_fuel]; [reflexivity |].
  rewrite match_link_head.
  - f_equal. apply IH. intros Hin. apply Hs. apply elem_of_cons. right.
    exact Hin.
  - intros ->. apply Hs. apply list_elem_of_here.
Qed.

Lemma clean_links_fuel_prefix (a link_text shown rest : str) (fuel : nat) :
  LBRACKET ∉ a ->
  match_link (link_text ++ rest) = Some (shown, rest) ->
  length (a ++ link_text ++ rest) <= fuel ->
  clean_links_fuel fuel (a ++ link_text ++ rest)
  = a ++ shown ++ clean_links rest.
Proof.
  intros Ha Hm. revert fuel. induction a as [| c a IH]; intros fuel Hlen.
  - cbn [app] in *. pose proof (match_link_shorter _ _ _ Hm) as Hshort.
    destruct fuel as [| n]; [lia |].
    destruct (link_text ++ rest) as [| x s'] eqn:Hs;
      [cbn [length] in Hshort; lia |].
    cbn [clean_links_fuel]. rewrite Hm. f_equal.
    apply clean_links_fuel_enough; cbn [length] in *; lia.
  - cbn [app length] in *. destruct fuel as [| n]; [lia |].
    cbn [clean_links_fuel]. rewrite match_link_head.
    + f_equal. apply IH; [| lia]. intros Hin. apply Ha.
      apply elem_of_cons. right. exact Hin.
    + intros ->. apply Ha. apply list_elem_of_here.
Qed.

(** X8. The link clean-up keeps the display text of a wiki link: of
    [[[target|display]]] when the target has no [|] or []], and of
    [[[display]]] when the display text has no [|]; the text before the link
    (without [[]) is kept and the text after it is cleaned in turn. *)
Theorem clean_links_display_text (a target display b : str) :
  LBRACKET ∉ a -> display <> [] -> RBRACKET ∉ display ->
  PIPE ∉ target -> RBRACKET ∉ target ->
  clean_links (a ++ (lit "[[" ++ target ++ lit "|" ++ display ++ lit "]]") ++ b)
  = a ++ display ++ clean_links b /\
  (PIPE ∉ display ->
   clean_links (a ++ (lit "[[" ++ display ++ lit "]]") ++ b)
   = a ++ display ++ clean_links b).
Proof.
  intros Ha Hne Hd Htp Htb.
  assert (Hbody : match_link_body (display ++ lit "]]" ++ b) = Some (display, b)).
  { unfold match_link_body. change (lit "]]" ++ b) with (RBRACKET :: RBRACKET :: b).
    rewrite span_run; [| apply not_elem_eqb; exact Hd | reflexivity].
    destruct display; [contradiction | reflexivity]. }
  split.
  - unfold clean_links. apply clean_links_fuel_prefix; [exact Ha | | lia].
    rewrite <- !app_assoc.
    change (lit "[[" ++ target ++ lit "|" ++ display ++ lit "]]" ++ b)
      with (LBRACKET :: LBRACKET
              :: target ++ PIPE :: display ++ lit "]]" ++ b).
    unfold match_link. change (LBRACKET =? LBRACKET)%N with true. cbn [andb].
    rewrite span_run.
    + change (PIPE =? PIPE)%N with true. cbn iota. rewrite Hbody. reflexivity.
    + apply Forall_forall. intros x Hx. apply andb_true_iff.
      split; apply negb_true_iff, N.eqb_neq; intros ->; contradiction.
    + reflexivity.
  - intros Hdp. unfold clean_links.
    apply clean_links_fuel_prefix; [exact Ha | | lia].
    rewrite <- !app_assoc.
    change (lit "[[" ++ display ++ lit "]]" ++ b)
      with (LBRACKET :: LBRACKET :: display ++ lit "]]" ++ b).
    unfold match_link. change (LBRACKET =? LBRACKET)%N with true. cbn [andb].
    change (lit "]]" ++ b) with (RBRACKET :: RBRACKET :: b) in *.
    rewrite span_run.
    + change (RBRACKET =? PIPE)%N with false. cbn iota. exact Hbody.
    + apply Forall_forall. intros x Hx. apply andb_true_iff.
      split; apply negb_true_iff, N.eqb_neq; intros ->; contradiction.
    + reflexivity.
Qed.

Lemma clean_links_display_text_witness :
  clean_links
    (lit "Adds 5 " ++ (lit "[[" ++ lit "Fire Damage" ++ lit "|" ++ lit "fire"
                         ++ lit "]]") ++ lit " damage")
  = lit "Adds 5 " ++ lit "fire" ++ clean_links (lit " damage") /\
  (PIPE ∉ lit "fire" ->
   clean_links (lit "Adds 5 " ++ (lit "[[" ++ lit "fire" ++ lit "]]")
                  ++ lit " damage")
   = lit "Adds 5 " ++ lit "fire" ++ clean_links (lit " damage")).
Proof.
  apply (clean_links_display_text (lit "Adds 5 ") (lit "Fire Damage")
           (lit "fire") (lit " damage"));
    intros Hin; apply (bool_decide_pack _) in Hin; vm_compute in Hin;
    exact Hin.
Defined.

Section SingleRange.

Variable unicode_Nd : char -> bool.
Variable expand_template : str -> option (str -> str).

Lemma match_range_token (d1 d2 rest : str) :
  digits unicode_Nd d1 = true -> digits unicode_Nd d2 = true ->
  match_range unicode_Nd (range_text d1 d2 ++ rest)
  = Some (range_text d1 d2, rest).
Proof.
  unfold digits. intros H1 H2.
  apply andb_true_iff in H1 as [Hn1 Hd1].
  apply andb_true_iff in H2 as [Hn2 Hd2].
  rewrite forallb_forall in Hd1, Hd2.
  unfold range_text. rewrite <- !app_assoc.
  change (lit "(" ++ d1 ++ lit "-" ++ d2 ++ lit ")" ++ rest)
    with (LPAREN :: d1 ++ DASH :: d2 ++ RPAREN :: rest).
  change (lit "(" ++ d1 ++ lit "-" ++ d2 ++ lit ")")
    with (LPAREN :: d1 ++ DASH :: d2 ++ [RPAREN]).
  unfold match_range. change (LPAREN =? LPAREN)%N with true. cbn iota.
  rewrite span_run.
  2: { apply Forall_forall. intros x Hx. apply Hd1.
       apply list_elem_of_In. exact Hx. }
  2: reflexivity.
  destruct d1 as [| x d1']; [discriminate |].
  change (DASH =? DASH)%N with true. cbn iota.
  rewrite span_run.
  2: { apply Forall_forall. intros y Hy. apply Hd2.
       apply list_elem_of_In. exact Hy. }
  2: reflexivity.
  destruct d2 as [| y d2']; [discriminate |].
  change (RPAREN =? RPAREN)%N with true. reflexivity.
Qed.

Lemma sub_range_fuel_one (expand : str -> str) (a token rest : str)
    (fuel : nat) :
  LPAREN ∉ a -> LPAREN ∉ rest ->
  match_range unicode_Nd (token ++ rest) = Some (token, rest) ->
  length (a ++ token ++ rest) <= fuel ->
  sub_range_fuel unicode_Nd fuel expand (a ++ token ++ rest)
  = a ++ expand token ++ rest.
Proof.
  intros Ha Hrest Hm. revert fuel. induction a as [| c a IH]; intros fuel Hlen.
  - cbn [app] in *.
    pose proof (match_range_split unicode_Nd _ _ _ Hm) as [_ [m' Htok]].
    destruct fuel as [| n]; [subst token; cbn [app length] in Hlen; lia |].
    destruct (token ++ rest) as [| x s'] eqn:Hs;
      [subst token; discriminate |].
    cbn [sub_range_fuel]. rewrite Hm. f_equal.
    apply sub_range_fuel_id. exact Hrest.
  - cbn [app length] in *. destruct fuel as [| n]; [lia |].
    cbn [sub_range_fuel].
    destruct (match_range unicode_Nd (c :: a ++ token ++ rest))
      as [[m r] |] eqn:Hc.
    + exfalso. apply Ha.
      destruct (match_range_head unicode_Nd (c :: a ++ token ++ rest))
        as [s' Hs]; [rewrite Hc; eexists; reflexivity |].
      injection Hs as -> _. apply list_elem_of_here.
    + f_equal. apply IH; [| lia]. intros Hin. apply Ha.
      apply elem_of_cons. right. exact Hin.
Qed.

Lemma plain_text_spec (s : str) :
  plain_text s = true -> (LPAREN ∉ s) /\ (LBRACKET ∉ s).
Proof.
  unfold plain_text. rewrite forallb_forall. intros H.
  split; intros Hin; apply list_elem_of_In, H in Hin;
    apply andb_true_iff in Hin as [H1 H2];
    apply negb_true_iff in H1, H2; discriminate.
Qed.

Lemma literal_bound_spec (v : str) :
  literal_bound v = true ->
  nonempty v = true /\ (BACKSLASH ∉ v) /\ (LBRACKET ∉ v).
Proof.
  unfold literal_bound. intros H. apply andb_true_iff in H as [Hne H].
  rewrite forallb_forall in H.
  split; [exact Hne |].
  split; intros Hin; apply list_elem_of_In, H in Hin;
    apply andb_true_iff in Hin as [H1 H2];
    apply negb_true_iff in H1, H2; discriminate.
Qed.

(** X9. A template with one bracketed range between texts free of [(] and
    [[], rendered with one observation whose bounds are literal.  Equal
    bounds put the value in place of the range and of every [#]; distinct
    bounds put [(min-max)] in place of the range and leave every [#]. *)
Theorem single_range_template
    (item_stats_map : list (option str * list (gmap str str)))
    (mod_id a d1 d2 b mn mx : str) (stat : gmap str str) :
  dict_get (Some mod_id) item_stats_map = Some [stat] ->
  stat !! lit "min" = Some mn ->
  stat !! lit "max" = Some mx ->
  literal_bound mn = true -> literal_bound mx = true ->
  digits unicode_Nd d1 = true -> digits unicode_Nd d2 = true ->
  plain_text a = true -> plain_text b = true ->
  Api.render_mod unicode_Nd expand_template item_stats_map mod_id
    (a ++ range_text d1 d2 ++ b)
  = Some (if bool_decide (mn = mx)
          then replace_char HASH mn (a ++ mn ++ b)
          else a ++ range_text mn mx ++ b).
Proof.
  intros Hobs Hmin Hmax Hmn Hmx Hd1 Hd2 Ha Hb.
  apply literal_bound_spec in Hmn as (Hnmn & Hbmn & Hlmn).
  apply literal_bound_spec in Hmx as (Hnmx & Hbmx & Hlmx).
  apply plain_text_spec in Ha as [Hpa Hla].
  apply plain_text_spec in Hb as [Hpb Hlb].
  assert (Hsub : forall repl,
    sub_range unicode_Nd (fun _ => repl) (a ++ range_text d1 d2 ++ b)
    = a ++ repl ++ b).
  { intros repl. unfold sub_range.
    apply (sub_range_fuel_one (fun _ => repl)); [exact Hpa | exact Hpb | | lia].
    apply match_range_token; assumption. }
  unfold Api.render_mod, dict_has. rewrite Hobs.
  cbn [default from_option id Api.apply_stats]. unfold Api.apply_stat.
  rewrite Hmin, Hmax, Hnmn, Hnmx. cbn [andb].
  case_bool_decide as Heq.
  - unfold re_sub_range. rewrite bool_decide_eq_false_2 by exact Hbmn.
    rewrite Hsub. f_equal. apply clean_links_fuel_id.
    intros Hin. apply replace_char_elem in Hin as [Hin | [Hin _]];
      [contradiction |].
    repeat (apply elem_of_app in Hin as [Hin | Hin]); contradiction.
  - assert (Hback : BACKSLASH ∉ range_text mn mx).
    { unfold range_text. change (lit "(") with [LPAREN].
      change (lit "-") with [DASH]. change (lit ")") with [RPAREN].
      intros Hin.
      repeat (apply elem_of_app in Hin as [Hin | Hin]); try contradiction;
        apply list_elem_of_singleton in Hin; discriminate Hin. }
    fold (range_text mn mx).
    unfold re_sub_range. rewrite bool_decide_eq_false_2 by exact Hback.
    rewrite Hsub. f_equal. apply clean_links_fuel_id.
    unfold range_text. change (lit "(") with [LPAREN].
    change (lit "-") with [DASH]. change (lit ")") with [RPAREN].
    intros Hin.
    repeat (apply elem_of_app in Hin as [Hin | Hin]); try contradiction;
      apply list_elem_of_singleton in Hin; discriminate Hin.
Qed.

End SingleRange.

Lemma single_range_template_witness :
  Api.render_mod ascii_only reject_escapes
    [(Some (lit "m1"), [row [("mod id", "m1"); ("min", "12"); ("max", "18")]])]
    (lit "m1") (lit "Adds # to " ++ range_text (lit "10") (lit "20") ++ lit "% more")
  = Some (if bool_decide (lit "12" = lit "18")
          then replace_char HASH (lit "12")
                 (lit "Adds # to " ++ lit "12" ++ lit "% more")
          else lit "Adds # to " ++ range_text (lit "12") (lit "18")
                 ++ lit "% more").
Proof.
  apply (single_range_template ascii_only reject_escapes _ (lit "m1")
           (lit "Adds # to ") (lit "10") (lit "20") (lit "% more")
           (lit "12") (lit "18")
           (row [("mod id", "m1"); ("min", "12"); ("max", "18")]));
    vm_compute; reflexivity.
Defined.

(** ** Enrichment *)

Section Enrichment.

Context {World : Type}.
Variable client_get : Api.params -> World -> Api.http_result * World.
Variable get_image_urls : gset str -> World -> gmap str str * World.
Variable CARGO_MAPPING : gmap str (list str).
Variable lower : str -> str.
Variable unicode_Nd : char -> bool.
Variable expand_template : str -> option (str -> str).

Lemma py_or_kept_or_filled (fetched before : option str) :
  kept_or_filled before (py_or fetched before).
Proof.
  unfold kept_or_filled, py_or. destruct (truthy fetched) eqn:Hf;
    [right; exact Hf | left; reflexivity].
Qed.

Lemma kept_or_filled_refl (o : option str) : kept_or_filled o o.
Proof. left. reflexivity. Qed.

Lemma fetch_metadata_frame (it : Api.Item) (w : World) :
  let it' := (Api.fetch_metadata client_get it w).1 in
  (Api.name it' = Api.name it /\ Api.rarity it' = Api.rarity it /\
   Api.item_class it' = Api.item_class it /\
   Api.image_url it' = Api.image_url it) /\
  (Api.implicit_mods it' = Api.implicit_mods it /\
   Api.explicit_mods it' = Api.explicit_mods it) /\
  Api.stats it' = Api.stats it /\
  kept_or_filled (Api.required_level it) (Api.required_level it') /\
  kept_or_filled (Api.flavour_text it) (Api.flavour_text it') /\
  kept_or_filled (Api.description it) (Api.description it').
Proof.
  unfold Api.fetch_metadata.
  destruct (client_get _ w) as [[| ok [data |]] w1]; cbn [fst];
    try (repeat split; apply kept_or_filled_refl).
  destruct (Api.get_cargoquery data) as [| s_item rest]; cbn [fst];
    [repeat split; apply kept_or_filled_refl |].
  cbn [Api.set_metadata Api.name Api.rarity Api.item_class Api.image_url
       Api.implicit_mods Api.explicit_mods Api.stats Api.required_level
       Api.flavour_text Api.description].
  repeat split; apply py_or_kept_or_filled.
Qed.

Lemma fetch_supplementary_frame (it : Api.Item) (w : World) :
  exists st,
    (Api.fetch_supplementary client_get CARGO_MAPPING lower it w).1
    = Api.set_stats it st.
Proof.
  assert (Hid : it = Api.set_stats it (Api.stats it))
    by (destruct it; reflexivity).
  unfold Api.fetch_supplementary.
  destruct (Models.get_table_for_class _) as [tbl |];
    [| exists (Api.stats it); exact Hid].
  destruct (nonempty tbl); [| exists (Api.stats it); exact Hid].
  destruct (Api.select_valid_fields _ _ _ _) as [| f fs];
    [exists (Api.stats it); exact Hid |].
  destruct (client_get _ w) as [[| ok [data |]] w1].
  - destruct (Api.query_individually _ _ _ _ _ _) as [st w2].
    exists st. reflexivity.
  - destruct (Api.get_cargoquery data) as [| sup_item rest];
      [exists (Api.stats it); exact Hid | eexists; reflexivity].
  - destruct (Api.query_individually _ _ _ _ _ _) as [st w2].
    exists st. reflexivity.
Qed.

(** X10. [populate_item_details] never changes the name, rarity, class or image
    URL of the record.  Each of required level, flavour text and description
    is left as it was or set to a non-empty value, never blanked.  Unless
    mods are requested, the mod fields are left as they were. *)
Theorem populate_item_details_frame (it : Api.Item) (include_mods : bool)
    (w : World) :
  let it' :=
    (Api.populate_item_details client_get CARGO_MAPPING lower unicode_Nd
       expand_template it include_mods w).1 in
  (Api.name it' = Api.name it /\ Api.rarity it' = Api.rarity it /\
   Api.item_class it' = Api.item_class it /\
   Api.image_url it' = Api.image_url it) /\
  kept_or_filled (Api.required_level it) (Api.required_level it') /\
  kept_or_filled (Api.flavour_text it) (Api.flavour_text it') /\
  kept_or_filled (Api.description it) (Api.description it') /\
  (if include_mods then True
   else Api.implicit_mods it' = Api.implicit_mods it /\
        Api.explicit_mods it' = Api.explicit_mods it).
Proof.
  unfold Api.populate_item_details.
  set (step1 :=
    if include_mods
    then let '(mods, w1) :=
           Api.resolve_mods client_get CARGO_MAPPING unicode_Nd
             expand_template (Api.name it) w in
         (Api.set_mods it mods.1 mods.2, w1)
    else (it, w)).
  assert (H1 :
    (Api.name step1.1 = Api.name it /\ Api.rarity step1.1 = Api.rarity it /\
     Api.item_class step1.1 = Api.item_class it /\
     Api.image_url step1.1 = Api.image_url it) /\
    Api.required_level step1.1 = Api.required_level it /\
    Api.flavour_text step1.1 = Api.flavour_text it /\
    Api.description step1.1 = Api.description it /\
    (if include_mods then True
     else Api.implicit_mods step1.1 = Api.implicit_mods it /\
          Api.explicit_mods step1.1 = Api.explicit_mods it)).
  { subst step1. destruct include_mods; [| repeat split].
    destruct (Api.resolve_mods _ _ _ _ _ _) as [mods w1]. repeat split. }
  destruct step1 as [it1 w1]. cbn [fst] in H1.
  pose proof (fetch_metadata_frame it1 w1) as H2. cbn zeta in H2.
  destruct (Api.fetch_metadata client_get it1 w1) as [it2 w2]. cbn [fst] in H2.
  destruct (fetch_supplementary_frame it2 w2) as [st H3].
  cbn zeta. rewrite H3.
  cbn [Api.set_stats Api.name Api.rarity Api.item_class Api.image_url
       Api.implicit_mods Api.explicit_mods Api.required_level
       Api.flavour_text Api.description].
  destruct H1 as ((n1 & r1 & c1 & u1) & l1 & f1 & d1 & m1).
  destruct H2 as ((n2 & r2 & c2 & u2) & (i2 & e2) & _ & l2 & f2 & d2).
  rewrite <- l1, <- f1, <- d1.
  repeat split; try congruence; try assumption.
  destruct include_mods; [exact I |]. destruct m1 as [mi me].
  split; congruence.
Qed.

(** *** The stats mapping *)

Lemma normalized_key_no_space (f : str) :
  SPACE ∉ replace_char SPACE (lit "_") f.
Proof.
  intros Hin. apply replace_char_elem in Hin as [Hin | [_ Hne]];
    [| contradiction].
  apply list_elem_of_singleton in Hin. discriminate Hin.
Qed.

Lemma stats_wf_set (f val : str) (st : list (str * str)) :
  val <> [] -> stats_wf st ->
  stats_wf (dict_set (replace_char SPACE (lit "_") f) val st).
Proof.
  intros Hval [Hnd Hall]. split; [apply dict_set_NoDup; exact Hnd |].
  apply dict_set_Forall; [| exact Hall].
  split; [apply normalized_key_no_space | exact Hval].
Qed.

Lemma store_fields_wf (sup_item : gmap str str) (valid_fields : list str)
    (st : list (str * str)) :
  stats_wf st -> stats_wf (Api.store_fields sup_item valid_fields st).
Proof.
  revert st. induction valid_fields as [| f rest IH]; intros st Hst;
    cbn [Api.store_fields]; [exact Hst |].
  apply IH. destruct (sup_item !! _) as [val |]; [| exact Hst].
  destruct val as [| c val']; [exact Hst |].
  apply stats_wf_set; [discriminate | exact Hst].
Qed.

Lemma query_individually_wf (table safe_name : str) (valid_fields : list str)
    (st : list (str * str)) (w : World) :
  stats_wf st ->
  stats_wf
    (Api.query_individually client_get table safe_name valid_fields st w).1.
Proof.
  revert st w. induction valid_fields as [| f rest IH]; intros st w Hst;
    cbn [Api.query_individually]; [exact Hst |].
  destruct (client_get _ w) as [[| ok [data |]] w1]; try (apply IH; exact Hst).
  apply IH. destruct (Api.get_cargoquery data) as [| r rows]; [exact Hst |].
  destruct (r !! _) as [val |]; [| exact Hst].
  destruct val as [| c val']; [exact Hst |].
  apply stats_wf_set; [discriminate | exact Hst].
Qed.

Lemma fetch_supplementary_wf (it : Api.Item) (w : World) :
  stats_wf (Api.stats it) ->
  stats_wf
    (Api.stats (Api.fetch_supplementary client_get CARGO_MAPPING lower it w).1).
Proof.
  intros Hst. unfold Api.fetch_supplementary.
  destruct (Models.get_table_for_class _) as [tbl |]; [| exact Hst].
  destruct (nonempty tbl); [| exact Hst].
  destruct (Api.select_valid_fields _ _ _ _) as [| f fs] eqn:Hsel;
    [exact Hst |].
  destruct (client_get _ w) as [[| ok [data |]] w1].
  - pose proof (query_individually_wf tbl (Api.escape_quotes (Api.name it))
                  (f :: fs) (Api.stats it) w1 Hst) as Hq.
    destruct (Api.query_individually _ _ _ _ _ _) as [st w2]. exact Hq.
  - destruct (Api.get_cargoquery data) as [| sup_item rest]; [exact Hst |].
    cbn [fst Api.stats Api.set_stats]. apply store_fields_wf. exact Hst.
  - pose proof (query_individually_wf tbl (Api.escape_quotes (Api.name it))
                  (f :: fs) (Api.stats it) w1 Hst) as Hq.
    destruct (Api.query_individually _ _ _ _ _ _) as [st w2]. exact Hq.
Qed.

Lemma populate_item_details_wf (it : Api.Item) (include_mods : bool)
    (w : World) :
  stats_wf (Api.stats it) ->
  stats_wf
    (Api.stats
       (Api.populate_item_details client_get CARGO_MAPPING lower unicode_Nd
          expand_template it include_mods w).1).
Proof.
  intros Hst. unfold Api.populate_item_details.
  set (step1 :=
    if include_mods
    then let '(mods, w1) :=
           Api.resolve_mods client_get CARGO_MAPPING unicode_Nd
             expand_template (Api.name it) w in
         (Api.set_mods it mods.1 mods.2, w1)
    else (it, w)).
  assert (H1 : Api.stats step1.1 = Api.stats it).
  { subst step1. destruct include_mods; [| reflexivity].
    destruct (Api.resolve_mods _ _ _ _ _ _) as [mods w1]. reflexivity. }
  destruct step1 as [it1 w1]. cbn [fst] in H1.
  pose proof (fetch_metadata_frame it1 w1) as H2. cbn zeta in H2.
  destruct (Api.fetch_metadata client_get it1 w1) as [it2 w2]. cbn [fst] in H2.
  destruct H2 as (_ & _ & Hs2 & _).
  apply fetch_supplementary_wf. rewrite Hs2, H1. exact Hst.
Qed.

(** X11. [populate_item_details] keeps the stats mapping well formed: distinct
    keys, no space in a key, no empty value. *)
Theorem populate_item_details_stats (it : Api.Item) (include_mods : bool)
    (w : World) :
  stats_wf (Api.stats it) ->
  stats_wf
    (Api.stats
       (Api.populate_item_details client_get CARGO_MAPPING lower unicode_Nd
          expand_template it include_mods w).1).
Proof. apply populate_item_details_wf. Qed.

End Enrichment.

Lemma populate_item_details_stats_witness :
  stats_wf
    (Api.stats
       (Api.populate_item_details scripted_get armours_catalog ascii_lower
          ascii_only reject_escapes
          (search_hit "Assassin's Garb" "Normal" "Body Armour") false
          (drop 1 evasion_armour_script)).1).
Proof.
  apply (populate_item_details_stats scripted_get armours_catalog ascii_lower
           ascii_only reject_escapes
           (search_hit "Assassin's Garb" "Normal" "Body Armour") false
           (drop 1 evasion_armour_script)).
  split; [apply NoDup_nil_2 | constructor].
Defined.

(** ** Catalog fields *)

Lemma catalog_field_valid (m : gmap str (list str)) (table f : str) :
  f ∈ Models.get_fields_for_table m table ->
  Models.validate_field m table f = true.
Proof.
  intros Hin. unfold Models.validate_field.
  destruct (bool_decide (m = ∅)); [reflexivity |].
  apply orb_true_iff. right. apply bool_decide_eq_true. exact Hin.
Qed.

(** X12. The fields of the batched supplementary query are exactly the catalog
    fields of the table that are not identity fields and match no excluded
    pattern: a field listed for the table always validates, so validation
    removes nothing. *)
Theorem valid_fields_complete (m : gmap str (list str)) (lower : str -> str)
    (table f : str) :
  (f ∈ Api.select_valid_fields m lower table
         (Models.get_fields_for_table m table)) <->
  ((f ∈ Models.get_fields_for_table m table) /\
   (f ∉ Api.identity_fields) /\
   existsb (fun sub => contains sub (lower f)) Api.excluded_patterns = false).
Proof.
  split.
  - intros Hin. apply select_valid_fields_elem in Hin as (H1 & H2 & H3 & _).
    repeat split; assumption.
  - intros (H1 & H2 & H3). apply select_valid_fields_elem.
    repeat split; try assumption. apply catalog_field_valid. exact H1.
Qed.

(** ** Search results and the best match *)

Section SearchResults.

Context {World : Type}.
Variable client_get : Api.params -> World -> Api.http_result * World.
Variable get_image_urls : gset str -> World -> gmap str str * World.
Variable CARGO_MAPPING : gmap str (list str).
Variable lower : str -> str.
Variable unicode_Nd : char -> bool.
Variable expand_template : str -> option (str -> str).

Lemma build_items_bare (raw_results : list (gmap str str))
    (image_urls : gmap str str) (include_mods : bool) (w : World) :
  Api.build_items client_get CARGO_MAPPING lower unicode_Nd expand_template
    raw_results image_urls false include_mods w
  = (map (bare_item image_urls) raw_results, w).
Proof.
  induction raw_results as [| item_data rest IH]; cbn [Api.build_items map];
    [reflexivity |].
  rewrite IH. reflexivity.
Qed.

(** X13. An undetailed search returns one record per row of the answer, in
    order, each with the row's name, rarity and class (["Unknown"] where
    missing or empty) and nothing else but its image URL: the URL that
    [get_image_urls], asked once for the set of the rows' non-empty
    icons, answered for the row's icon.  When no row has an icon, no
    lookup is made and no record has a URL. *)
Theorem query_items_undetailed (name_query : str) (lim : Z)
    (include_mods : bool) (w w1 : World) (data : Api.envelope) :
  Api.search_envelope client_get name_query lim w = (Api.Returns data, w1) ->
  Api.error data = None ->
  let raw_results := Api.get_cargoquery data in
  let lookup :=
    match omap Api.icon_of raw_results with
    | [] => (∅, w1)
    | icon :: icons => get_image_urls (list_to_set (icon :: icons)) w1
    end in
  Api.query_items client_get get_image_urls CARGO_MAPPING lower unicode_Nd
    expand_template name_query lim false include_mods w
  = (Api.Returns (map (bare_item lookup.1) raw_results), lookup.2).
Proof.
  intros Henv Herr raw_results lookup. subst raw_results lookup.
  unfold Api.query_items. rewrite Henv, Herr.
  rewrite bool_decide_eq_false_2 by (intros [x Hx]; discriminate).
  destruct (omap Api.icon_of (Api.get_cargoquery data)) as [| icon icons].
  - rewrite bool_decide_eq_true_2 by reflexivity.
    rewrite build_items_bare. reflexivity.
  - rewrite bool_decide_eq_false_2.
    + destruct (get_image_urls (list_to_set (icon :: icons)) w1)
        as [image_urls w2].
      rewrite build_items_bare. reflexivity.
    + intros Hempty.
      assert (Hin : icon ∈ (list_to_set (icon :: icons) : gset str))
        by (apply elem_of_list_to_set, list_elem_of_here).
      rewrite Hempty in Hin. exact (not_elem_of_empty icon Hin).
Qed.

Lemma first_match_found (test : Api.Item -> bool) (results : list Api.Item)
    (r : Api.Item) :
  r ∈ results -> test r = true ->
  exists it, Api.first_match test results = Some it.
Proof.
  induction results as [| x rest IH]; intros Hin Ht; [inversion Hin |].
  cbn [Api.first_match]. destruct (test x) eqn:Hx; [eexists; reflexivity |].
  apply elem_of_cons in Hin as [-> | Hin]; [congruence |].
  apply IH; assumption.
Qed.

(** X14. When a search result has the queried name up to case,
    [get_item_details] returns a record with that name up to case, even if
    earlier results only contain the query. *)
Theorem exact_match_preferred (query : str) (include_mods : bool)
    (w w1 : World) (results : list Api.Item) (r : Api.Item) :
  Api.query_items client_get get_image_urls CARGO_MAPPING lower unicode_Nd
    expand_template query 10 false true w
  = (Api.Returns results, w1) ->
  r ∈ results ->
  lower (Api.name r) = lower query ->
  exists it w2,
    Api.get_item_details client_get get_image_urls CARGO_MAPPING lower
      unicode_Nd expand_template query include_mods w
    = (Api.Returns (Some it), w2) /\
    lower (Api.name it) = lower query.
Proof.
  intros Hq Hin Hr. unfold Api.get_item_details. rewrite Hq.
  destruct results as [| x rest]; [inversion Hin |].
  destruct (first_match_found (Api.exact_match lower query) (x :: rest) r Hin)
    as [target Ht].
  { unfold Api.exact_match. apply bool_decide_eq_true. exact Hr. }
  unfold Api.best_match. rewrite Ht.
  apply first_match_Some in Ht as [_ Ht].
  unfold Api.exact_match in Ht. apply bool_decide_eq_true in Ht.
  pose proof (populate_item_details_name client_get CARGO_MAPPING lower
                unicode_Nd expand_template target include_mods w1) as Hname.
  destruct (Api.populate_item_details client_get CARGO_MAPPING lower
              unicode_Nd expand_template target include_mods w1) as [it w2].
  exists it, w2. split; [reflexivity |]. cbn [fst] in Hname.
  rewrite Hname. exact Ht.
Qed.

(** X15. When a search result contains the query up to case,
    [get_item_details] returns a record, not [None]. *)
Theorem substring_match_returned (query : str) (include_mods : bool)
    (w w1 : World) (results : list Api.Item) (r : Api.Item) :
  Api.query_items client_get get_image_urls CARGO_MAPPING lower unicode_Nd
    expand_template query 10 false true w
  = (Api.Returns results, w1) ->
  r ∈ results ->
  contains (lower query) (lower (Api.name r)) = true ->
  exists it w2,
    Api.get_item_details client_get get_image_urls CARGO_MAPPING lower
      unicode_Nd expand_template query include_mods w
    = (Api.Returns (Some it), w2).
Proof.
  intros Hq Hin Hr. unfold Api.get_item_details. rewrite Hq.
  destruct results as [| x rest]; [inversion Hin |].
  unfold Api.best_match.
  destruct (Api.first_match (Api.exact_match lower query) (x :: rest))
    as [target |].
  - destruct (Api.populate_item_details _ _ _ _ _ target include_mods w1)
      as [it w2].
    exists it, w2. reflexivity.
  - destruct (first_match_found (Api.substring_match lower query)
                (x :: rest) r Hin Hr) as [target ->].
    destruct (Api.populate_item_details _ _ _ _ _ target include_mods w1)
      as [it w2].
    exists it, w2. reflexivity.
Qed.

(** X16. A record returned by [get_item_details] has a well-formed stats
    mapping: distinct keys, no space in a key, no empty value. *)
Theorem get_item_details_stats (query : str) (include_mods : bool)
    (w w2 : World) (it : Api.Item) :
  Api.get_item_details client_get get_image_urls CARGO_MAPPING lower
    unicode_Nd expand_template query include_mods w
  = (Api.Returns (Some it), w2) ->
  stats_wf (Api.stats it).
Proof.
  unfold Api.get_item_details.
  destruct (Api.query_items client_get get_image_urls CARGO_MAPPING lower
              unicode_Nd expand_template query 10 false true w)
    as [[results |] w1] eqn:Hq; [| discriminate].
  destruct results as [| x rest]; [discriminate |].
  destruct (Api.best_match lower query (x :: rest)) as [target |] eqn:Hbest;
    [| discriminate].
  assert (Hin : target ∈ x :: rest).
  { unfold Api.best_match in Hbest.
    destruct (Api.first_match (Api.exact_match lower query) (x :: rest))
      as [y |] eqn:He.
    - injection Hbest as ->. apply first_match_Some in He as [Hy _]. exact Hy.
    - apply first_match_Some in Hbest as [Hy _]. exact Hy. }
  assert (Hbare : Api.stats target = []).
  { unfold Api.query_items in Hq.
    destruct (Api.search_envelope client_get query 10 w) as [[data |] w0];
      [| discriminate].
    destruct (bool_decide (is_Some (Api.error data))).
    { injection Hq as Hq _. rewrite <- Hq in Hin. inversion Hin. }
    destruct (if bool_decide _ then _ else _) as [image_urls w'].
    rewrite build_items_bare in Hq. injection Hq as Hq _.
    rewrite <- Hq in Hin. apply list_elem_of_fmap in Hin as (row0 & -> & _).
    reflexivity. }
  pose proof (populate_item_details_wf client_get CARGO_MAPPING lower
                unicode_Nd expand_template target include_mods w1) as Hwf.
  destruct (Api.populate_item_details client_get CARGO_MAPPING lower
              unicode_Nd expand_template target include_mods w1) as [it' w'].
  intros [= <- <-]. apply Hwf. rewrite Hbare.
  split; [apply NoDup_nil_2 | constructor].
Qed.

End SearchResults.

Lemma query_items_undetailed_witness :
  Api.query_items scripted_get icon_cdn ∅ ascii_lower ascii_only
    reject_escapes (lit "starforge") 10 false true
    [rows_response icon_hit_rows]
  = (Api.Returns
       (map (bare_item
               (icon_cdn
                  (list_to_set [lit "File:Starforge inventory icon.png"])
                  []).1)
          icon_hit_rows), []) /\
  map Api.image_url
    (map (bare_item
            (icon_cdn
               (list_to_set [lit "File:Starforge inventory icon.png"])
               []).1)
       icon_hit_rows)
  = [Some (lit "https://cdn.poewiki.net/File:Starforge inventory icon.png")].
Proof.
  split; [| vm_compute; reflexivity].
  apply (query_items_undetailed scripted_get icon_cdn ∅ ascii_lower
           ascii_only reject_escapes (lit "starforge") 10 true
           [rows_response icon_hit_rows] []
           {| Api.error := None; Api.cargoquery := Some icon_hit_rows |});
    reflexivity.
Defined.

Lemma exact_match_preferred_witness :
  exists it w2,
    Api.get_item_details scripted_get no_images ∅ ascii_lower ascii_only
      reject_escapes (lit "starforge") false two_hits_script
    = (Api.Returns (Some it), w2) /\
    ascii_lower (Api.name it) = ascii_lower (lit "starforge").
Proof.
  apply (exact_match_preferred scripted_get no_images ∅ ascii_lower
           ascii_only reject_escapes (lit "starforge") false
           two_hits_script []
           [search_hit "Replica Starforge" "Unique" "Two-Handed Sword";
            search_hit "Starforge" "Unique" "Two-Handed Sword"]
           (search_hit "Starforge" "Unique" "Two-Handed Sword")).
  - vm_compute. reflexivity.
  - apply list_elem_of_further, list_elem_of_here.
  - vm_compute. reflexivity.
Defined.

Lemma substring_match_returned_witness :
  exists it w2,
    Api.get_item_details scripted_get no_images ∅ ascii_lower ascii_only
      reject_escapes (lit "forge") false two_hits_script
    = (Api.Returns (Some it), w2).
Proof.
  apply (substring_match_returned scripted_get no_images ∅ ascii_lower
           ascii_only reject_escapes (lit "forge") false
           two_hits_script []
           [search_hit "Replica Starforge" "Unique" "Two-Handed Sword";
            search_hit "Starforge" "Unique" "Two-Handed Sword"]
           (search_hit "Replica Starforge" "Unique" "Two-Handed Sword")).
  - vm_compute. reflexivity.
  - apply list_elem_of_here.
  - vm_compute. reflexivity.
Defined.

Lemma get_item_details_stats_witness :
  stats_wf (Api.stats evasion_armour).
Proof.
  apply (get_item_details_stats scripted_get no_images armours_catalog
           ascii_lower ascii_only reject_escapes (lit "Assassin's Garb")
           false evasion_armour_script []).
  vm_compute. reflexivity.
Defined.

(** ** Handlers *)

Lemma unique_loop_spec (results : list Api.Item)
    (seen_items : gset (str * str * str)) (unique : list Api.Item) :
  (forall k, k ∈ seen_items <-> k ∈ map Handlers.item_key unique) ->
  NoDup (map Handlers.item_key unique) ->
  NoDup (map Handlers.item_key (Handlers.unique_loop results seen_items unique))
  /\
  (forall k,
     k ∈ map Handlers.item_key (Handlers.unique_loop results seen_items unique)
     <-> k ∈ map Handlers.item_key unique \/ k ∈ map Handlers.item_key results)
  /\
  exists kept,
    Handlers.unique_loop results seen_items unique = unique ++ kept /\
    kept `sublist_of` results.
Proof.
  revert seen_items unique.
  induction results as [| it rest IH]; intros seen_items unique Hseen Hnd;
    cbn [Handlers.unique_loop].
  - split; [exact Hnd |]. split.
    + intros k. cbn [map]. split; [intros H; left; exact H |].
      intros [H | H]; [exact H | inversion H].
    + exists []. rewrite app_nil_r. split; [reflexivity | apply sublist_nil].
  - case_bool_decide as Hin.
    + destruct (IH seen_items unique Hseen Hnd) as (H1 & H2 & kept & H3 & H4).
      split; [exact H1 |]. split.
      * intros k. rewrite H2. cbn [map]. rewrite elem_of_cons.
        split; [tauto |]. intros [H | [-> | H]]; [tauto | | tauto].
        left. apply Hseen. exact Hin.
      * exists kept. split; [exact H3 | apply sublist_cons; exact H4].
    + assert (Hseen' : forall k,
        k ∈ ({[Handlers.item_key it]} ∪ seen_items : gset (str * str * str))
        <-> k ∈ map Handlers.item_key (unique ++ [it])).
      { intros k. rewrite map_app, elem_of_app, elem_of_union,
          elem_of_singleton, <- Hseen. cbn [map].
        rewrite list_elem_of_singleton. tauto. }
      assert (Hnd' : NoDup (map Handlers.item_key (unique ++ [it]))).
      { rewrite map_app. cbn [map]. apply NoDup_app. split; [exact Hnd |].
        split; [| apply NoDup_singleton].
        intros k Hk Hk'. apply list_elem_of_singleton in Hk'. subst k.
        apply Hin. apply Hseen. exact Hk. }
      destruct (IH _ _ Hseen' Hnd') as (H1 & H2 & kept & H3 & H4).
      split; [exact H1 |]. split.
      * intros k. rewrite H2, map_app, elem_of_app. cbn [map].
        rewrite list_elem_of_singleton, elem_of_cons. tauto.
      * exists (it :: kept). rewrite H3, <- app_assoc.
        split; [reflexivity | apply sublist_skip; exact H4].
Qed.

(** X17. The deduplication of [inline_query] keeps a subsequence of the search
    results in which every (name, class, rarity) key of the results occurs
    exactly once. *)
Theorem unique_results_spec (results : list Api.Item) :
  NoDup (map Handlers.item_key (Handlers.unique_results results)) /\
  (forall k,
     k ∈ map Handlers.item_key (Handlers.unique_results results)
     <-> k ∈ map Handlers.item_key results) /\
  Handlers.unique_results results `sublist_of` results.
Proof.
  unfold Handlers.unique_results.
  destruct (unique_loop_spec results ∅ []) as (H1 & H2 & kept & H3 & H4).
  - intros k. cbn [map]. split; intros H; [set_solver | inversion H].
  - apply NoDup_nil_2.
  - split; [exact H1 |]. split.
    + intros k. rewrite H2. cbn [map]. split; [| tauto].
      intros [H | H]; [inversion H | exact H].
    + rewrite H3. exact H4.
Qed.

Lemma split_head (sep : char) (a rest : str) :
  sep ∉ a ->
  Handlers.split sep (a ++ sep :: rest) = a :: Handlers.split sep rest.
Proof.
  induction a as [| c a IH]; intros Ha; cbn [app Handlers.split].
  - rewrite N.eqb_refl. reflexivity.
  - destruct (c =? sep)%N eqn:Hc.
    + apply N.eqb_eq in Hc. subst c. exfalso. apply Ha. apply list_elem_of_here.
    + rewrite IH; [reflexivity |]. intros Hin. apply Ha.
      apply elem_of_cons. right. exact Hin.
Qed.

Lemma split_whole (sep : char) (a : str) :
  sep ∉ a -> Handlers.split sep a = [a].
Proof.
  induction a as [| c a IH]; intros Ha; cbn [Handlers.split]; [reflexivity |].
  destruct (c =? sep)%N eqn:Hc.
  - apply N.eqb_eq in Hc. subst c. exfalso. apply Ha. apply list_elem_of_here.
  - rewrite IH; [reflexivity |]. intros Hin. apply Ha.
    apply elem_of_cons. right. exact Hin.
Qed.

Lemma startswith_app (p s : str) : startswith p (p ++ s) = true.
Proof.
  induction p as [| c p IH]; [reflexivity |].
  cbn [app startswith]. rewrite N.eqb_refl. exact IH.
Qed.

Lemma contains_app (p a b : str) : contains p (a ++ p ++ b) = true.
Proof.
  induction a as [| c a IH]; cbn [app].
  - destruct (p ++ b) eqn:Hs; cbn [contains]; rewrite <- Hs, startswith_app;
      reflexivity.
  - cbn [contains]. rewrite IH. apply orb_true_r.
Qed.

Lemma chosen_item_name_cut (a rest : str) :
  PIPE ∉ a -> Handlers.chosen_item_name (a ++ lit "|" ++ rest) = a.
Proof.
  intros Ha. unfold Handlers.chosen_item_name.
  rewrite contains_app. change (lit "|" ++ rest) with (PIPE :: rest).
  rewrite split_head by exact Ha. reflexivity.
Qed.

Lemma on_callback_query_cut (a : str) (pieces : list str) (s : str) :
  Handlers.split PIPE s = a :: pieces ->
  Handlers.on_callback_query (Some (Handlers.callback_data s))
  = Handlers.Resolve a.
Proof.
  intros Hs. unfold Handlers.on_callback_query, Handlers.callback_data.
  rewrite startswith_app.
  change (nonempty (lit "resolve|" ++ s)) with true. cbn [negb orb].
  change (lit "resolve|" ++ s) with (lit "resolve" ++ PIPE :: s).
  rewrite split_head.
  - rewrite Hs. reflexivity.
  - intros Hin. apply (bool_decide_pack _) in Hin. vm_compute in Hin.
    exact Hin.
Qed.

(** X18. An item name without [|] survives both ways back to the resolver: it
    is what [on_chosen_inline_result] reads from the result id built by
    [inline_query], and what [on_callback_query] reads from the callback
    data of the button. *)
Theorem item_name_round_trip (item_name uuid8 : str) :
  PIPE ∉ item_name ->
  Handlers.chosen_item_name (Handlers.result_id item_name uuid8) = item_name /\
  Handlers.on_callback_query (Some (Handlers.callback_data item_name))
  = Handlers.Resolve item_name.
Proof.
  intros Hname. split.
  - apply chosen_item_name_cut. exact Hname.
  - apply (on_callback_query_cut item_name []). apply split_whole. exact Hname.
Qed.

Lemma item_name_round_trip_witness :
  Handlers.chosen_item_name
    (Handlers.result_id (lit "Atziri's Promise") (lit "0a1b2c3d"))
  = lit "Atziri's Promise" /\
  Handlers.on_callback_query
    (Some (Handlers.callback_data (lit "Atziri's Promise")))
  = Handlers.Resolve (lit "Atziri's Promise").
Proof.
  apply (item_name_round_trip (lit "Atziri's Promise") (lit "0a1b2c3d")).
  intros Hin. apply (bool_decide_pack _) in Hin. vm_compute in Hin. exact Hin.
Defined.

(** X19. An item name with a [|] does not survive: both handlers resolve the
    part before its first [|]. *)
Theorem item_name_cut_at_pipe (a b uuid8 : str) :
  PIPE ∉ a ->
  Handlers.chosen_item_name (Handlers.result_id (a ++ lit "|" ++ b) uuid8) = a /\
  Handlers.on_callback_query
    (Some (Handlers.callback_data (a ++ lit "|" ++ b)))
  = Handlers.Resolve a.
Proof.
  intros Ha. split.
  - unfold Handlers.result_id. rewrite <- !app_assoc.
    apply chosen_item_name_cut. exact Ha.
  - apply (on_callback_query_cut a (Handlers.split PIPE b)).
    change (lit "|" ++ b) with (PIPE :: b). apply split_head. exact Ha.
Qed.

Lemma item_name_cut_at_pipe_witness :
  Handlers.chosen_item_name
    (Handlers.result_id (lit "Left" ++ lit "|" ++ lit "Right") (lit "0a1b2c3d"))
  = lit "Left" /\
  Handlers.on_callback_query
    (Some (Handlers.callback_data (lit "Left" ++ lit "|" ++ lit "Right")))
  = Handlers.Resolve (lit "Left").
Proof.
  apply (item_name_cut_at_pipe (lit "Left") (lit "Right") (lit "0a1b2c3d")).
  intros Hin. apply (bool_decide_pack _) in Hin. vm_compute in Hin. exact Hin.
Defined.

Lemma startswith_inv (p s : str) :
  startswith p s = true -> exists t, s = p ++ t.
Proof.
  revert s. induction p as [| c p IH]; intros s Hs; [exists s; reflexivity |].
  destruct s as [| x s']; [discriminate |]. cbn [startswith] in Hs.
  apply andb_true_iff in Hs as [Hc Hs]. apply N.eqb_eq in Hc. subst x.
  destruct (IH s' Hs) as [t ->]. exists t. reflexivity.
Qed.

Lemma split_nonempty (sep : char) (s : str) : Handlers.split sep s <> [].
Proof.
  destruct s as [| c s']; cbn [Handlers.split]; [discriminate |].
  destruct (c =? sep)%N; [discriminate |].
  destruct (Handlers.split sep s'); discriminate.
Qed.

(** X20. [on_callback_query] never fails on its index: data that passes the
    ["resolve|"] test always splits into at least two pieces. *)
Theorem on_callback_query_in_range (data : option str) :
  Handlers.on_callback_query data <> Handlers.IndexError.
Proof.
  unfold Handlers.on_callback_query. destruct data as [d |]; [| discriminate].
  destruct (negb (nonempty d)); cbn [orb]; [discriminate |].
  destruct (startswith (lit "resolve|") d) eqn:Hs; cbn [negb];
    [| discriminate].
  apply startswith_inv in Hs as [t ->].
  change (lit "resolve|" ++ t) with (lit "resolve" ++ PIPE :: t).
  rewrite split_head.
  - pose proof (split_nonempty PIPE t) as Hne.
    destruct (Handlers.split PIPE t); [contradiction | discriminate].
  - intros Hin. apply (bool_decide_pack _) in Hin. vm_compute in Hin.
    exact Hin.
Qed.

Lemma lstrip_app (chars : list char) (lead s : str) :
  Forall (fun c => c ∈ chars) lead ->
  Handlers.lstrip chars (lead ++ s) = Handlers.lstrip chars s.
Proof.
  induction 1 as [| c lead Hc _ IH]; [reflexivity |].
  cbn [app Handlers.lstrip]. rewrite bool_decide_eq_true_2 by exact Hc.
  exact IH.
Qed.

Lemma lstrip_stop (chars : list char) (s : str) :
  (forall c, head s = Some c -> c ∉ chars) -> Handlers.lstrip chars s = s.
Proof.
  destruct s as [| c s']; [reflexivity |]. intros Hh.
  cbn [Handlers.lstrip]. rewrite bool_decide_eq_false_2; [reflexivity |].
  apply Hh. reflexivity.
Qed.

Lemma strip_padding (chars : list char) (lead name trail : str) :
  Forall (fun c => c ∈ chars) lead -> Forall (fun c => c ∈ chars) trail ->
  (forall c, head name = Some c -> c ∉ chars) ->
  (forall c, last name = Some c -> c ∉ chars) ->
  Handlers.strip chars (lead ++ name ++ trail) = name.
Proof.
  intros Hlead Htrail Hhead Hlast. unfold Handlers.strip.
  rewrite lstrip_app by exact Hlead.
  destruct name as [| c name'].
  - cbn [app]. rewrite <- (app_nil_r trail) at 1.
    rewrite lstrip_app by exact Htrail. cbn [Handlers.lstrip rev].
    reflexivity.
  - rewrite (lstrip_stop chars ((c :: name') ++ trail))
      by (intros x [= <-]; apply Hhead; reflexivity).
    assert (Hrev : Forall (fun x => x ∈ chars) (rev trail)).
    { apply Forall_forall. intros x Hx. rewrite Forall_forall in Htrail.
      apply Htrail. apply list_elem_of_In, in_rev, list_elem_of_In.
      exact Hx. }
    rewrite rev_app_distr, lstrip_app by exact Hrev.
    rewrite lstrip_stop; [apply rev_involutive |].
    intros x Hx. apply Hlast.
    assert (Hl : last (rev (rev (c :: name'))) = Some x).
    { destruct (rev (c :: name')) as [| y l]; [discriminate |].
      cbn [head] in Hx. injection Hx as ->. cbn [rev].
      apply last_snoc. }
    rewrite rev_involutive in Hl. exact Hl.
Qed.

(** X21. [on_message] recovers the item name from the first line of the
    placeholder message, whatever spaces and zero-width joiners surround
    it, provided the name itself neither starts nor ends with one and has
    no line break. *)
Theorem on_message_item_name (lead item_name trail rest : str) :
  Forall (fun c => c ∈ [SPACE; Handlers.ZWJ]) lead ->
  Forall (fun c => c ∈ [SPACE; Handlers.ZWJ]) trail ->
  (forall c, head item_name = Some c -> c ∉ [SPACE; Handlers.ZWJ]) ->
  (forall c, last item_name = Some c -> c ∉ [SPACE; Handlers.ZWJ]) ->
  NEWLINE ∉ item_name ->
  contains (lit "Loading full details...") rest = true ->
  Handlers.on_message
    (Some ((lead ++ item_name ++ trail) ++ NEWLINE :: rest))
  = Handlers.Resolve item_name.
Proof.
  intros Hlead Htrail Hhead Hlast Hnl Hmark. unfold Handlers.on_message.
  assert (Hne : nonempty ((lead ++ item_name ++ trail) ++ NEWLINE :: rest)
                = true).
  { destruct ((lead ++ item_name ++ trail)); reflexivity. }
  assert (Hc : contains (lit "Loading full details...")
                 ((lead ++ item_name ++ trail) ++ NEWLINE :: rest) = true).
  { clear -Hmark. induction (lead ++ item_name ++ trail) as [| c a IH].
    - cbn [app]. cbn [contains]. rewrite orb_true_iff. right. exact Hmark.
    - cbn [app contains]. rewrite IH. apply orb_true_r. }
  rewrite Hne, Hc. cbn [andb].
  rewrite split_head.
  - rewrite strip_padding by assumption. reflexivity.
  - intros Hin.
    assert (Hpad : forall l, Forall (fun c => c ∈ [SPACE; Handlers.ZWJ]) l ->
                     NEWLINE ∉ l).
    { intros l Hl Hn. rewrite Forall_forall in Hl. apply Hl in Hn.
      apply (bool_decide_pack _) in Hn. vm_compute in Hn. exact Hn. }
    repeat (apply elem_of_app in Hin as [Hin | Hin]);
      [exact (Hpad _ Hlead Hin) | contradiction | exact (Hpad _ Htrail Hin)].
Qed.

Lemma on_message_item_name_witness :
  Handlers.on_message
    (Some (([Handlers.ZWJ] ++ lit "Starforge" ++ [])
             ++ NEWLINE
                  :: lit "Two-Handed Sword" ++ [NEWLINE; NEWLINE]
                       ++ lit "Loading full details..."))
  = Handlers.Resolve (lit "Starforge").
Proof.
  apply (on_message_item_name [Handlers.ZWJ] (lit "Starforge") []
           (lit "Two-Handed Sword" ++ [NEWLINE; NEWLINE]
              ++ lit "Loading full details...")).
  - repeat constructor.
  - constructor.
  - intros c [= <-] Hin. apply (bool_decide_pack _) in Hin.
    vm_compute in Hin. exact Hin.
  - intros c [= <-] Hin. apply (bool_decide_pack _) in Hin.
    vm_compute in Hin. exact Hin.
  - intros Hin. apply (bool_decide_pack _) in Hin. vm_compute in Hin.
    exact Hin.
  - vm_compute. reflexivity.
Defined.

(** ** Rendering *)

Section DictDelFacts.

Context {K V : Type} `{EqDecision K}.
Implicit Types (d : list (K * V)) (k : K).

Lemma dict_get_elem k (v : V) d : dict_get k d = Some v -> (k, v) ∈ d.
Proof.
  induction d as [| [a x] d IH]; [discriminate |]. cbn [dict_get].
  destruct (decide (a = k)) as [-> | _].
  - intros [= ->]. apply list_elem_of_here.
  - intros Hg. apply list_elem_of_further, IH, Hg.
Qed.

Lemma dict_del_foldr k (ks : list K) d :
  foldr dict_del (dict_del k d) ks = dict_del k (foldr dict_del d ks).
Proof.
  induction ks as [| a ks IH]; [reflexivity |].
  cbn [foldr]. rewrite IH. apply dict_del_comm.
Qed.

Lemma dict_del_absorb k (ks : list K) d :
  k ∈ ks -> foldr dict_del (dict_del k d) ks = foldr dict_del d ks.
Proof.
  induction ks as [| a ks IH]; intros Hin; [inversion Hin |].
  cbn [foldr]. apply elem_of_cons in Hin as [<- | Hin].
  - rewrite dict_del_foldr. apply dict_del_idem.
  - rewrite IH by exact Hin. reflexivity.
Qed.

End DictDelFacts.

Lemma join_cons2 (sep x y : str) (rest : list str) :
  join sep (x :: y :: rest) = x ++ sep ++ join sep (y :: rest).
Proof. reflexivity. Qed.

Lemma replace_fuel_elem (n : nat) (old new s : str) (x : char) :
  x ∈ replace_fuel n old new s -> x ∈ new \/ x ∈ s.
Proof.
  revert s. induction n as [| n IH]; intros s; cbn [replace_fuel];
    [right; assumption |].
  destruct s as [| c s']; [right; assumption |].
  destruct (startswith old (c :: s')).
  - intros Hin. apply elem_of_app in Hin as [Hin | Hin]; [left; exact Hin |].
    apply IH in Hin as [Hin | Hin]; [left; exact Hin | right].
    apply list_elem_of_In. apply list_elem_of_In in Hin.
    rewrite <- (take_drop (length old) (c :: s')). apply in_or_app. right.
    exact Hin.
  - intros Hin. apply elem_of_cons in Hin as [-> | Hin].
    + right. apply list_elem_of_here.
    + apply IH in Hin as [Hin | Hin]; [left; exact Hin |].
      right. apply list_elem_of_further. exact Hin.
Qed.

Lemma replace_fuel_absent (n : nat) (c : char) (old' new s : str) :
  c ∉ s -> replace_fuel n (c :: old') new s = s.
Proof.
  revert n. induction s as [| x s IH]; intros n Hc;
    destruct n as [| n]; try reflexivity.
  cbn [replace_fuel startswith].
  apply not_elem_of_cons in Hc as [Hx Hs].
  rewrite (proj2 (N.eqb_neq c x)) by exact Hx. cbn [andb].
  rewrite IH by exact Hs. reflexivity.
Qed.

Lemma replace_fuel_miss (n : nat) (old new : str) (x : char) (s : str) :
  startswith old (x :: s) = false ->
  replace_fuel (S n) old new (x :: s) = x :: replace_fuel n old new s.
Proof. intros H. cbn [replace_fuel]. rewrite H. reflexivity. Qed.

Lemma replace_fuel_skip (a t : str) (n : nat) (c : char) (old' new : str) :
  c ∉ a -> length (a ++ t) <= n ->
  replace_fuel n (c :: old') new (a ++ t)
  = a ++ replace_fuel n (c :: old') new t.
Proof.
  revert n. induction a as [| x a IH]; intros n Hc Hn; [reflexivity |].
  cbn [app length] in *. destruct n as [| n]; [lia |].
  apply not_elem_of_cons in Hc as [Hx Ha].
  rewrite replace_fuel_miss
    by (cbn [startswith]; rewrite (proj2 (N.eqb_neq c x)) by exact Hx;
        reflexivity).
  rewrite IH by (exact Ha || lia). f_equal. f_equal.
  rewrite length_app in Hn.
  apply replace_fuel_enough; [discriminate | lia | lia].
Qed.

Lemma replace_fuel_hit (old new t : str) (n : nat) :
  old <> [] -> length (old ++ t) <= n ->
  replace_fuel n old new (old ++ t) = new ++ replace_fuel n old new t.
Proof.
  intros Hold Hn. rewrite length_app in Hn.
  destruct old as [| c old']; [contradiction |].
  destruct n as [| n]; [cbn [length] in Hn; lia |].
  change (replace_fuel (S n) (c :: old') new ((c :: old') ++ t))
    with (if startswith (c :: old') ((c :: old') ++ t)
          then new ++ replace_fuel n (c :: old') new
                        (drop (length (c :: old')) ((c :: old') ++ t))
          else c :: replace_fuel n (c :: old') new (old' ++ t)).
  rewrite startswith_app, drop_app_length. f_equal.
  cbn [length] in Hn.
  apply replace_fuel_enough; [discriminate | lia | lia].
Qed.

Lemma replace_join (old' new : str) (lines : list str) (n : nat) :
  Forall (fun l => AMP ∉ l) lines ->
  length (join (AMP :: old') lines) <= n ->
  replace_fuel n (AMP :: old') new (join (AMP :: old') lines)
  = join new lines.
Proof.
  intros Hl. revert n. induction Hl as [| x rest Hx Hrest IH]; intros n Hn.
  - destruct n; reflexivity.
  - destruct rest as [| y rest].
    + cbn [join]. apply replace_fuel_absent. exact Hx.
    + rewrite join_cons2 in Hn. rewrite !join_cons2.
      rewrite !length_app in Hn.
      rewrite replace_fuel_skip by (exact Hx || (rewrite !length_app; lia)).
      rewrite replace_fuel_hit by (discriminate || (rewrite length_app; lia)).
      rewrite IH by lia. reflexivity.
Qed.

Lemma join_not_elem (c : char) (sep : str) (lines : list str) :
  c ∉ sep -> Forall (fun l => c ∉ l) lines -> c ∉ join sep lines.
Proof.
  intros Hsep. induction 1 as [| x rest Hx Hrest IH].
  - cbn [join]. apply not_elem_of_nil.
  - destruct rest as [| y rest]; [exact Hx |].
    rewrite join_cons2. intros Hin.
    apply elem_of_app in Hin as [Hin | Hin]; [exact (Hx Hin) |].
    apply elem_of_app in Hin as [Hin | Hin]; [exact (Hsep Hin) |].
    exact (IH Hin).
Qed.

Lemma html_escape_app (a b : str) :
  Bot.html_escape (a ++ b) = Bot.html_escape a ++ Bot.html_escape b.
Proof. apply flat_map_app. Qed.

Lemma html_escape_plain (s : str) :
  html_plain s -> Bot.html_escape s = s.
Proof.
  induction 1 as [| c s Hc Hs IH]; [reflexivity |].
  unfold Bot.html_escape in *. cbn [flat_map]. rewrite IH.
  rewrite !not_elem_of_cons in Hc.
  destruct Hc as (H1 & H2 & H3 & H4 & H5 & _).
  rewrite (proj2 (N.eqb_neq c AMP)), (proj2 (N.eqb_neq c LT)),
    (proj2 (N.eqb_neq c GT)), (proj2 (N.eqb_neq c DQUOTE)),
    (proj2 (N.eqb_neq c QUOTE)) by assumption.
  reflexivity.
Qed.

Lemma html_escape_elem (s : str) (x : char) :
  x ∈ Bot.html_escape s -> x ∉ [LT; GT; DQUOTE; QUOTE].
Proof.
  assert (Hlit : forall l : str,
            bool_decide (Forall (fun y => y ∉ [LT; GT; DQUOTE; QUOTE]) l)
            = true -> x ∈ l -> x ∉ [LT; GT; DQUOTE; QUOTE]).
  { intros l Hl Hin. apply bool_decide_eq_true in Hl.
    rewrite Forall_forall in Hl. apply Hl. exact Hin. }
  induction s as [| c s IH]; [intros Hin; inversion Hin |].
  unfold Bot.html_escape in *. cbn [flat_map]. intros Hin.
  apply elem_of_app in Hin as [Hin | Hin]; [| exact (IH Hin)].
  destruct (c =? AMP)%N eqn:E1; [refine (Hlit _ _ Hin); vm_compute; reflexivity |].
  destruct (c =? LT)%N eqn:E2; [refine (Hlit _ _ Hin); vm_compute; reflexivity |].
  destruct (c =? GT)%N eqn:E3; [refine (Hlit _ _ Hin); vm_compute; reflexivity |].
  destruct (c =? DQUOTE)%N eqn:E4; [refine (Hlit _ _ Hin); vm_compute; reflexivity |].
  destruct (c =? QUOTE)%N eqn:E5; [refine (Hlit _ _ Hin); vm_compute; reflexivity |].
  apply list_elem_of_singleton in Hin. subst x.
  apply N.eqb_neq in E2, E3, E4, E5.
  rewrite !not_elem_of_cons. repeat split; try assumption.
  apply not_elem_of_nil.
Qed.

Lemma markup_free_app (a b : str) :
  markup_free a -> markup_free b -> markup_free (a ++ b).
Proof.
  intros [Ha1 Ha2] [Hb1 Hb2].
  split; intros Hin; apply elem_of_app in Hin as [Hin | Hin]; tauto.
Qed.

Lemma markup_free_escape (s : str) : markup_free (Bot.html_escape s).
Proof.
  split; intros Hin; apply html_escape_elem in Hin; apply Hin;
    repeat (first [apply list_elem_of_here | apply list_elem_of_further]).
Qed.

Lemma format_map_markup_free :
  Forall (fun e : str * (str * str) =>
            markup_free e.2.1 /\ markup_free e.2.2) Bot.format_map.
Proof.
  unfold Bot.format_map.
  repeat (apply Forall_cons; split;
          [split; split; intros Hin; apply (bool_decide_pack _) in Hin;
           vm_compute in Hin; exact Hin |]).
  apply Forall_nil. trivial.
Qed.

Lemma format_map_not_physical :
  Forall (fun k => Forall (fun r => r ∉ physical_keys) (popped_with k))
    (map fst Bot.format_map).
Proof. apply (bool_decide_unpack _). vm_compute. exact I. Qed.

Lemma prefers_spec (fm : list (str * (str * str))) (rk raw : str) :
  prefers fm rk raw = true ->
  rk ∈ map fst fm /\ raw ∈ popped_with rk /\ raw <> rk.
Proof.
  induction fm as [| [key fmt] fm IH]; cbn [prefers]; [discriminate |].
  destruct (decide (key = rk)) as [-> | Hk].
  - rewrite (bool_decide_eq_true_2 (rk = rk)) by reflexivity.
    intros H. apply andb_true_iff in H as [H1 H2].
    apply bool_decide_eq_true in H1.
    apply negb_true_iff, bool_decide_eq_false in H2.
    split; [cbn [map fst]; apply list_elem_of_here | split; assumption].
  - rewrite (bool_decide_eq_false_2 (key = rk)) by exact Hk.
    intros H. apply andb_true_iff in H as [_ H].
    destruct (IH H) as (? & ? & ?).
    split; [cbn [map fst]; apply list_elem_of_further; assumption |].
    split; assumption.
Qed.

Lemma popped_with_range (rk raw : str) :
  raw ∈ popped_with rk -> raw <> rk ->
  contains (lit "_range_text") rk = true /\
  raw ∈ [replace (lit "_range_text") [] rk ++ lit "_max";
         replace (lit "_range_text") [] rk ++ lit "_min";
         replace (lit "_range_text") [] rk; rk].
Proof.
  unfold popped_with. intros Hin Hne.
  destruct (contains (lit "_range_text") rk).
  - split; [reflexivity |].
    repeat (apply elem_of_cons in Hin as [-> | Hin]);
      [contradiction | | | | inversion Hin];
      repeat (first [apply list_elem_of_here | apply list_elem_of_further]).
  - apply list_elem_of_singleton in Hin. contradiction.
Qed.

Section Rendering.

Variable title_case : str -> str.
Variable float_2f : str -> option str.
Variable wiki_url : str.

Lemma physical_damage_get (k : str) (d : list (str * str)) :
  k ∉ physical_keys -> dict_get k (Bot.physical_damage d).2 = dict_get k d.
Proof.
  unfold physical_keys. rewrite !not_elem_of_cons.
  intros (H1 & H2 & H3 & H4 & _). unfold Bot.physical_damage.
  destruct (dict_get (lit "physical_damage_range_text") d).
  { cbn [snd]. rewrite !dict_get_del_ne by congruence. reflexivity. }
  destruct (dict_get (lit "physical_damage_min") d),
           (dict_get (lit "physical_damage_max") d);
    try (destruct (dict_get (lit "physical_damage") d)); cbn [snd];
    rewrite ?dict_get_del_ne by congruence; reflexivity.
Qed.

Lemma formatted_stats_grows (fm : list (str * (str * str)))
    (lines : list str) (d : list (str * str)) :
  exists extra, (Bot.formatted_stats float_2f fm lines d).1 = lines ++ extra.
Proof.
  revert lines d.
  induction fm as [| [key [before after]] fm IH]; intros lines d;
    cbn [Bot.formatted_stats].
  - exists []. cbn [fst]. rewrite app_nil_r. reflexivity.
  - destruct (dict_get key d) as [val |]; [| apply IH].
    match goal with
    | |- context [Bot.formatted_stats _ fm (lines ++ [?l]) ?ds] =>
        destruct (IH (lines ++ [l]) ds) as [extra Hex]; exists (l :: extra);
        rewrite Hex, <- app_assoc; reflexivity
    end.
Qed.

Lemma formatted_stats_prefers (fm : list (str * (str * str)))
    (lines : list str) (d : list (str * str)) (rk raw v : str) :
  prefers fm rk raw = true -> dict_get rk d = Some v ->
  Bot.formatted_stats float_2f fm lines (dict_del raw d)
  = Bot.formatted_stats float_2f fm lines d.
Proof.
  revert lines d.
  induction fm as [| [key [before after]] fm IH]; intros lines d Hp Hg;
    cbn [prefers] in Hp; [discriminate |].
  cbn [Bot.formatted_stats].
  destruct (decide (key = rk)) as [-> | Hk].
  - rewrite (bool_decide_eq_true_2 (rk = rk)) in Hp by reflexivity.
    apply andb_true_iff in Hp as [H1 H2].
    apply bool_decide_eq_true in H1.
    apply negb_true_iff, bool_decide_eq_false in H2.
    destruct (popped_with_range rk raw H1 H2) as [Hc Hin].
    rewrite (dict_get_del_ne raw rk) by exact H2. rewrite Hg, Hc.
    f_equal.
    exact (dict_del_absorb raw _ d Hin).
  - rewrite (bool_decide_eq_false_2 (key = rk)) in Hp by exact Hk.
    apply andb_true_iff in Hp as [Hp Hrest].
    apply andb_true_iff in Hp as [H1 H2].
    apply negb_true_iff, bool_decide_eq_false in H1.
    apply negb_true_iff, bool_decide_eq_false in H2.
    rewrite (dict_get_del_ne raw key) by congruence.
    destruct (dict_get key d) as [val |]; [| apply IH; assumption].
    unfold popped_with in H2.
    destruct (contains (lit "_range_text") key).
    + rewrite !not_elem_of_cons in H2. destruct H2 as (N1 & N2 & N3 & N4 & _).
      rewrite (dict_del_comm key raw), (dict_del_comm _ raw),
        (dict_del_comm
           (replace (lit "_range_text") [] key ++ lit "_min") raw),
        (dict_del_comm
           (replace (lit "_range_text") [] key ++ lit "_max") raw).
      apply IH; [exact Hrest |].
      rewrite !dict_get_del_ne by congruence. exact Hg.
    + rewrite !not_elem_of_cons in H2. destruct H2 as (N1 & _).
      rewrite (dict_del_comm key raw).
      apply IH; [exact Hrest |].
      rewrite dict_get_del_ne by congruence. exact Hg.
Qed.

Lemma formatted_stats_shows (fm : list (str * (str * str)))
    (lines : list str) (d : list (str * str)) (rk raw v : str) :
  prefers fm rk raw = true -> dict_get rk d = Some v ->
  exists before after,
    (rk, (before, after)) ∈ fm /\
    (before ++ Bot.html_escape v ++ after)
      ∈ (Bot.formatted_stats float_2f fm lines d).1.
Proof.
  revert lines d.
  induction fm as [| [key [before after]] fm IH]; intros lines d Hp Hg;
    cbn [prefers] in Hp; [discriminate |].
  cbn [Bot.formatted_stats].
  destruct (decide (key = rk)) as [-> | Hk].
  - rewrite (bool_decide_eq_true_2 (rk = rk)) in Hp by reflexivity.
    apply andb_true_iff in Hp as [H1 H2].
    apply bool_decide_eq_true in H1.
    apply negb_true_iff, bool_decide_eq_false in H2.
    destruct (popped_with_range rk raw H1 H2) as [Hc _].
    exists before, after. split; [apply list_elem_of_here |].
    rewrite Hg.
    assert (Hcrit : rk <> lit "critical_strike_chance").
    { intros ->. vm_compute in Hc. discriminate. }
    rewrite (bool_decide_eq_false_2 _ Hcrit). cbn [andb].
    match goal with
    | |- context [Bot.formatted_stats _ fm (lines ++ [?l]) ?ds] =>
        destruct (formatted_stats_grows fm (lines ++ [l]) ds) as [extra Hex]
    end.
    rewrite Hex. apply elem_of_app. left. apply elem_of_app. right.
    apply list_elem_of_here.
  - rewrite (bool_decide_eq_false_2 (key = rk)) in Hp by exact Hk.
    apply andb_true_iff in Hp as [Hp Hrest].
    apply andb_true_iff in Hp as [_ H2].
    apply negb_true_iff, bool_decide_eq_false in H2.
    assert (Hnext : forall lines' d', dict_get rk d' = Some v ->
              exists before0 after0,
                (rk, (before0, after0)) ∈ (key, (before, after)) :: fm /\
                (before0 ++ Bot.html_escape v ++ after0)
                  ∈ (Bot.formatted_stats float_2f fm lines' d').1).
    { intros lines' d' Hg'.
      destruct (IH lines' d' Hrest Hg') as (b & a & Hin & Hl).
      exists b, a. split; [apply list_elem_of_further; exact Hin | exact Hl]. }
    destruct (dict_get key d) as [val |]; [| apply Hnext; exact Hg].
    apply Hnext. unfold popped_with in H2.
    destruct (contains (lit "_range_text") key).
    + rewrite !not_elem_of_cons in H2. destruct H2 as (N1 & N2 & N3 & N4 & _).
      rewrite !dict_get_del_ne by congruence. exact Hg.
    + rewrite !not_elem_of_cons in H2. destruct H2 as (N1 & _).
      rewrite dict_get_del_ne by congruence. exact Hg.
Qed.

Lemma formatted_stats_markup (fm : list (str * (str * str)))
    (lines : list str) (d : list (str * str)) :
  Forall (fun e : str * (str * str) =>
            markup_free e.2.1 /\ markup_free e.2.2) fm ->
  Forall markup_free lines ->
  Forall markup_free (Bot.formatted_stats float_2f fm lines d).1.
Proof.
  intros Hfm. revert lines d.
  induction Hfm as [| [key [before after]] fm [Hb Ha] _ IH]; intros lines d Hl;
    cbn [Bot.formatted_stats]; [exact Hl |].
  cbn [fst snd] in Hb, Ha.
  destruct (dict_get key d) as [val |]; [| apply IH; exact Hl].
  apply IH. apply Forall_app. split; [exact Hl |].
  apply Forall_cons; split; [| apply Forall_nil; trivial].
  apply markup_free_app; [exact Hb |].
  apply markup_free_app; [apply markup_free_escape | exact Ha].
Qed.

Lemma remaining_stats_markup (d : list (str * str)) :
  Forall markup_free (Bot.remaining_stats title_case d).
Proof.
  induction d as [| [key val] d IH]; cbn [Bot.remaining_stats];
    [apply Forall_nil; trivial |].
  match goal with |- context [if ?b then _ else _] => destruct b end;
    [| exact IH].
  apply Forall_cons; split; [| exact IH].
  apply markup_free_app; [apply markup_free_escape |].
  apply markup_free_app; [| apply markup_free_escape].
  split; intros Hin; apply (bool_decide_pack _) in Hin; vm_compute in Hin;
    exact Hin.
Qed.

(** X22. On [format_content], lines 241 to 272.  When a stat that the format
    table renders as a range text is present, its line is shown with the
    escaped value between the table's texts, and the numeric counterpart
    the table pops with it ([base], [base_min] or [base_max]) has no
    influence on the stat lines or on the message. *)
Theorem range_text_supersedes (item_obj : Api.Item) (loading_mods : bool)
    (range_key raw_key v : str) :
  prefers Bot.format_map range_key raw_key = true ->
  dict_get range_key (Api.stats item_obj) = Some v ->
  (exists before after,
     (range_key, (before, after)) ∈ Bot.format_map /\
     (before ++ Bot.html_escape v ++ after)
       ∈ Bot.stat_lines title_case float_2f item_obj) /\
  Bot.stat_lines title_case float_2f item_obj
  = Bot.stat_lines title_case float_2f (without_stat raw_key item_obj) /\
  Bot.format_content title_case float_2f wiki_url item_obj loading_mods
  = Bot.format_content title_case float_2f wiki_url
      (without_stat raw_key item_obj) loading_mods.
Proof.
  intros Hp Hg.
  destruct (prefers_spec _ _ _ Hp) as (Hrk & Hraw & Hne).
  pose proof format_map_not_physical as Hphys.
  rewrite Forall_forall in Hphys. specialize (Hphys _ Hrk).
  rewrite Forall_forall in Hphys.
  assert (Hrk_np : range_key ∉ physical_keys).
  { apply Hphys. unfold popped_with.
    destruct (contains (lit "_range_text") range_key);
      apply list_elem_of_here. }
  assert (Hraw_np : raw_key ∉ physical_keys) by (apply Hphys; exact Hraw).
  assert (Hg1 : dict_get range_key (Bot.physical_damage (Api.stats item_obj)).2
                = Some v).
  { rewrite physical_damage_get by exact Hrk_np. exact Hg. }
  assert (Hlines : Bot.stat_lines title_case float_2f item_obj
                   = Bot.stat_lines title_case float_2f
                       (without_stat raw_key item_obj)).
  { unfold Bot.stat_lines, without_stat.
    cbn [Api.stats Api.set_stats Api.required_level].
    unfold physical_keys in Hraw_np. rewrite !not_elem_of_cons in Hraw_np.
    destruct Hraw_np as (N1 & N2 & N3 & N4 & _).
    rewrite physical_damage_del by assumption.
    destruct (Bot.physical_damage (Api.stats item_obj)) as [l1 ds1].
    cbn [fst snd] in *.
    rewrite (formatted_stats_prefers _ l1 ds1 range_key raw_key v Hp Hg1).
    reflexivity. }
  split; [| split; [exact Hlines |]].
  - unfold Bot.stat_lines.
    destruct (Bot.physical_damage (Api.stats item_obj)) as [l1 ds1].
    cbn [snd] in Hg1.
    destruct (formatted_stats_shows _ l1 ds1 range_key raw_key v Hp Hg1)
      as (before & after & Hin & Hl).
    exists before, after. split; [exact Hin |].
    destruct (Bot.formatted_stats float_2f Bot.format_map l1 ds1) as [l2 ds2].
    cbn [fst] in Hl. apply elem_of_app. left.
    destruct (truthy (Api.required_level item_obj)); [| exact Hl].
    apply elem_of_app. left. exact Hl.
  - unfold Bot.format_content. rewrite Hlines. reflexivity.
Qed.

(** X23. On [format_content], lines 231 to 234.  When the record carries a
    physical damage range text, the first stat line is that text behind
    ["Physical Damage: "], inserted as it is (it is not escaped), and the
    numeric bounds [physical_damage_min] and [physical_damage_max] have no
    influence on the stat lines. *)
Theorem physical_range_text_shown (item_obj : Api.Item) (raw_key v : str) :
  dict_get (lit "physical_damage_range_text") (Api.stats item_obj) = Some v ->
  raw_key ∈ [lit "physical_damage_max"; lit "physical_damage_min"] ->
  head (Bot.stat_lines title_case float_2f item_obj)
  = Some (lit "Physical Damage: " ++ v) /\
  Bot.stat_lines title_case float_2f item_obj
  = Bot.stat_lines title_case float_2f (without_stat raw_key item_obj).
Proof.
  intros Hg Hraw. split.
  - unfold Bot.stat_lines, Bot.physical_damage. rewrite Hg.
    match goal with
    | |- context [Bot.formatted_stats _ ?fm ?l ?ds] =>
        destruct (formatted_stats_grows fm l ds) as [extra Hex];
        destruct (Bot.formatted_stats float_2f fm l ds) as [l2 ds2]
    end.
    cbn [fst] in Hex. subst l2.
    destruct (truthy (Api.required_level item_obj)); reflexivity.
  - unfold Bot.stat_lines, without_stat.
    cbn [Api.stats Api.set_stats Api.required_level].
    unfold Bot.physical_damage.
    assert (Hne : raw_key <> lit "physical_damage_range_text").
    { intros ->. apply (bool_decide_pack _) in Hraw. vm_compute in Hraw.
      exact Hraw. }
    rewrite (dict_get_del_ne raw_key) by exact Hne. rewrite Hg.
    assert (Hin : raw_key ∈ [lit "physical_damage_max";
                             lit "physical_damage_min";
                             lit "physical_damage_range_text"]).
    { repeat (apply elem_of_cons in Hraw as [-> | Hraw]);
        [| | inversion Hraw];
        repeat (first [apply list_elem_of_here | apply list_elem_of_further]). }
    pose proof (dict_del_absorb raw_key _ (Api.stats item_obj) Hin) as Habs.
    cbn [foldr] in Habs. rewrite Habs. reflexivity.
Qed.

(** X24. On [format_content], lines 224 to 291.  Every stat line is free of
    [<] and [>], whatever the stat values are, as long as the physical
    damage values (the only ones inserted without escaping) are. *)
Theorem stat_lines_markup_free (item_obj : Api.Item) :
  Forall (fun kv => kv.1 ∈ physical_keys -> markup_free kv.2)
    (Api.stats item_obj) ->
  Forall markup_free (Bot.stat_lines title_case float_2f item_obj).
Proof.
  intros Hphys. rewrite Forall_forall in Hphys.
  assert (Hval : forall k v, k ∈ physical_keys ->
            dict_get k (Api.stats item_obj) = Some v -> markup_free v).
  { intros k v Hk Hg. apply (Hphys (k, v)); [| exact Hk].
    apply dict_get_elem. exact Hg. }
  assert (Hlabel : markup_free (lit "Physical Damage: ")).
  { split; intros Hin; apply (bool_decide_pack _) in Hin; vm_compute in Hin;
      exact Hin. }
  assert (Hdash : markup_free (lit "-")).
  { split; intros Hin; apply (bool_decide_pack _) in Hin; vm_compute in Hin;
      exact Hin. }
  assert (Hk1 : lit "physical_damage_range_text" ∈ physical_keys)
    by (apply (bool_decide_unpack _); vm_compute; exact I).
  assert (Hk2 : lit "physical_damage_min" ∈ physical_keys)
    by (apply (bool_decide_unpack _); vm_compute; exact I).
  assert (Hk3 : lit "physical_damage_max" ∈ physical_keys)
    by (apply (bool_decide_unpack _); vm_compute; exact I).
  assert (Hk4 : lit "physical_damage" ∈ physical_keys)
    by (apply (bool_decide_unpack _); vm_compute; exact I).
  assert (Hl1 : Forall markup_free
                  (Bot.physical_damage (Api.stats item_obj)).1).
  { unfold Bot.physical_damage.
    destruct (dict_get (lit "physical_damage_range_text")
                (Api.stats item_obj)) as [rt |] eqn:E1.
    { cbn [fst]. apply Forall_cons; split; [| apply Forall_nil; trivial].
      apply markup_free_app; [exact Hlabel | exact (Hval _ _ Hk1 E1)]. }
    destruct (dict_get (lit "physical_damage_min") (Api.stats item_obj))
      as [mn |] eqn:E2,
      (dict_get (lit "physical_damage_max") (Api.stats item_obj))
      as [mx |] eqn:E3.
    { cbn [fst]. apply Forall_cons; split; [| apply Forall_nil; trivial].
      apply markup_free_app; [exact Hlabel |].
      apply markup_free_app; [exact (Hval _ _ Hk2 E2) |].
      apply markup_free_app; [exact Hdash | exact (Hval _ _ Hk3 E3)]. }
    all: destruct (dict_get (lit "physical_damage") (Api.stats item_obj))
           as [pd |] eqn:E4; cbn [fst];
      [apply Forall_cons; split; [| apply Forall_nil; trivial];
       apply markup_free_app; [exact Hlabel | exact (Hval _ _ Hk4 E4)]
      | apply Forall_nil; trivial]. }
  unfold Bot.stat_lines.
  destruct (Bot.physical_damage (Api.stats item_obj)) as [l1 ds1].
  cbn [fst] in Hl1.
  pose proof (formatted_stats_markup Bot.format_map l1 ds1
                format_map_markup_free Hl1) as Hl2.
  destruct (Bot.formatted_stats float_2f Bot.format_map l1 ds1) as [l2 ds2].
  cbn [fst] in Hl2.
  apply Forall_app. split; [| apply remaining_stats_markup].
  destruct (truthy (Api.required_level item_obj)); [| exact Hl2].
  apply Forall_app. split; [exact Hl2 |].
  apply Forall_cons; split; [| apply Forall_nil; trivial].
  apply markup_free_app; [| apply markup_free_escape].
  split; intros Hin; apply (bool_decide_pack _) in Hin; vm_compute in Hin;
    exact Hin.
Qed.

End Rendering.

Lemma range_text_supersedes_witness :
  (exists before after,
     (lit "armour_range_text", (before, after)) ∈ Bot.format_map /\
     (before ++ Bot.html_escape (lit "(553-794)") ++ after)
       ∈ Bot.stat_lines title_stub float_stub ranged_armour) /\
  Bot.stat_lines title_stub float_stub ranged_armour
  = Bot.stat_lines title_stub float_stub
      (without_stat (lit "armour") ranged_armour) /\
  Bot.format_content title_stub float_stub (lit "https://www.poewiki.net")
    ranged_armour false
  = Bot.format_content title_stub float_stub (lit "https://www.poewiki.net")
      (without_stat (lit "armour") ranged_armour) false.
Proof.
  apply (range_text_supersedes title_stub float_stub
           (lit "https://www.poewiki.net") ranged_armour false
           (lit "armour_range_text") (lit "armour") (lit "(553-794)")).
  - vm_compute. reflexivity.
  - vm_compute. reflexivity.
Defined.

Lemma physical_range_text_shown_witness :
  head (Bot.stat_lines title_stub float_stub ranged_sword)
  = Some (lit "Physical Damage: " ++ lit "(425-500) to (900-1000)") /\
  Bot.stat_lines title_stub float_stub ranged_sword
  = Bot.stat_lines title_stub float_stub
      (without_stat (lit "physical_damage_min") ranged_sword).
Proof.
  apply (physical_range_text_shown title_stub float_stub ranged_sword
           (lit "physical_damage_min") (lit "(425-500) to (900-1000)")).
  - vm_compute. reflexivity.
  - apply (bool_decide_unpack _). vm_compute. exact I.
Defined.

Lemma stat_lines_markup_free_witness :
  Forall markup_free (Bot.stat_lines title_stub float_stub ranged_sword).
Proof.
  apply (stat_lines_markup_free title_stub float_stub ranged_sword).
  unfold ranged_sword. cbn [Api.stats Api.set_stats].
  repeat (apply Forall_cons; split; [| ]); [| | | apply Forall_nil; trivial].
  - intros _. split; intros Hin; apply (bool_decide_pack _) in Hin;
      vm_compute in Hin; exact Hin.
  - intros _. split; intros Hin; apply (bool_decide_pack _) in Hin;
      vm_compute in Hin; exact Hin.
  - intros Hin. apply (bool_decide_pack _) in Hin. vm_compute in Hin.
    destruct Hin.
Defined.

(** X25. On [format_content], lines 294 to 300.  A rendered mod block never
    contains [<] or [>]: whatever the wiki put into the mod text, it cannot
    open a tag in the message. *)
Theorem mods_block_markup_free (mods : str) :
  markup_free (Bot.mods_block mods).
Proof.
  assert (Hnl : forall x : char, x ∈ [NEWLINE] -> x <> LT /\ x <> GT).
  { intros x Hx. apply list_elem_of_singleton in Hx. subst x.
    split; discriminate. }
  assert (Hesc : forall x : char,
            x ∈ Bot.html_escape mods -> x <> LT /\ x <> GT).
  { intros x Hx. apply html_escape_elem in Hx.
    rewrite !not_elem_of_cons in Hx. tauto. }
  assert (Hall : forall x : char, x ∈ Bot.mods_block mods ->
            x <> LT /\ x <> GT).
  { unfold Bot.mods_block, replace. intros x Hx.
    apply replace_fuel_elem in Hx as [Hx | Hx]; [exact (Hnl x Hx) |].
    apply replace_fuel_elem in Hx as [Hx | Hx]; [exact (Hnl x Hx) |].
    exact (Hesc x Hx). }
  split; intros Hin; apply Hall in Hin; tauto.
Qed.

Lemma html_escape_join (lines : list str) :
  Forall html_plain lines ->
  Bot.html_escape (join (lit "<br>") lines) = join (lit "&lt;br&gt;") lines.
Proof.
  induction 1 as [| x rest Hx Hrest IH]; [reflexivity |].
  destruct rest as [| y rest].
  - cbn [join]. apply html_escape_plain. exact Hx.
  - rewrite !join_cons2, !html_escape_app, IH, (html_escape_plain x Hx).
    reflexivity.
Qed.

(** X26. On [format_content], lines 294 to 300, with the merge rule of
    [populate_item_details].  Mod lines joined by ["<br>"] come out one
    per line: when no line has a character that [html.escape] rewrites,
    the block is the lines joined by a newline. *)
Theorem mods_block_lines (lines : list str) :
  Forall html_plain lines ->
  Bot.mods_block (join (lit "<br>") lines) = join [NEWLINE] lines.
Proof.
  intros Hplain.
  assert (Hamp : Forall (fun l : str => AMP ∉ l) lines).
  { eapply Forall_impl; [exact Hplain |]. intros l Hl Hin.
    unfold html_plain in Hl. rewrite Forall_forall in Hl.
    apply (Hl _ Hin). apply list_elem_of_here. }
  unfold Bot.mods_block. rewrite html_escape_join by exact Hplain.
  unfold replace at 2.
  change (lit "&lt;br&gt;") with (AMP :: lit "lt;br&gt;").
  rewrite replace_join by (exact Hamp || lia).
  unfold replace. change (lit "&lt;br/&gt;") with (AMP :: lit "lt;br/&gt;").
  apply replace_fuel_absent. apply join_not_elem; [| exact Hamp].
  intros Hin. apply (bool_decide_pack _) in Hin. vm_compute in Hin.
  exact Hin.
Qed.

Lemma mods_block_lines_witness :
  Bot.mods_block
    (join (lit "<br>") [lit "+40 to Strength"; lit "20% increased Armour"])
  = join [NEWLINE] [lit "+40 to Strength"; lit "20% increased Armour"].
Proof.
  apply (mods_block_lines [lit "+40 to Strength"; lit "20% increased Armour"]).
  unfold html_plain. apply (bool_decide_unpack _). vm_compute. exact I.
Defined.

(** X27. On [resolve_item_details], lines 324 to 327 and 371 to 374.  Whatever
    the content, what is sent is at most 4003 characters long, agrees with
    the content on its first 4000 characters, and truncating it again
    changes nothing. *)
Theorem truncate_stable (content : str) :
  length (Bot.truncate content) <= 4003 /\
  take 4000 (Bot.truncate content) = take 4000 content /\
  Bot.truncate (Bot.truncate content) = Bot.truncate content.
Proof.
  assert (Hdots : length (lit "...") = 3) by reflexivity.
  destruct (4000 <? length content) eqn:Hlen.
  - assert (Hcut : Bot.truncate content = take 4000 content ++ lit "...")
      by (unfold Bot.truncate; rewrite Hlen; reflexivity).
    apply Nat.ltb_lt in Hlen.
    assert (Htake : length (take 4000 content) = 4000)
      by (rewrite length_take; lia).
    assert (Hlt : (4000 <? length (take 4000 content ++ lit "...")) = true).
    { apply Nat.ltb_lt. rewrite length_app, Htake, Hdots. lia. }
    rewrite Hcut.
    split; [rewrite length_app, Htake, Hdots; lia |].
    split.
    + rewrite take_app_length' by (symmetry; exact Htake).
      reflexivity.
    + unfold Bot.truncate. rewrite Hlt.
      rewrite take_app_length' by (symmetry; exact Htake).
      reflexivity.
  - assert (Hsame : Bot.truncate content = content)
      by (unfold Bot.truncate; rewrite Hlen; reflexivity).
    apply Nat.ltb_ge in Hlen. rewrite !Hsame.
    split; [lia |]. split; reflexivity.
Qed.

(** ** Classes without catalog fields *)

Section CatalogGaps.

Context {World : Type}.
Variable client_get : Api.params -> World -> Api.http_result * World.
Variable CARGO_MAPPING : gmap str (list str).
Variable lower : str -> str.
Variable unicode_Nd : char -> bool.
Variable expand_template : str -> option (str -> str).

Lemma fetch_supplementary_skip (it : Api.Item) (w : World) :
  (forall t, Models.get_table_for_class (Api.item_class it) = Some t ->
             Models.get_fields_for_table CARGO_MAPPING t = []) ->
  Api.fetch_supplementary client_get CARGO_MAPPING lower it w = (it, w).
Proof.
  intros Hgap. unfold Api.fetch_supplementary.
  destruct (Models.get_table_for_class (Api.item_class it)) as [t |];
    [| reflexivity].
  destruct (nonempty t); [| reflexivity].
  rewrite (Hgap t eq_refl). reflexivity.
Qed.

(** X28. On [populate_item_details], lines 266 to 318, with
    [get_table_for_class] and [get_fields_for_table].  When the catalog
    lists no field for the table of the record's class (the class has no
    table, the table is not in the catalog, or the catalog is empty, as it
    is when the mapping file is missing), no supplementary query is sent
    and the stats stay as they were; without mods, the whole enrichment
    is the metadata query alone. *)
Theorem no_fields_no_stats (it : Api.Item) (include_mods : bool) (w : World) :
  (forall t, Models.get_table_for_class (Api.item_class it) = Some t ->
             Models.get_fields_for_table CARGO_MAPPING t = []) ->
  Api.stats
    (Api.populate_item_details client_get CARGO_MAPPING lower unicode_Nd
       expand_template it include_mods w).1
  = Api.stats it /\
  Api.populate_item_details client_get CARGO_MAPPING lower unicode_Nd
    expand_template it false w
  = Api.fetch_metadata client_get it w.
Proof.
  intros Hgap.
  assert (Hskip : forall it0 w0, Api.item_class it0 = Api.item_class it ->
            Api.fetch_supplementary client_get CARGO_MAPPING lower
              (Api.fetch_metadata client_get it0 w0).1
              (Api.fetch_metadata client_get it0 w0).2
            = Api.fetch_metadata client_get it0 w0).
  { intros it0 w0 Hcls.
    pose proof (fetch_metadata_frame client_get it0 w0) as Hfr.
    cbn zeta in Hfr. destruct Hfr as ((_ & _ & Hc & _) & _).
    rewrite fetch_supplementary_skip;
      [destruct (Api.fetch_metadata client_get it0 w0); reflexivity |].
    rewrite Hc, Hcls. exact Hgap. }
  assert (Hpop : forall it0 w0, Api.item_class it0 = Api.item_class it ->
            (let '(it2, w2) := Api.fetch_metadata client_get it0 w0 in
             Api.fetch_supplementary client_get CARGO_MAPPING lower it2 w2)
            = Api.fetch_metadata client_get it0 w0).
  { intros it0 w0 Hcls. specialize (Hskip it0 w0 Hcls).
    destruct (Api.fetch_metadata client_get it0 w0) as [it2 w2].
    exact Hskip. }
  split.
  - unfold Api.populate_item_details. destruct include_mods.
    + destruct (Api.resolve_mods client_get CARGO_MAPPING unicode_Nd
                  expand_template (Api.name it) w) as [mods w1].
      rewrite Hpop by reflexivity.
      pose proof (fetch_metadata_frame client_get
                    (Api.set_mods it mods.1 mods.2) w1) as Hfr.
      cbn zeta in Hfr. destruct Hfr as (_ & _ & Hst & _).
      rewrite Hst. reflexivity.
    + rewrite Hpop by reflexivity.
      pose proof (fetch_metadata_frame client_get it w) as Hfr.
      cbn zeta in Hfr. destruct Hfr as (_ & _ & Hst & _). exact Hst.
  - unfold Api.populate_item_details. apply Hpop. reflexivity.
Qed.

End CatalogGaps.

Lemma no_fields_no_stats_witness :
  Api.stats
    (Api.populate_item_details scripted_get weapons_catalog ascii_lower
       ascii_only reject_escapes
       (search_hit "Assassin's Garb" "Normal" "Body Armour") true
       (drop 1 evasion_armour_script)).1
  = Api.stats (search_hit "Assassin's Garb" "Normal" "Body Armour") /\
  Api.populate_item_details scripted_get weapons_catalog ascii_lower
    ascii_only reject_escapes
    (search_hit "Assassin's Garb" "Normal" "Body Armour") false
    (drop 1 evasion_armour_script)
  = Api.fetch_metadata scripted_get
      (search_hit "Assassin's Garb" "Normal" "Body Armour")
      (drop 1 evasion_armour_script).
Proof.
  apply (no_fields_no_stats scripted_get weapons_catalog ascii_lower
           ascii_only reject_escapes
           (search_hit "Assassin's Garb" "Normal" "Body Armour") true
           (drop 1 evasion_armour_script)).
  intros t Ht. vm_compute in Ht. injection Ht as <-. vm_compute. reflexivity.
Defined.
